(** * NIP-17 event bus: deduplication, watermarks, persistence, send, key codec

    A shallow embedding of [nip17-bus.ts] and [state-store.ts].  JavaScript
    numbers that hold counts and timestamps are integers ([Z]), and where
    the code can compute [NaN] they are an integer or [NaN] ([option Z]);
    strings are [string]; the module-level [Set] is the list of its keys in
    insertion order; arrays live in a heap of lists so that two references
    to one array see each other's [push]. *)

From Stdlib Require Import Ascii.
From stdpp Require Import prelude strings pretty sorting gmap.

Local Open Scope Z_scope.

(** ** JavaScript [Set<string>], kept in insertion order *)

Definition Set_has (key : string) (s : list string) : bool :=
  bool_decide (key ∈ s).

Definition Set_add (key : string) (s : list string) : list string :=
  if Set_has key s then s else s ++ [key].

Definition Set_delete (key : string) (s : list string) : list string :=
  filter (λ k, k ≠ key) s.

(** ** Module-level dedup ledger *)

Definition GLOBAL_SEEN_MAX : Z := 20000.

(** The literal [0.8] is the binary64 number [3602879701896397 / 2^52].  The
    exact product with [GLOBAL_SEEN_MAX] lies in [16000, 16001) and [16000] is
    itself a binary64 number, so rounding the product cannot move its floor:
    [Math.floor(GLOBAL_SEEN_MAX * 0.8)] is the floor of the exact product. *)
Definition binary64_0_8_num : Z := 3602879701896397.
Definition binary64_0_8_den : Z := 2 ^ 52.

Definition floor_GLOBAL_SEEN_MAX_0_8 : Z :=
  (GLOBAL_SEEN_MAX * binary64_0_8_num) `div` binary64_0_8_den.

(** [for (const id of globalSeen) { if (deleted >= toDelete) break;
      globalSeen.delete(id); deleted++; }]
    [pending] is what the live iterator has still to visit. *)
Fixpoint trim_loop (toDelete deleted : Z) (pending seen : list string)
  : list string :=
  match pending with
  | [] => seen
  | id :: rest =>
      if bool_decide (toDelete ≤ deleted) then seen
      else trim_loop toDelete (deleted + 1) rest (Set_delete id seen)
  end.

(** [globalDedup(key)]: the returned flag and the ledger afterwards. *)
Definition globalDedup (key : string) (globalSeen : list string)
  : bool * list string :=
  if Set_has key globalSeen then (true, globalSeen)
  else
    let seen1 := Set_add key globalSeen in
    if bool_decide (GLOBAL_SEEN_MAX < Z.of_nat (length seen1)) then
      let toDelete := Z.of_nat (length seen1) - floor_GLOBAL_SEEN_MAX_0_8 in
      (false, trim_loop toDelete 0 seen1 seen1)
    else (false, seen1).

(** A ledger as the running process can hold it: a set, within its cap. *)
Definition ledger_ok (seen : list string) : Prop :=
  NoDup seen ∧ Z.of_nat (length seen) ≤ GLOBAL_SEEN_MAX.

(** Ledger after a sequence of [globalDedup] calls. *)
Definition dedup_all (keys : list string) (seen : list string) : list string :=
  foldl (λ s k, (globalDedup k s).2) seen keys.

(** ** Numbers that may be [NaN]

    [None] is [NaN].  A field that is absent from an object reads as
    [undefined], which [Math.max] and the comparisons turn into [NaN]; so
    [None] is also the absent field. *)

(** [Math.max(a, b)]: [NaN] as soon as one argument is. *)
Definition Math_max (a b : option Z) : option Z :=
  match a, b with
  | Some x, Some y => Some (Z.max x y)
  | _, _ => None
  end.

(** [a < b] and [a <= b]: false as soon as one operand is [NaN]. *)
Definition js_lt (a b : option Z) : bool :=
  match a, b with
  | Some x, Some y => bool_decide (x < y)
  | _, _ => false
  end.

Definition js_le (a b : option Z) : bool :=
  match a, b with
  | Some x, Some y => bool_decide (x ≤ y)
  | _, _ => false
  end.

Arguments Math_max : simpl never.
Arguments js_lt : simpl never.
Arguments js_le : simpl never.

(** ** Data model *)

Definition Uint8Array := list Z.

(** A relay event as [handleEvent] receives it. *)
Record Event := {
  ev_id : string;
  ev_kind : Z;
  ev_pubkey : string;
  ev_created_at : Z;
  ev_tags : list (list string);
  ev_content : string;
  ev_sig : string;
}.

(** What [unwrapEvent] returns: the decrypted content of the seal, parsed
    and handed to the handler through a cast that checks nothing.  The
    handler guards [rumor.id] and [rumor.content] against being absent, and
    [rumor.created_at] may be absent just as well, so the three are optional
    here.  An absent [kind] is treated like any kind other than 14, and an
    absent [pubkey] like the string ["undefined"], which is what the
    template of the rumor key makes of it and which is no public key. *)
Record Rumor := {
  r_id : option string;
  r_kind : Z;
  r_pubkey : string;
  r_created_at : option Z;
  r_content : option string;
}.

(** [interface NostrBusState], the content of the state file.  The field
    [recentFingerprints] is never read nor written by the bus. *)
Record NostrBusState := {
  s_lastProcessedAt : Z;
  s_gatewayStartedAt : Z;
  s_recentEventIds : list string;
  s_lastRumorAt : option Z;
}.

(** Calls that leave the bus.  [CallOnMessage] is
    [onMessage(senderPubkey, text, replyFn)], the reply function left out.
    [CallOnError] stands for the evaluation of [onError?.(err, context)];
    [message] is the text of [err] when the bus builds the error itself, and
    [None] when it passes on what it caught. *)
Inductive Effect :=
| CallOnMessage (senderPubkey : string) (text : option string)
| CallOnError (message : option string) (context : string).

(** The argument object of a [writeNostrBusState] call: numbers are copied
    when the object literal is built, [recentEventIds] is a reference to an
    array in the heap.  [lastRumorAt] may be [NaN]. *)
Record WriteArg := {
  w_lastProcessedAt : Z;
  w_gatewayStartedAt : Z;
  w_recentEventIds : nat;
  w_lastRumorAt : option Z;
}.

(** Where a [writeNostrBusState] call is suspended: at [await mkdir], or at
    [await writeFile] with the text [JSON.stringify] has produced. *)
Inductive WriteStage :=
| AwaitMkdir
| AwaitWriteFile (json : NostrBusState).

(** One process running one bus: the module-level ledger, the variables
    captured by the closures of [startNip17Bus], the array heap, the
    [handleEvent] calls suspended at [await onMessage], the
    [writeNostrBusState] calls in flight, and the state file.  The variable
    [lastRumorAt] is a number that [Math.max] can turn into [NaN]. *)
Record Bus := {
  globalSeen : list string;
  lastProcessedAt : Z;
  lastRumorAt : option Z;
  heap : list (list string);
  recentEventIds : nat;
  inflight : list (Event * Rumor);
  writes : list (WriteArg * WriteStage);
  file : option NostrBusState;
}.

Definition set_globalSeen (v : list string) (b : Bus) : Bus :=
  {| globalSeen := v; lastProcessedAt := lastProcessedAt b;
     lastRumorAt := lastRumorAt b; heap := heap b;
     recentEventIds := recentEventIds b; inflight := inflight b;
     writes := writes b; file := file b |}.

Definition set_lastProcessedAt (v : Z) (b : Bus) : Bus :=
  {| globalSeen := globalSeen b; lastProcessedAt := v;
     lastRumorAt := lastRumorAt b; heap := heap b;
     recentEventIds := recentEventIds b; inflight := inflight b;
     writes := writes b; file := file b |}.

Definition set_lastRumorAt (v : option Z) (b : Bus) : Bus :=
  {| globalSeen := globalSeen b; lastProcessedAt := lastProcessedAt b;
     lastRumorAt := v; heap := heap b;
     recentEventIds := recentEventIds b; inflight := inflight b;
     writes := writes b; file := file b |}.

Definition set_heap (v : list (list string)) (b : Bus) : Bus :=
  {| globalSeen := globalSeen b; lastProcessedAt := lastProcessedAt b;
     lastRumorAt := lastRumorAt b; heap := v;
     recentEventIds := recentEventIds b; inflight := inflight b;
     writes := writes b; file := file b |}.

Definition set_recentEventIds (v : nat) (b : Bus) : Bus :=
  {| globalSeen := globalSeen b; lastProcessedAt := lastProcessedAt b;
     lastRumorAt := lastRumorAt b; heap := heap b;
     recentEventIds := v; inflight := inflight b;
     writes := writes b; file := file b |}.

Definition set_inflight (v : list (Event * Rumor)) (b : Bus) : Bus :=
  {| globalSeen := globalSeen b; lastProcessedAt := lastProcessedAt b;
     lastRumorAt := lastRumorAt b; heap := heap b;
     recentEventIds := recentEventIds b; inflight := v;
     writes := writes b; file := file b |}.

Definition set_writes (v : list (WriteArg * WriteStage)) (b : Bus) : Bus :=
  {| globalSeen := globalSeen b; lastProcessedAt := lastProcessedAt b;
     lastRumorAt := lastRumorAt b; heap := heap b;
     recentEventIds := recentEventIds b; inflight := inflight b;
     writes := v; file := file b |}.

Definition set_file (v : option NostrBusState) (b : Bus) : Bus :=
  {| globalSeen := globalSeen b; lastProcessedAt := lastProcessedAt b;
     lastRumorAt := lastRumorAt b; heap := heap b;
     recentEventIds := recentEventIds b; inflight := inflight b;
     writes := writes b; file := v |}.

(** What the closures capture and never assign: the decoded private key, the
    public key derived from it, the start time, and the library's
    [unwrapEvent] ([None] when it throws). *)
Record Env := {
  sk : Uint8Array;
  pk : string;
  gatewayStartedAt : Z;
  unwrapEvent : Event → Uint8Array → option Rumor;
}.

(** ** Constants *)

Definition STARTUP_LOOKBACK_SEC : Z := 2 * 24 * 60 * 60.
Definition MAX_PERSISTED_EVENT_IDS : Z := 5000.

(** ** Arrays *)

(** [arr.slice(-n)] for [n > 0]: a fresh array holding the last [n] items. *)
Definition slice_last (n : Z) (arr : list string) : list string :=
  drop (Z.to_nat (Z.max (Z.of_nat (length arr) - n) 0)) arr.

(** The array a reference points to. *)
Definition deref (h : list (list string)) (ref : nat) : list string :=
  default [] (h !! ref).

(** ** State store *)

(** [computeSinceTimestamp]: [state?.lastProcessedAt] is tested for
    truthiness, so a watermark of [0] counts as none. *)
Definition computeSinceTimestamp (state : option NostrBusState)
    (gatewayStartedAt : Z) : Z :=
  match state with
  | Some s =>
      if bool_decide (s_lastProcessedAt s ≠ 0) then s_lastProcessedAt s
      else gatewayStartedAt
  | None => gatewayStartedAt
  end.

(** ** The bus *)

(** The rumor-level ledger key.  In the template an absent field reads
    ["undefined"]. *)
Definition rumorId (rumor : Rumor) : string :=
  match r_id rumor with
  | Some i =>
      if bool_decide (i ≠ "") then "rumor:" +:+ i
      else "rumor:" +:+ r_pubkey rumor +:+ ":"
           +:+ from_option pretty "undefined" (r_created_at rumor)
           +:+ ":" +:+ from_option (String.substring 0 32) "undefined" (r_content rumor)
  | None =>
      "rumor:" +:+ r_pubkey rumor +:+ ":"
      +:+ from_option pretty "undefined" (r_created_at rumor)
      +:+ ":" +:+ from_option (String.substring 0 32) "undefined" (r_content rumor)
  end.

Section bus.
Context (env : Env).

(** [persistStateNow()]: starts a [writeNostrBusState] call, which suspends
    at [await mkdir]. *)
Definition persistStateNow (b : Bus) : Bus :=
  set_writes
    (writes b ++
     [({| w_lastProcessedAt := lastProcessedAt b;
          w_gatewayStartedAt := gatewayStartedAt env;
          w_recentEventIds := recentEventIds b;
          w_lastRumorAt := lastRumorAt b |}, AwaitMkdir)]) b.

(** [scheduleStatePersist(eventCreatedAt, eventId)].  [push] changes the
    array in place; [slice] allocates a new one and rebinds the variable. *)
Definition scheduleStatePersist (eventCreatedAt : Z) (eventId : string)
    (b : Bus) : Bus :=
  let b1 := set_lastProcessedAt (Z.max (lastProcessedAt b) eventCreatedAt) b in
  let pushed := deref (heap b1) (recentEventIds b1) ++ [eventId] in
  let b2 := set_heap (<[recentEventIds b1 := pushed]> (heap b1)) b1 in
  let b3 :=
    if bool_decide (MAX_PERSISTED_EVENT_IDS < Z.of_nat (length pushed)) then
      set_recentEventIds (length (heap b2))
        (set_heap (heap b2 ++ [slice_last MAX_PERSISTED_EVENT_IDS pushed]) b2)
    else b2 in
  persistStateNow b3.

(** [handleEvent(event)] up to its first suspension: either it returns, or
    it calls [onMessage] and waits for the returned promise. *)
Definition handleEvent (event : Event) (b : Bus) : Bus * list Effect :=
  let '(dup, seen1) := globalDedup ("gw:" +:+ ev_id event) (globalSeen b) in
  let b1 := set_globalSeen seen1 b in
  if dup then (b1, [])
  else if bool_decide (ev_kind event ≠ 1059) then (b1, [])
  else
    match unwrapEvent env event (sk env) with
    | None => (b1, [CallOnError None ("unwrap gift wrap " +:+ ev_id event)])
    | Some rumor =>
        if bool_decide (r_kind rumor ≠ 14) then (b1, [])
        else
          let '(dup2, seen2) := globalDedup (rumorId rumor) (globalSeen b1) in
          let b2 := set_globalSeen seen2 b1 in
          if dup2 then (b2, [])
          else if bool_decide (r_pubkey rumor = pk env) then (b2, [])
          else if js_lt (Some 0) (lastRumorAt b2)
                  && js_le (r_created_at rumor) (lastRumorAt b2)
          then (b2, [])
          else (set_inflight (inflight b2 ++ [(event, rumor)]) b2,
                [CallOnMessage (r_pubkey rumor) (r_content rumor)])
    end.

(** The rest of [handleEvent] once the promise of [onMessage] settles:
    fulfilled, the watermark becomes [Math.max(lastRumorAt,
    rumor.created_at)] and the state is persisted; rejected, the [catch]
    block reports it. *)
Definition handleEvent_resume (event : Event) (rumor : Rumor) (ok : bool)
    (b : Bus) : Bus * list Effect :=
  if ok then
    let b1 :=
      set_lastRumorAt (Math_max (lastRumorAt b) (r_created_at rumor)) b in
    (scheduleStatePersist (ev_created_at event) (ev_id event) b1, [])
  else (b, [CallOnError None ("event " +:+ ev_id event)]).

(** [writeNostrBusState] after [await mkdir]: the argument object is
    serialised now, reading the array its [recentEventIds] refers to.
    [JSON.stringify] writes [NaN] as [null], which reads back like an absent
    field. *)
Definition writeNostrBusState_stringify (h : list (list string))
    (arg : WriteArg) : NostrBusState :=
  {| s_lastProcessedAt := w_lastProcessedAt arg;
     s_gatewayStartedAt := w_gatewayStartedAt arg;
     s_recentEventIds := deref h (w_recentEventIds arg);
     s_lastRumorAt := w_lastRumorAt arg |}.

(** What can happen to the bus. *)
Inductive Input :=
| Deliver (event : Event)
| Settle (n : nat) (ok : bool)
| MkdirDone (j : nat) (ok : bool)
| WriteFileDone (j : nat) (ok : bool)
| Foreign (key : string).

(** One atomic turn of the event loop.
    - [Deliver]: the pool calls [onevent].
    - [Settle n ok]: the [onMessage] promise of the [n]-th suspended
      [handleEvent] settles.
    - [MkdirDone j ok], [WriteFileDone j ok]: the [j]-th write in flight
      gets past its [await]; a rejection reaches the [catch] of
      [persistStateNow].
    - [Foreign key]: another bus of the same process calls [globalDedup]. *)
Definition step (b : Bus) (i : Input) : Bus * list Effect :=
  match i with
  | Deliver event => handleEvent event b
  | Settle n ok =>
      match inflight b !! n with
      | Some (event, rumor) =>
          handleEvent_resume event rumor ok
            (set_inflight (delete n (inflight b)) b)
      | None => (b, [])
      end
  | MkdirDone j ok =>
      match writes b !! j with
      | Some (arg, AwaitMkdir) =>
          if ok then
            (set_writes
               (<[j := (arg, AwaitWriteFile
                               (writeNostrBusState_stringify (heap b) arg))]>
                  (writes b)) b, [])
          else (set_writes (delete j (writes b)) b,
                [CallOnError None "persist state"])
      | _ => (b, [])
      end
  | WriteFileDone j ok =>
      match writes b !! j with
      | Some (arg, AwaitWriteFile json) =>
          if ok then
            (set_file (Some json) (set_writes (delete j (writes b)) b), [])
          else (set_writes (delete j (writes b)) b,
                [CallOnError None "persist state"])
      | _ => (b, [])
      end
  | Foreign key => (set_globalSeen (globalDedup key (globalSeen b)).2 b, [])
  end.

Fixpoint run (b : Bus) (inputs : list Input) : Bus * list Effect :=
  match inputs with
  | [] => (b, [])
  | i :: rest =>
      let '(b1, out1) := step b i in
      let '(b2, out2) := run b1 rest in
      (b2, out1 ++ out2)
  end.

(** The [onMessage] calls among some effects. *)
Definition calls (out : list Effect) : list (string * option string) :=
  omap (λ e, match e with
             | CallOnMessage s t => Some (s, t)
             | CallOnError _ _ => None
             end) out.

(** What [startNip17Bus] hands to the subscription and leaves behind. *)
Record Started := { since : Z; bus : Bus }.

(** [startNip17Bus], from the state [readNostrBusState] returned and the
    ledger the process holds.  [write_ok] tells whether the awaited first
    [writeNostrBusState] succeeds; if not, the start rejects. *)
Definition startNip17Bus (state : option NostrBusState)
    (seen : list string) (write_ok : bool) : option Started :=
  let baseSince := computeSinceTimestamp state (gatewayStartedAt env) in
  let since := Z.max 0 (baseSince - STARTUP_LOOKBACK_SEC) in
  let ids := from_option s_recentEventIds [] state in
  let seen1 := dedup_all ((λ id, "gw:" +:+ id) <$> ids) seen in
  let first :=
    {| s_lastProcessedAt :=
         from_option s_lastProcessedAt (gatewayStartedAt env) state;
       s_gatewayStartedAt := gatewayStartedAt env;
       s_recentEventIds := ids;
       s_lastRumorAt := Some (default 0 (state ≫= s_lastRumorAt)) |} in
  if write_ok then
    Some {| since := since;
            bus := {| globalSeen := seen1;
                      lastProcessedAt :=
                        from_option s_lastProcessedAt (gatewayStartedAt env) state;
                      lastRumorAt := Some (default 0 (state ≫= s_lastRumorAt));
                      heap := [slice_last MAX_PERSISTED_EVENT_IDS ids];
                      recentEventIds := 0%nat;
                      inflight := [];
                      writes := [];
                      file := Some first |} |}
  else None.

End bus.

(** ** Calls that can throw *)

(** A result or a thrown error. *)
Inductive Res (A : Type) :=
| Ok (a : A)
| Throw (message : string).
Arguments Ok {A} a.
Arguments Throw {A} message.

Definition Res_bind {A B} (r : Res A) (f : A → Res B) : Res B :=
  match r with Ok a => f a | Throw m => Throw m end.

(** ** Outbound send *)

(** How a promise ends; [reason] is the text [join] makes of the rejection
    value. *)
Inductive Settled :=
| Fulfilled
| Rejected (reason : string).

(** An item handed to [Promise.allSettled]: a promise, or a value that is
    not a promise.  [pool.publish(relays, event)] of [SimplePool] returns an
    array with one promise per relay it was given, which is such a value;
    it is kept here by how its promises end. *)
Inductive Item :=
| ItemPromise (p : Settled)
| ItemValue (promises : list Settled).

(** [Promise.allSettled(items)]: an item that is a promise settles as the
    promise does, and an item that is not a promise counts as a promise
    fulfilled with it. *)
Definition Promise_allSettled (items : list Item) : list Settled :=
  (λ i, match i with
        | ItemPromise p => p
        | ItemValue _ => Fulfilled
        end) <$> items.

(** The object literal [chatEvent]. *)
Record ChatEvent := {
  ce_kind : Z;
  ce_content : string;
  ce_tags : list (list string);
  ce_created_at : Z;
}.

Inductive Completion :=
| Returned
| Thrown (message : string).

Definition is_rejected (r : Settled) : bool :=
  match r with Rejected _ => true | Fulfilled => false end.

Definition reason_of (r : Settled) : option string :=
  match r with Rejected reason => Some reason | Fulfilled => None end.

(** The text of the aggregated error. *)
Definition publish_error (results : list Settled) : string :=
  let failures := filter (λ r, is_rejected r = true) results in
  "Publish: " +:+ pretty (length results - length failures)%nat
  +:+ "/" +:+ pretty (length results)
  +:+ " ok, failures: " +:+ String.concat ", " (omap reason_of failures).

Section send.
(** The library: key derivation, the three NIP-59 constructors, and the
    [n]-th call [pool.publish([relay], wrap)].  Each of them can throw, and
    [sendNip17Dm] calls none of them inside a [try]. *)
Context {RumorT Seal Wrap : Type}.
Context (getPublicKey : Uint8Array → Res string).
Context (createRumor : ChatEvent → Uint8Array → Res RumorT).
Context (createSeal : RumorT → Uint8Array → string → Res Seal).
Context (createWrap : Seal → string → Res Wrap).
Context (publish : nat → string → Wrap → Res (list Settled)).

(** What a send comes to: the [pool.publish] calls made, as relay and wrap;
    the calls of [onError]; and how the send itself ends. *)
Record SendOutcome := {
  published : list (string * Wrap);
  reported : list Effect;
  completion : Completion;
}.

(** [sendNip17Dm] up to the two wraps: [wrapForRecipient] and
    [wrapForSelf]. *)
Definition giftWraps (sk : Uint8Array) (toPubkey text : string) (now : Z)
  : Res (list Wrap) :=
  Res_bind (getPublicKey sk) (λ pk,
    let chatEvent :=
      {| ce_kind := 14; ce_content := text; ce_tags := [["p"; toPubkey]];
         ce_created_at := now |} in
    Res_bind (createRumor chatEvent sk) (λ rumor,
      Res_bind (createSeal rumor sk toPubkey) (λ sealRecipient,
        Res_bind (createWrap sealRecipient toPubkey) (λ wrapForRecipient,
          Res_bind (createSeal rumor sk pk) (λ sealSelf,
            Res_bind (createWrap sealSelf pk) (λ wrapForSelf,
              Ok [wrapForRecipient; wrapForSelf])))))).

(** The pairs the two nested [for] loops go through: every wrap to every
    relay. *)
Definition publishCalls (wraps : list Wrap) (relays : list string)
  : list (string * Wrap) :=
  wrap ← wraps; relay ← relays; [(relay, wrap)].

(** What the loops have done when they end or when a call throws. *)
Record Pushed := {
  made : list (string * Wrap);
  publishPromises : list Item;
  thrown : option string;
}.

(** The body of the loops, from the [n]-th call on:
    [publishPromises.push(pool.publish([relay], wrap))].  What is pushed is
    the array that [pool.publish] returned. *)
Fixpoint push_all (n : nat) (todo : list (string * Wrap)) : Pushed :=
  match todo with
  | [] => {| made := []; publishPromises := []; thrown := None |}
  | (relay, wrap) :: rest =>
      match publish n relay wrap with
      | Throw m =>
          {| made := [(relay, wrap)]; publishPromises := [];
             thrown := Some m |}
      | Ok promises =>
          let later := push_all (S n) rest in
          {| made := (relay, wrap) :: made later;
             publishPromises := ItemValue promises :: publishPromises later;
             thrown := thrown later |}
      end
  end.

(** [sendNip17Dm(pool, sk, toPubkey, text, relays, onError)] at time [now]. *)
Definition sendNip17Dm (sk : Uint8Array) (toPubkey text : string)
    (relays : list string) (now : Z) : SendOutcome :=
  match giftWraps sk toPubkey text now with
  | Throw m => {| published := []; reported := []; completion := Thrown m |}
  | Ok wraps =>
      let pushed := push_all 0 (publishCalls wraps relays) in
      match thrown pushed with
      | Some m =>
          {| published := made pushed; reported := [];
             completion := Thrown m |}
      | None =>
          let results := Promise_allSettled (publishPromises pushed) in
          let failures := filter (λ r, is_rejected r = true) results in
          {| published := made pushed;
             reported :=
               if bool_decide (0 < length failures)%nat
               then [CallOnError (Some (publish_error results)) "publish"]
               else [];
             completion := Returned |}
      end
  end.

End send.

Arguments SendOutcome : clear implicits.
Arguments Pushed : clear implicits.

(** *** The older send

    The variant of [nip17-bus.ts] with debounced persistence has the same
    send up to [Promise.allSettled], and then reports the totals whatever
    they are, and the failures on their own. *)
Module Legacy.
Section send.
Context {RumorT Seal Wrap : Type}.
Context (getPublicKey : Uint8Array → Res string).
Context (createRumor : ChatEvent → Uint8Array → Res RumorT).
Context (createSeal : RumorT → Uint8Array → string → Res Seal).
Context (createWrap : Seal → string → Res Wrap).
Context (publish : nat → string → Wrap → Res (list Settled)).

Definition sendNip17Dm (sk : Uint8Array) (toPubkey text : string)
    (relays : list string) (now : Z) : SendOutcome Wrap :=
  match giftWraps getPublicKey createRumor createSeal createWrap
          sk toPubkey text now with
  | Throw m => {| published := []; reported := []; completion := Thrown m |}
  | Ok wraps =>
      let pushed := push_all publish 0 (publishCalls wraps relays) in
      match thrown pushed with
      | Some m =>
          {| published := made pushed; reported := [];
             completion := Thrown m |}
      | None =>
          let results := Promise_allSettled (publishPromises pushed) in
          let failures := filter (λ r, is_rejected r = true) results in
          {| published := made pushed;
             reported :=
               CallOnError
                 (Some ("Publish results: " +:+ pretty (length results)
                        +:+ " total, "
                        +:+ pretty (length (filter (λ r, is_rejected r = false)
                                              results))
                        +:+ " success, " +:+ pretty (length failures)
                        +:+ " failed"))
                 "publish"
               :: if bool_decide (0 < length failures)%nat
                  then [CallOnError
                          (Some ("Failed to publish "
                                 +:+ pretty (length failures)
                                 +:+ " messages: "
                                 +:+ String.concat ", "
                                       (omap reason_of failures)))
                          "publish"]
                  else [];
             completion := Returned |}
      end
  end.

End send.
End Legacy.

(** ** Key utilities *)

(** The [data] field of what [nip19.decode] returns, as the value it is at
    run time: a [Uint8Array] or a string. *)
Inductive NipData :=
| DataBytes (bytes : Uint8Array)
| DataString (s : string).

Record Decoded := { d_type : string; d_data : NipData }.

(** *** JavaScript string operations, on strings of one-byte characters *)

Definition is_js_space (c : ascii) : bool :=
  let n := Ascii.N_of_ascii c in
  bool_decide (n = 9 ∨ n = 10 ∨ n = 11 ∨ n = 12 ∨ n = 13 ∨ n = 32 ∨ n = 160)%N.

Fixpoint trimStart (s : string) : string :=
  match s with
  | String c rest => if is_js_space c then trimStart rest else s
  | EmptyString => EmptyString
  end.

Definition trim (s : string) : string :=
  String.rev (trimStart (String.rev (trimStart s))).

Definition startsWith (s p : string) : bool := String.prefix p s.

Definition is_hex_digit (c : ascii) : bool :=
  let n := Ascii.N_of_ascii c in
  bool_decide ((48 ≤ n ∧ n ≤ 57) ∨ (97 ≤ n ∧ n ≤ 102) ∨ (65 ≤ n ∧ n ≤ 70))%N.

(** [/^[0-9a-fA-F]{64}$/.test(s)] *)
Definition test_hex64 (s : string) : bool :=
  bool_decide (String.length s = 64%nat)
  && forallb is_hex_digit (String.list_ascii_of_string s).

Definition lower_char (c : ascii) : ascii :=
  let n := Ascii.N_of_ascii c in
  if bool_decide (65 ≤ n ∧ n ≤ 90)%N then Ascii.ascii_of_N (n + 32) else c.

(** [toLowerCase], on the letters A to Z. *)
Fixpoint toLowerCase (s : string) : string :=
  match s with
  | String c rest => String (lower_char c) (toLowerCase rest)
  | EmptyString => EmptyString
  end.

Definition hex_digit (n : Z) : ascii :=
  Ascii.ascii_of_N (Z.to_N (if bool_decide (n < 10) then 48 + n else 87 + n)).

(** [b.toString(16)] for a byte. *)
Definition byte_toString16 (b : Z) : string :=
  if bool_decide (b < 16) then String (hex_digit b) ""
  else String (hex_digit (b `div` 16)) (String (hex_digit (b `mod` 16)) "").

(** [s.padStart(2, "0")] *)
Definition padStart2 (s : string) : string :=
  match s with
  | EmptyString => "00"
  | String c EmptyString => String "0" s
  | _ => s
  end.

(** [Array.from(data).map((b) => b.toString(16).padStart(2, "0"))]: the items
    of a [Uint8Array] are numbers, and [toString(16)] writes them in base 16;
    the items of a string are its characters, and [toString] of a string
    returns it unchanged whatever its argument. *)
Definition Array_from_hexpad (data : NipData) : list string :=
  match data with
  | DataBytes bytes => (λ b, padStart2 (byte_toString16 b)) <$> bytes
  | DataString s =>
      (λ c, padStart2 (String c "")) <$> String.list_ascii_of_string s
  end.

Section key_utils.
(** The library's [nip19.decode] and [nip19.npubEncode]. *)
Context (nip19_decode : string → Res Decoded).
Context (nip19_npubEncode : string → Res string).

Definition normalizePubkey (input : string) : Res string :=
  let trimmed := trim input in
  if startsWith trimmed "npub1" then
    Res_bind (nip19_decode trimmed) (λ decoded,
      if bool_decide (d_type decoded ≠ "npub") then Throw "Invalid npub key"
      else Ok (String.concat "" (Array_from_hexpad (d_data decoded))))
  else if negb (test_hex64 trimmed) then
    Throw "Pubkey must be 64 hex chars or npub format"
  else Ok (toLowerCase trimmed).

Definition pubkeyToNpub (hexPubkey : string) : Res string :=
  Res_bind (normalizePubkey hexPubkey) nip19_npubEncode.

(** [normalizePublicKey(encodePublicKey(normalizePublicKey(x)))] *)
Definition normalize_encode_normalize (x : string) : Res string :=
  Res_bind (Res_bind (normalizePubkey x) pubkeyToNpub) normalizePubkey.

End key_utils.

(** *** The library's codec

    [normalizePubkey] and [pubkeyToNpub] above take the library's
    [nip19.decode] and [nip19.npubEncode] as parameters.  This module gives
    the two functions as nostr-tools has them, for the prefixes [npub],
    [note] and [nsec] in lower case: bech32 (BIP-173) over the key bytes.
    For [npub] and [note] the library returns [data] as a hex string, for
    [nsec] as bytes.  It serves to evaluate the key utilities on actual
    keys. *)
Module Nip19.

Definition CHARSET : string := "qpzry9x8gf2tvdw0s3jn54khce6mua7l".

Definition GEN : list Z :=
  [0x3b6a57b2; 0x26508e6d; 0x1ea119fa; 0x3d4233dd; 0x2a1462b3].

Definition polymod_step (chk v : Z) : Z :=
  let b := Z.shiftr chk 25 in
  let chk1 := Z.lxor (Z.shiftl (Z.land chk 0x1ffffff) 5) v in
  foldl (λ c '(i, g), if Z.testbit b i then Z.lxor c g else c) chk1
        (zip [0; 1; 2; 3; 4] GEN).

Definition polymod (values : list Z) : Z := foldl polymod_step 1 values.

Definition code (c : ascii) : Z := Z.of_N (Ascii.N_of_ascii c).

Definition hrp_expand (hrp : string) : list Z :=
  ((λ c, Z.shiftr (code c) 5) <$> String.list_ascii_of_string hrp)
  ++ [0] ++ ((λ c, Z.land (code c) 31) <$> String.list_ascii_of_string hrp).

Definition create_checksum (hrp : string) (data : list Z) : list Z :=
  let pm := Z.lxor (polymod (hrp_expand hrp ++ data ++ [0; 0; 0; 0; 0; 0])) 1 in
  (λ i, Z.land (Z.shiftr pm (5 * (5 - i))) 31) <$> [0; 1; 2; 3; 4; 5].

Definition charset_at (d : Z) : ascii :=
  default "q"%char (String.list_ascii_of_string CHARSET !! Z.to_nat d).

Fixpoint index_of (c : ascii) (l : list ascii) : option Z :=
  match l with
  | [] => None
  | x :: rest => if decide (x = c) then Some 0 else Z.succ <$> index_of c rest
  end.

Definition bech32_encode (hrp : string) (data : list Z) : string :=
  hrp +:+ "1"
  +:+ String.string_of_list_ascii (charset_at <$> (data ++ create_checksum hrp data)).

(** Bits of a number, most significant first. *)
Definition bits_of (width : nat) (v : Z) : list bool :=
  (λ i, Z.testbit v (Z.of_nat (width - 1 - i))) <$> seq 0 width.

Definition of_bits (bs : list bool) : Z :=
  foldl (λ acc (b : bool), 2 * acc + (if b then 1 else 0)) 0 bs.

Fixpoint chunks (fuel width : nat) (bs : list bool) : list (list bool) :=
  match fuel with
  | O => []
  | S fuel' =>
      match bs with
      | [] => []
      | _ => take width bs :: chunks fuel' width (drop width bs)
      end
  end.

(** 8-bit to 5-bit groups, the last group padded with zero bits. *)
Definition toWords (bytes : list Z) : list Z :=
  let bs := bytes ≫= bits_of 8 in
  (λ g, of_bits (g ++ replicate (5 - length g) false))
    <$> chunks (length bs) 5 bs.

(** 5-bit to 8-bit groups; leftover bits must be fewer than five and zero. *)
Definition fromWords (words : list Z) : option (list Z) :=
  let bs := words ≫= bits_of 5 in
  let n := (length bs / 8)%nat in
  let rest := drop (8 * n) bs in
  if bool_decide (length rest < 5)%nat && forallb negb rest
  then Some (of_bits <$> chunks n 8 (take (8 * n) bs))
  else None.

(** The prefix before the last ["1"] and the characters after it. *)
Fixpoint split_last_1 (s : list ascii) : option (list ascii * list ascii) :=
  match s with
  | [] => None
  | c :: rest =>
      match split_last_1 rest with
      | Some (h, d) => Some (c :: h, d)
      | None => if decide (c = "1"%char) then Some ([], rest) else None
      end
  end.

Definition bech32_decode (s : string) : option (string * list Z) :=
  '(h, d) ← split_last_1 (String.list_ascii_of_string s);
  data ← mapM (λ c, index_of c (String.list_ascii_of_string CHARSET)) d;
  let hrp := String.string_of_list_ascii h in
  if bool_decide (h ≠ []) && bool_decide (6 ≤ length data)%nat
     && bool_decide (polymod (hrp_expand hrp ++ data) = 1)
  then Some (hrp, take (length data - 6) data)
  else None.

Definition bytesToHex (bytes : list Z) : string :=
  String.concat "" ((λ b, padStart2 (byte_toString16 b)) <$> bytes).

Definition hex_value (c : ascii) : option Z :=
  let n := code c in
  if bool_decide (48 ≤ n ≤ 57) then Some (n - 48)
  else if bool_decide (97 ≤ n ≤ 102) then Some (n - 87)
  else if bool_decide (65 ≤ n ≤ 70) then Some (n - 55)
  else None.

Fixpoint hexToBytes_go (cs : list ascii) : option (list Z) :=
  match cs with
  | [] => Some []
  | hi :: lo :: rest =>
      h ← hex_value hi; l ← hex_value lo; bs ← hexToBytes_go rest;
      Some (16 * h + l :: bs)
  | _ => None
  end.

Definition hexToBytes (hex : string) : option (list Z) :=
  hexToBytes_go (String.list_ascii_of_string hex).

Definition npubEncode (hex : string) : Res string :=
  match hexToBytes hex with
  | Some bytes => Ok (bech32_encode "npub" (toWords bytes))
  | None => Throw "invalid hex"
  end.

Definition decode (s : string) : Res Decoded :=
  match bech32_decode s with
  | Some (prefix, words) =>
      match fromWords words with
      | Some bytes =>
          if bool_decide (prefix = "npub" ∨ prefix = "note") then
            Ok {| d_type := prefix; d_data := DataString (bytesToHex bytes) |}
          else if bool_decide (prefix = "nsec") then
            Ok {| d_type := prefix; d_data := DataBytes bytes |}
          else Throw ("unknown prefix " +:+ prefix)
      | None => Throw "invalid padding"
      end
  | None => Throw "invalid bech32"
  end.

End Nip19.

(** ** Notions used by the statements *)

(** [key] is among the [n] newest keys of the ledger. *)
Definition recent (n : nat) (key : string) (seen : list string) : Prop :=
  key ∈ take n (reverse seen).

(** The rumor identifier, if there is one ([rumor.id] is truthy). *)
Definition rumor_identifier (rumor : Rumor) : option string :=
  match r_id rumor with
  | Some i => if bool_decide (i ≠ "") then Some i else None
  | None => None
  end.

(** Two rumors count as the same message: they have the same identifier, or
    both have none and agree on the sender, the timestamp and the first 32
    characters of the content. *)
Definition same_rumor (r1 r2 : Rumor) : Prop :=
  match rumor_identifier r1, rumor_identifier r2 with
  | Some i, Some j => i = j
  | None, None =>
      r_pubkey r1 = r_pubkey r2
      ∧ r_created_at r1 = r_created_at r2
      ∧ from_option (String.substring 0 32) "undefined" (r_content r1)
        = from_option (String.substring 0 32) "undefined" (r_content r2)
  | _, _ => False
  end.

(** How many keys an input can add to the ledger at most. *)
Definition cost (i : Input) : nat :=
  match i with
  | Deliver _ => 2
  | Foreign _ => 1
  | Settle _ _ | MkdirDone _ _ | WriteFileDone _ _ => 0
  end.

Definition total_cost (inputs : list Input) : nat := sum_list (cost <$> inputs).

(** The identifiers of the events whose callback completed, in that order,
    when [inputs] are fed to [b]. *)
Fixpoint processed (env : Env) (b : Bus) (inputs : list Input) : list string :=
  match inputs with
  | [] => []
  | i :: rest =>
      match i with
      | Settle n true =>
          match inflight b !! n with
          | Some (event, _) => [ev_id event]
          | None => []
          end
      | _ => []
      end ++ processed env (step env b i).1 rest
  end.

(** ** The older bus

    The variant of [nip17-bus.ts] with debounced persistence keeps its own
    sets [seen] and [inflight] of event identifiers, which are never
    trimmed, knows no rumor key and no watermark of rumors, drops rumors
    that are older than three days, and writes the state five seconds after
    the last processed event. *)
Module LegacyBus.

(** The argument object of a [writeNostrBusState] call of the older bus:
    there is no [lastRumorAt]. *)
Record WriteArg := {
  w_lastProcessedAt : Z;
  w_gatewayStartedAt : Z;
  w_recentEventIds : nat;
}.

(** One older bus.  [pendingWrite] is [None] while the variable is
    undefined, [Some true] while it holds a timer that is armed, and
    [Some false] once that timer has fired or been cleared (the variable
    keeps the timer object).  A write in flight carries the context its
    [catch] reports with. *)
Record Bus := {
  seen : list string;
  inflight : list string;
  lastProcessedAt : Z;
  heap : list (list string);
  recentEventIds : nat;
  pendingWrite : option bool;
  suspended : list (Event * Rumor);
  writes : list (WriteArg * WriteStage * string);
  file : option NostrBusState;
}.

Definition set_seen (v : list string) (b : Bus) : Bus :=
  {| seen := v; inflight := inflight b; lastProcessedAt := lastProcessedAt b;
     heap := heap b; recentEventIds := recentEventIds b;
     pendingWrite := pendingWrite b; suspended := suspended b;
     writes := writes b; file := file b |}.

Definition set_inflight (v : list string) (b : Bus) : Bus :=
  {| seen := seen b; inflight := v; lastProcessedAt := lastProcessedAt b;
     heap := heap b; recentEventIds := recentEventIds b;
     pendingWrite := pendingWrite b; suspended := suspended b;
     writes := writes b; file := file b |}.

Definition set_lastProcessedAt (v : Z) (b : Bus) : Bus :=
  {| seen := seen b; inflight := inflight b; lastProcessedAt := v;
     heap := heap b; recentEventIds := recentEventIds b;
     pendingWrite := pendingWrite b; suspended := suspended b;
     writes := writes b; file := file b |}.

Definition set_heap (v : list (list string)) (b : Bus) : Bus :=
  {| seen := seen b; inflight := inflight b;
     lastProcessedAt := lastProcessedAt b;
     heap := v; recentEventIds := recentEventIds b;
     pendingWrite := pendingWrite b; suspended := suspended b;
     writes := writes b; file := file b |}.

Definition set_recentEventIds (v : nat) (b : Bus) : Bus :=
  {| seen := seen b; inflight := inflight b;
     lastProcessedAt := lastProcessedAt b;
     heap := heap b; recentEventIds := v;
     pendingWrite := pendingWrite b; suspended := suspended b;
     writes := writes b; file := file b |}.

Definition set_pendingWrite (v : option bool) (b : Bus) : Bus :=
  {| seen := seen b; inflight := inflight b;
     lastProcessedAt := lastProcessedAt b;
     heap := heap b; recentEventIds := recentEventIds b;
     pendingWrite := v; suspended := suspended b;
     writes := writes b; file := file b |}.

Definition set_suspended (v : list (Event * Rumor)) (b : Bus) : Bus :=
  {| seen := seen b; inflight := inflight b;
     lastProcessedAt := lastProcessedAt b;
     heap := heap b; recentEventIds := recentEventIds b;
     pendingWrite := pendingWrite b; suspended := v;
     writes := writes b; file := file b |}.

Definition set_writes (v : list (WriteArg * WriteStage * string)) (b : Bus)
  : Bus :=
  {| seen := seen b; inflight := inflight b;
     lastProcessedAt := lastProcessedAt b;
     heap := heap b; recentEventIds := recentEventIds b;
     pendingWrite := pendingWrite b; suspended := suspended b;
     writes := v; file := file b |}.

Definition set_file (v : option NostrBusState) (b : Bus) : Bus :=
  {| seen := seen b; inflight := inflight b;
     lastProcessedAt := lastProcessedAt b;
     heap := heap b; recentEventIds := recentEventIds b;
     pendingWrite := pendingWrite b; suspended := suspended b;
     writes := writes b; file := v |}.

Section bus.
Context (env : Env).

(** [writeNostrBusState({accountId, lastProcessedAt, gatewayStartedAt,
    recentEventIds})], which suspends at [await mkdir]. *)
Definition start_write (context : string) (b : Bus) : Bus :=
  set_writes
    (writes b ++
     [({| w_lastProcessedAt := lastProcessedAt b;
          w_gatewayStartedAt := gatewayStartedAt env;
          w_recentEventIds := recentEventIds b |}, AwaitMkdir, context)]) b.

(** [scheduleStatePersist(eventCreatedAt, eventId)]: the timer that was
    pending is cleared and a new one is armed. *)
Definition scheduleStatePersist (eventCreatedAt : Z) (eventId : string)
    (b : Bus) : Bus :=
  let b1 := set_lastProcessedAt (Z.max (lastProcessedAt b) eventCreatedAt) b in
  let pushed := deref (heap b1) (recentEventIds b1) ++ [eventId] in
  let b2 := set_heap (<[recentEventIds b1 := pushed]> (heap b1)) b1 in
  let b3 :=
    if bool_decide (MAX_PERSISTED_EVENT_IDS < Z.of_nat (length pushed)) then
      set_recentEventIds (length (heap b2))
        (set_heap (heap b2 ++ [slice_last MAX_PERSISTED_EVENT_IDS pushed]) b2)
    else b2 in
  set_pendingWrite (Some true) b3.

(** [Math.floor(Date.now() / 1000) - STARTUP_LOOKBACK_SEC * 1.5], where
    [now] is [Math.floor(Date.now() / 1000)]: the product is the integer
    259200. *)
Definition staleThreshold (now : Z) : Z := now - (STARTUP_LOOKBACK_SEC * 3) `div` 2.

(** The [finally] block of [handleEvent]. *)
Definition finally (event : Event) (b : Bus) : Bus :=
  set_inflight (Set_delete (ev_id event) (inflight b)) b.

(** [handleEvent(event)] at time [now], up to its first suspension.  Every
    [return] is inside the [try], so the [finally] block runs on it, also
    on the first one. *)
Definition handleEvent (event : Event) (now : Z) (b : Bus)
  : Bus * list Effect :=
  if Set_has (ev_id event) (seen b) || Set_has (ev_id event) (inflight b)
  then (finally event b, [])
  else
    let b1 := set_inflight (Set_add (ev_id event) (inflight b)) b in
    if bool_decide (ev_kind event ≠ 1059) then (finally event b1, [])
    else
      match unwrapEvent env event (sk env) with
      | None =>
          (finally event b1,
           [CallOnError None ("unwrap gift wrap " +:+ ev_id event)])
      | Some rumor =>
          if bool_decide (r_kind rumor ≠ 14) then (finally event b1, [])
          else if bool_decide (r_pubkey rumor = pk env)
          then (finally event b1, [])
          else if js_lt (r_created_at rumor) (Some (staleThreshold now))
          then (finally event b1, [])
          else
            (set_suspended (suspended b1 ++ [(event, rumor)])
               (set_seen (Set_add (ev_id event) (seen b1)) b1),
             [CallOnMessage (r_pubkey rumor) (r_content rumor)])
      end.

(** The rest of [handleEvent] once the promise of [onMessage] settles. *)
Definition handleEvent_resume (event : Event) (ok : bool) (b : Bus)
  : Bus * list Effect :=
  if ok then
    (finally event
       (scheduleStatePersist (ev_created_at event) (ev_id event) b), [])
  else (finally event b, [CallOnError None ("event " +:+ ev_id event)]).

Definition writeNostrBusState_stringify (h : list (list string))
    (arg : WriteArg) : NostrBusState :=
  {| s_lastProcessedAt := w_lastProcessedAt arg;
     s_gatewayStartedAt := w_gatewayStartedAt arg;
     s_recentEventIds := deref h (w_recentEventIds arg);
     s_lastRumorAt := None |}.

(** What can happen to the older bus: a delivery at a time, the settling of
    a callback, the timer of the pending write, the two steps of a write. *)
Inductive Input :=
| Deliver (event : Event) (now : Z)
| Settle (n : nat) (ok : bool)
| TimerFire
| MkdirDone (j : nat) (ok : bool)
| WriteFileDone (j : nat) (ok : bool).

Definition step (b : Bus) (i : Input) : Bus * list Effect :=
  match i with
  | Deliver event now => handleEvent event now b
  | Settle n ok =>
      match suspended b !! n with
      | Some (event, rumor) =>
          handleEvent_resume event ok
            (set_suspended (delete n (suspended b)) b)
      | None => (b, [])
      end
  | TimerFire =>
      match pendingWrite b with
      | Some true =>
          (start_write "persist state" (set_pendingWrite (Some false) b), [])
      | _ => (b, [])
      end
  | MkdirDone j ok =>
      match writes b !! j with
      | Some (arg, AwaitMkdir, context) =>
          if ok then
            (set_writes
               (<[j := (arg, AwaitWriteFile
                               (writeNostrBusState_stringify (heap b) arg),
                        context)]> (writes b)) b, [])
          else (set_writes (delete j (writes b)) b,
                [CallOnError None context])
      | _ => (b, [])
      end
  | WriteFileDone j ok =>
      match writes b !! j with
      | Some (arg, AwaitWriteFile json, context) =>
          if ok then
            (set_file (Some json) (set_writes (delete j (writes b)) b), [])
          else (set_writes (delete j (writes b)) b,
                [CallOnError None context])
      | _ => (b, [])
      end
  end.

Fixpoint run (b : Bus) (inputs : list Input) : Bus * list Effect :=
  match inputs with
  | [] => (b, [])
  | i :: rest =>
      let '(b1, out1) := step b i in
      let '(b2, out2) := run b1 rest in
      (b2, out1 ++ out2)
  end.

(** [close()]: only if a write was ever scheduled, the timer is cleared and
    the state is written. *)
Definition close (b : Bus) : Bus :=
  match pendingWrite b with
  | Some _ =>
      start_write "persist state on close" (set_pendingWrite (Some false) b)
  | None => b
  end.

Record Started := { since : Z; bus : Bus }.

(** [startNip17Bus] of the older bus, from the state that was read; the
    sets are new with every start. *)
Definition startNip17Bus (state : option NostrBusState) (write_ok : bool)
  : option Started :=
  let baseSince := computeSinceTimestamp state (gatewayStartedAt env) in
  let since := Z.max 0 (baseSince - STARTUP_LOOKBACK_SEC) in
  let ids := from_option s_recentEventIds [] state in
  let first :=
    {| s_lastProcessedAt :=
         from_option s_lastProcessedAt (gatewayStartedAt env) state;
       s_gatewayStartedAt := gatewayStartedAt env;
       s_recentEventIds := ids;
       s_lastRumorAt := None |} in
  if write_ok then
    Some {| since := since;
            bus := {| seen := foldl (λ s id, Set_add id s) [] ids;
                      inflight := [];
                      lastProcessedAt :=
                        from_option s_lastProcessedAt (gatewayStartedAt env)
                                    state;
                      heap := [slice_last MAX_PERSISTED_EVENT_IDS ids];
                      recentEventIds := 0%nat;
                      pendingWrite := None;
                      suspended := [];
                      writes := [];
                      file := Some first |} |}
  else None.

End bus.
End LegacyBus.

(** ** Closing the bus *)

(** [close()] of the handle that [startNip17Bus] returns: [sub.close()] ends
    the deliveries of the pool, and [persistStateNow()] starts a write of
    the state as it is. *)
Definition close (env : Env) (b : Bus) : Bus := persistStateNow env b.

(** The arrays of recent identifiers as a running bus has them: no array is
    longer than the cap and one, the one the bus goes on with is within the
    cap, and so is, up to one, what is about to be written or has been. *)
Definition arrays_ok (b : Bus) : Prop :=
  Forall (λ arr, Z.of_nat (length arr) ≤ MAX_PERSISTED_EVENT_IDS + 1) (heap b)
  ∧ Z.of_nat (length (deref (heap b) (recentEventIds b)))
    ≤ MAX_PERSISTED_EVENT_IDS
  ∧ Forall (λ w, match w.2 with
                 | AwaitWriteFile json =>
                     Z.of_nat (length (s_recentEventIds json))
                     ≤ MAX_PERSISTED_EVENT_IDS + 1
                 | AwaitMkdir => True
                 end) (writes b)
  ∧ ∀ st, file b = Some st →
          Z.of_nat (length (s_recentEventIds st)) ≤ MAX_PERSISTED_EVENT_IDS + 1.

(** ** Two buses in one process *)

(** The ledger is a variable of the module, shared by every bus that the
    process starts: a turn of one bus begins with the ledger as the turn of
    another bus left it. *)
Definition share_ledger (from to : Bus) : Bus :=
  set_globalSeen (globalSeen from) to.

(** ** A concrete bus for the examples

    Keys and identifiers are 64 hexadecimal characters.  The stand-in for the
    decryption reads the rumor off the wrap: an empty [content] cannot be
    unwrapped; otherwise [content] is the rumor identifier, the wrap's author
    the sender and its timestamp the rumor's. *)

Definition ex_pk : string :=
  "b0b0b0b0b0b0b0b0b0b0b0b0b0b0b0b0b0b0b0b0b0b0b0b0b0b0b0b0b0b0b0b0".

Definition ex_alice : string :=
  "a11ce000a11ce000a11ce000a11ce000a11ce000a11ce000a11ce000a11ce000".

Definition ex_unwrapEvent (event : Event) (sk : Uint8Array) : option Rumor :=
  if bool_decide (ev_content event = "") then None
  else Some {| r_id := Some (ev_content event); r_kind := 14;
               r_pubkey := ev_pubkey event;
               r_created_at := Some (ev_created_at event);
               r_content := Some "hello" |}.

Definition ex_env : Env :=
  {| sk := replicate 32 7; pk := ex_pk; gatewayStartedAt := 1700000000;
     unwrapEvent := ex_unwrapEvent |}.

(** The [n]-th identifier: [10^63 + n] in decimal, 64 digits. *)
Definition ex_id (n : N) : string := pretty (10 ^ 63 + n)%N.

(** A gift wrap with identifier [id] that unwraps to the rumor [rumor_id]
    (to nothing if that is empty) from [sender] at time [t]. *)
Definition ex_wrap (id rumor_id sender : string) (t : Z) : Event :=
  {| ev_id := id; ev_kind := 1059; ev_pubkey := sender; ev_created_at := t;
     ev_tags := [["p"; ex_pk]]; ev_content := rumor_id; ev_sig := "" |}.

(** A wrap addressed to somebody else: it cannot be unwrapped. *)
Definition ex_noise (n : nat) : Event :=
  ex_wrap (ex_id (N.of_nat n)) "" ex_alice 1700000000.

Definition ex_flood (count : nat) : list Input :=
  (λ n, Deliver (ex_noise n)) <$> seq 0 count.

(** Two wraps of one rumor from Alice. *)
Definition ex_rumor_id : string := pretty (4 * 10 ^ 63)%N.
Definition ex_e1 : Event :=
  ex_wrap (pretty (2 * 10 ^ 63)%N) ex_rumor_id ex_alice 1700000050.
Definition ex_e2 : Event :=
  ex_wrap (pretty (3 * 10 ^ 63)%N) ex_rumor_id ex_alice 1700000050.

(** A wrap of a rumor the account wrote itself. *)
Definition ex_own : Event :=
  ex_wrap (pretty (5 * 10 ^ 63)%N) (pretty (6 * 10 ^ 63)%N) ex_pk 1700000060.

(** A wrap of a rumor dated before the watermark of [ex_state] below. *)
Definition ex_old : Event :=
  ex_wrap (pretty (7 * 10 ^ 63)%N) (pretty (8 * 10 ^ 63)%N) ex_alice 1690000400.

(** The bus of a first start: no state file, empty ledger. *)
Definition ex_bus0 : Bus :=
  {| globalSeen := []; lastProcessedAt := 1700000000;
     lastRumorAt := Some 0;
     heap := [[]]; recentEventIds := 0%nat; inflight := []; writes := [];
     file := Some {| s_lastProcessedAt := 1700000000;
                     s_gatewayStartedAt := 1700000000;
                     s_recentEventIds := [];
                     s_lastRumorAt := Some 0 |} |}.

(** A state file holding a watermark, and one holding a zero
    [lastProcessedAt]. *)
Definition ex_state : NostrBusState :=
  {| s_lastProcessedAt := 1690000000; s_gatewayStartedAt := 1689000000;
     s_recentEventIds := [ex_id 7]; s_lastRumorAt := Some 1690000500 |}.

Definition ex_state_zero : NostrBusState :=
  {| s_lastProcessedAt := 0; s_gatewayStartedAt := 1689000000;
     s_recentEventIds := []; s_lastRumorAt := Some 0 |}.

(** The bus restarted from [ex_state], with an empty ledger. *)
Definition ex_bus_restarted : Bus :=
  {| globalSeen := ["gw:" +:+ ex_id 7]; lastProcessedAt := 1690000000;
     lastRumorAt := Some 1690000500; heap := [[ex_id 7]]; recentEventIds := 0%nat;
     inflight := []; writes := [];
     file := Some {| s_lastProcessedAt := 1690000000;
                     s_gatewayStartedAt := 1700000000;
                     s_recentEventIds := [ex_id 7];
                     s_lastRumorAt := Some 1690000500 |} |}.

(** A full ledger: 20000 keys. *)
Definition ex_full_ledger : list string :=
  (λ n, "gw:" +:+ ex_id (N.of_nat n)) <$> seq 0 (Z.to_nat 20000).


(** The [n]-th message of Alice: a wrap of its own rumor, dated [n] seconds
    after the first. *)
Definition ex_msg_rumor_id (n : nat) : string :=
  "9" +:+ pretty (10 ^ 62 + N.of_nat n)%N.

Definition ex_msg (n : nat) : Event :=
  ex_wrap (ex_id (N.of_nat n)) (ex_msg_rumor_id n) ex_alice
          (1700000100 + Z.of_nat n).

Definition ex_msg_rumor (n : nat) : Rumor :=
  {| r_id := Some (ex_msg_rumor_id n); r_kind := 14;
     r_pubkey := ex_alice;
     r_created_at := Some (1700000100 + Z.of_nat n);
     r_content := Some "hello" |}.

(** The identifiers of the first [count] messages. *)
Definition ex_msg_ids (count : nat) : list string :=
  (λ n, ex_id (N.of_nat n)) <$> seq 0 count.

(** A message handled with nothing else going on: delivered, the callback
    completes, the state write gets past [mkdir] and [writeFile]. *)
Definition ex_handle (n : nat) : list Input :=
  [Deliver (ex_msg n); Settle 0 true; MkdirDone 0 true; WriteFileDone 0 true].

Definition ex_handle_all (count : nat) : list Input :=
  seq 0 count ≫= ex_handle.

(** Two messages whose callbacks complete before the first state write gets
    past [mkdir]; then that write goes through. *)
Definition ex_overlap (n : nat) : list Input :=
  [Deliver (ex_msg n); Deliver (ex_msg (S n));
   Settle 0 true; Settle 0 true;
   MkdirDone 0 true; WriteFileDone 0 true].


(** The bus after the first [k] messages were handled one after the other. *)
Definition ex_handled (k : nat) (b : Bus) : Prop :=
  inflight b = [] ∧ writes b = []
  ∧ heap b = [ex_msg_ids k] ∧ recentEventIds b = 0%nat
  ∧ (∃ w, lastRumorAt b = Some w ∧ w < 1700000100 + Z.of_nat k)
  ∧ length (globalSeen b) = (2 * k)%nat
  ∧ ∀ key, key ∈ globalSeen b →
      ∃ j, (j < k)%nat
           ∧ (key = "gw:" +:+ ex_id (N.of_nat j)
              ∨ key = rumorId (ex_msg_rumor j)).


(** A public key in its two forms (the example of NIP-19). *)
Definition ex_hex : string :=
  "3bf0c63fcb93463407af97a5e5ee64fa883d107ef9e558472c4eb9aaaefa459d".

Definition ex_npub : string :=
  "npub180cvv07tjdrrgpa0j7j7tmnyl2yr6yr7l8j4s3evf6u64th6gkwsyjh6w6".

(** What [normalizePubkey] makes of [ex_npub]: every hex digit of the key
    with a ["0"] before it. *)
Definition ex_npub_normalized : string :=
  "030b0f000c06030f0c0b09030406030400070a0f09070a050e050e0e06040f0a0808030d0100070e0f090e0505080407020c040e0b090a0a0a0e0f0a0405090d".

(** ** Private keys and validity ([nip17-bus.ts]) *)

(** A value as a caller without types can pass it: a string, or anything
    else. *)
Inductive JsValue :=
| JsString (s : string)
| JsOther.

(** The value of a digit in base 16. *)
Definition digit16 (c : ascii) : option Z :=
  let n := Z.of_N (Ascii.N_of_ascii c) in
  if bool_decide (48 ≤ n ≤ 57) then Some (n - 48)
  else if bool_decide (97 ≤ n ≤ 102) then Some (n - 87)
  else if bool_decide (65 ≤ n ≤ 70) then Some (n - 55)
  else None.

(** The longest run of base-16 digits at the start of [s], as a number;
    [acc] is [None] until a digit has been read. *)
Fixpoint parseInt16_digits (acc : option Z) (s : string) : option Z :=
  match s with
  | String c rest =>
      match digit16 c with
      | Some d => parseInt16_digits (Some (16 * default 0 acc + d)) rest
      | None => acc
      end
  | EmptyString => acc
  end.

(** [parseInt(s, 16)]: leading white space is skipped, then a sign, then
    [0x] or [0X], and the digits that follow are read; [None] is [NaN].  The
    number is exact below [2^53], so for the two-character strings read
    here. *)
Definition parseInt16 (s : string) : option Z :=
  let s1 := trimStart s in
  let '(sign, s2) :=
    match s1 with
    | String "-" rest => (-1, rest)
    | String "+" rest => (1, rest)
    | _ => (1, s1)
    end in
  let s3 :=
    match s2 with
    | String "0" (String "x" rest) => rest
    | String "0" (String "X" rest) => rest
    | _ => s2
    end in
  (λ v, sign * v) <$> parseInt16_digits None s3.

(** What a [Uint8Array] keeps of a number stored into it. *)
Definition ToUint8 (v : option Z) : Z :=
  match v with
  | Some n => n `mod` 256
  | None => 0
  end.

Section private_keys.
(** The library's [nip19.decode] and [getPublicKey]; the latter receives
    whatever [validatePrivateKey] returned. *)
Context (nip19_decode : string → Res Decoded).
Context (getPublicKey : NipData → Res string).

Definition validatePrivateKey (key : string) : Res NipData :=
  let trimmed := trim key in
  if startsWith trimmed "nsec1" then
    Res_bind (nip19_decode trimmed) (λ decoded,
      if bool_decide (d_type decoded ≠ "nsec") then Throw "Invalid nsec key"
      else Ok (d_data decoded))
  else if negb (test_hex64 trimmed) then
    Throw "Private key must be 64 hex chars or nsec format"
  else
    Ok (DataBytes
          ((λ i, ToUint8 (parseInt16 (String.substring (i * 2) 2 trimmed)))
             <$> seq 0 32)).

Definition getPublicKeyFromPrivate (privateKey : string) : Res string :=
  Res_bind (validatePrivateKey privateKey) getPublicKey.

Definition isValidPubkey (input : JsValue) : bool :=
  match input with
  | JsOther => false
  | JsString input =>
      let trimmed := trim input in
      if startsWith trimmed "npub1" then
        match nip19_decode trimmed with
        | Ok _ => true
        | Throw _ => false
        end
      else test_hex64 trimmed
  end.

End private_keys.

(** ** Channel plugin: allow-list entries and targets ([channel.ts]) *)

(** [s.replace(/^nostr:/i, "")]: the pattern is anchored and has no [g]
    flag, so at most the first six characters go.  Without the [u] flag a
    letter of the pattern matches its two ASCII cases only. *)
Definition replace_nostr_prefix (s : string) : string :=
  if bool_decide (toLowerCase (String.substring 0 6 s) = "nostr:")
  then String.substring 6 (String.length s - 6) s
  else s.

(** [try { return f(); } catch { return fallback; }] *)
Definition try_or (r : Res string) (fallback : string) : string :=
  match r with
  | Ok v => v
  | Throw _ => fallback
  end.

Section channel.
Context (nip19_decode : string → Res Decoded).

(** [pairing.normalizeAllowEntry] *)
Definition normalizeAllowEntry (entry : string) : string :=
  try_or (normalizePubkey nip19_decode (replace_nostr_prefix entry)) entry.

(** [security.resolveDmPolicy(...).normalizeEntry] *)
Definition normalizeEntry (raw : string) : string :=
  try_or (normalizePubkey nip19_decode (trim (replace_nostr_prefix raw)))
         (trim raw).

(** [messaging.normalizeTarget] *)
Definition normalizeTarget (target : string) : string :=
  let cleaned := trim (replace_nostr_prefix target) in
  try_or (normalizePubkey nip19_decode cleaned) cleaned.

(** [messaging.targetResolver.looksLikeId] *)
Definition looksLikeId (input : string) : bool :=
  let t := trim input in
  startsWith t "npub1" || test_hex64 t.

(** [config.formatAllowFrom]; [String_] is the conversion [String(e)] of an
    entry, which is a string or a number. *)
Definition formatAllowFrom {Entry : Type} (String_ : Entry → string)
    (allowFrom : list Entry) : list string :=
  filter (λ e, e ≠ "")
    ((λ e, if bool_decide (e = "*") then "*"
           else try_or (normalizePubkey nip19_decode e) e)
       <$> filter (λ e, e ≠ "") ((λ e, trim (String_ e)) <$> allowFrom)).

End channel.

(** ** Channel plugin: the running buses and the outbound adapter
    ([channel.ts], [runtime.ts]) *)

(** What [sendText] and [sendMedia] return. *)
Record SendResult := {
  sr_channel : string;
  sr_to : string;
  sr_messageId : string;
}.

Section outbound.
Context (nip19_decode : string → Res Decoded).
(** [Runtime] is the plugin runtime that [setNip17Runtime] stores, [Handle]
    what [startNip17Bus] returns. *)
Context {Runtime Handle : Type}.
(** [DEFAULT_ACCOUNT_ID] as the plugin SDK exports it. *)
Context (sdk_DEFAULT_ACCOUNT_ID : string).
(** [core.channel.text.convertMarkdownTables(text, tableMode)], with the
    table mode that [core.channel.text.resolveMarkdownTableMode] gives for
    the loaded configuration and the account. *)
Context (convertMarkdownTables : Runtime → string → string → string).
(** How the promise of [bus.sendDm(to, text)] settles. *)
Context (sendDm : Handle → string → string → Completion).

(** The two variables of the modules: [runtime] of [runtime.ts] and
    [activeBuses] of [channel.ts]. *)
Record Plugin := {
  runtime : option Runtime;
  activeBuses : gmap string Handle;
}.

Definition setNip17Runtime (next : Runtime) (p : Plugin) : Plugin :=
  {| runtime := Some next; activeBuses := activeBuses p |}.

Definition getNip17Runtime (p : Plugin) : Res Runtime :=
  match runtime p with
  | Some r => Ok r
  | None => Throw "NIP-17 runtime not initialized"
  end.

(** The calls of [sendDm] made, and the result or the error thrown. *)
Record Sent := {
  dms : list (Handle * string * string);
  outcome : Res SendResult;
}.

(** [`nostr-nip17-${Date.now()}`] *)
Definition messageId (now : Z) : string := "nostr-nip17-" +:+ pretty now.

(** [outbound.sendText({to, text, accountId})] at time [now]. *)
Definition sendText (p : Plugin) (to : string) (text : option string)
    (accountId : option string) (now : Z) : Sent :=
  match getNip17Runtime p with
  | Throw m => {| dms := []; outcome := Throw m |}
  | Ok core =>
      let aid := default sdk_DEFAULT_ACCOUNT_ID accountId in
      match activeBuses p !! aid with
      | None =>
          {| dms := [];
             outcome := Throw ("NIP-17 bus not running for account " +:+ aid) |}
      | Some bus =>
          let message := convertMarkdownTables core aid (default "" text) in
          match normalizePubkey nip19_decode to with
          | Throw m => {| dms := []; outcome := Throw m |}
          | Ok normalizedTo =>
              {| dms := [(bus, normalizedTo, message)];
                 outcome :=
                   match sendDm bus normalizedTo message with
                   | Thrown m => Throw m
                   | Returned =>
                       Ok {| sr_channel := "nostr-nip17";
                             sr_to := normalizedTo;
                             sr_messageId := messageId now |}
                   end |}
          end
      end
  end.

(** [outbound.sendMedia({to, text, accountId})]: the caption only, and only
    if it is not blank. *)
Definition sendMedia (p : Plugin) (to : string) (text : option string)
    (accountId : option string) (now : Z) : Sent :=
  match getNip17Runtime p with
  | Throw m => {| dms := []; outcome := Throw m |}
  | Ok core =>
      let aid := default sdk_DEFAULT_ACCOUNT_ID accountId in
      match activeBuses p !! aid with
      | None =>
          {| dms := [];
             outcome := Throw ("NIP-17 bus not running for account " +:+ aid) |}
      | Some bus =>
          match normalizePubkey nip19_decode to with
          | Throw m => {| dms := []; outcome := Throw m |}
          | Ok normalizedTo =>
              let done :=
                Ok {| sr_channel := "nostr-nip17"; sr_to := normalizedTo;
                      sr_messageId := messageId now |} in
              match text with
              | Some t =>
                  if bool_decide (trim t ≠ "") then
                    {| dms := [(bus, normalizedTo, t)];
                       outcome :=
                         match sendDm bus normalizedTo t with
                         | Thrown m => Throw m
                         | Returned => done
                         end |}
                  else {| dms := []; outcome := done |}
              | None => {| dms := []; outcome := done |}
              end
          end
      end
  end.

(** [gateway.startAccount] for an account, where [started] is what the
    awaited [startNip17Bus] comes to: the bus is entered under the
    identifier of the account. *)
Definition startAccount (accountId : string) (configured : bool)
    (started : Res Handle) (p : Plugin) : Res Plugin :=
  if negb configured then Throw "NIP-17 private key not configured"
  else
    Res_bind (getNip17Runtime p) (λ _,
      Res_bind started (λ bus,
        Ok {| runtime := runtime p;
              activeBuses := <[accountId := bus]> (activeBuses p) |})).

(** [stop()] of what [startAccount] returned: after [bus.close()], the entry
    under the identifier of the account is deleted. *)
Definition stop (accountId : string) (p : Plugin) : Plugin :=
  {| runtime := runtime p; activeBuses := delete accountId (activeBuses p) |}.

End outbound.

(** ** Accounts ([types.ts]) *)

Inductive DmPolicy :=
| PolicyPairing
| PolicyAllowlist
| PolicyOpen
| PolicyDisabled.

(** [Nip17AccountConfig]: every key is optional.  [Entry] is the type of an
    [allowFrom] entry, a string or a number. *)
Record Nip17AccountConfig (Entry : Type) := {
  c_name : option string;
  c_enabled : option bool;
  c_privateKey : option string;
  c_relays : option (list string);
  c_dmPolicy : option DmPolicy;
  c_allowFrom : option (list Entry);
}.
Arguments c_name {Entry} _.
Arguments c_enabled {Entry} _.
Arguments c_privateKey {Entry} _.
Arguments c_relays {Entry} _.
Arguments c_dmPolicy {Entry} _.
Arguments c_allowFrom {Entry} _.

(** [Nip17Config]: the keys of an account at the top level, and [accounts],
    whose entries are listed in the order of [Object.keys]. *)
Record Nip17Config (Entry : Type) := {
  cfg_base : Nip17AccountConfig Entry;
  cfg_accounts : option (list (string * Nip17AccountConfig Entry));
}.
Arguments cfg_base {Entry} _.
Arguments cfg_accounts {Entry} _.

(** Of [OpenClawConfig] the plugin reads [channels?.["nostr-nip17"]] only. *)
Record OpenClawConfig (Entry : Type) := {
  channels_nostr_nip17 : option (Nip17Config Entry);
}.
Arguments channels_nostr_nip17 {Entry} _.

Record ResolvedNip17Account (Entry : Type) := {
  ra_accountId : string;
  ra_name : option string;
  ra_enabled : bool;
  ra_configured : bool;
  ra_privateKey : string;
  ra_publicKey : string;
  ra_relays : list string;
  ra_config : Nip17AccountConfig Entry;
}.
Arguments ra_accountId {Entry} _.
Arguments ra_name {Entry} _.
Arguments ra_enabled {Entry} _.
Arguments ra_configured {Entry} _.
Arguments ra_privateKey {Entry} _.
Arguments ra_publicKey {Entry} _.
Arguments ra_relays {Entry} _.
Arguments ra_config {Entry} _.

Definition DEFAULT_ACCOUNT_ID : string := "default".

Definition DEFAULT_RELAYS : list string := ["wss://relay.damus.io"; "wss://nos.lol"].

(** Truthiness of an optional string: present and not empty. *)
Definition truthy (s : option string) : bool :=
  match s with
  | Some s => bool_decide (s ≠ "")
  | None => false
  end.

(** [accounts?.[accountId]]: the entry under that key, if any.  (A key that
    the object inherits, such as ["constructor"], yields a value without
    keys of its own, which merges like no entry at all.) *)
Fixpoint account_entry {A : Type} (accounts : list (string * A))
    (accountId : string) : option A :=
  match accounts with
  | [] => None
  | (k, v) :: rest =>
      if bool_decide (k = accountId) then Some v
      else account_entry rest accountId
  end.

(** [a ?? b] on two optional values. *)
Definition nullish_or {A : Type} (a b : option A) : option A :=
  match a with
  | Some _ => a
  | None => b
  end.

Section accounts.
Context {Entry : Type}.
(** [ids.sort((a, b) => a.localeCompare(b))]: the order is the locale's. *)
Context (sort_localeCompare : list string → list string).
(** The library's [nip19.decode] and [getPublicKey]. *)
Context (nip19_decode : string → Res Decoded).
Context (getPublicKey : NipData → Res string).

Definition getNip17ChannelConfig (cfg : OpenClawConfig Entry)
  : option (Nip17Config Entry) :=
  channels_nostr_nip17 cfg.

Definition listNip17AccountIds (cfg : OpenClawConfig Entry) : list string :=
  match getNip17ChannelConfig cfg with
  | None => []
  | Some nip17Cfg =>
      let single :=
        if truthy (c_privateKey (cfg_base nip17Cfg))
        then [DEFAULT_ACCOUNT_ID] else [] in
      match cfg_accounts nip17Cfg with
      | Some accounts =>
          let ids := filter (λ k, k ≠ "") accounts.*1 in
          if bool_decide (0 < length ids)%nat then
            if truthy (c_privateKey (cfg_base nip17Cfg))
               && negb (bool_decide (DEFAULT_ACCOUNT_ID ∈ ids))
            then sort_localeCompare (DEFAULT_ACCOUNT_ID :: ids)
            else sort_localeCompare ids
          else single
      | None => single
      end
  end.

Definition resolveDefaultNip17AccountId (cfg : OpenClawConfig Entry) : string :=
  let ids := listNip17AccountIds cfg in
  if bool_decide (DEFAULT_ACCOUNT_ID ∈ ids) then DEFAULT_ACCOUNT_ID
  else default DEFAULT_ACCOUNT_ID (head ids).

(** [mergeAccountConfig]: the spread takes a key from the account when the
    account has it, and [relays] and [allowFrom] are taken with [??]. *)
Definition mergeAccountConfig (base : Nip17AccountConfig Entry)
    (accountOverride : option (Nip17AccountConfig Entry))
  : Nip17AccountConfig Entry :=
  match accountOverride with
  | None => base
  | Some o =>
      {| c_name := nullish_or (c_name o) (c_name base);
         c_enabled := nullish_or (c_enabled o) (c_enabled base);
         c_privateKey := nullish_or (c_privateKey o) (c_privateKey base);
         c_relays := nullish_or (c_relays o) (c_relays base);
         c_dmPolicy := nullish_or (c_dmPolicy o) (c_dmPolicy base);
         c_allowFrom := nullish_or (c_allowFrom o) (c_allowFrom base) |}
  end.

Definition resolveNip17Account (cfg : OpenClawConfig Entry)
    (accountId : option string) : ResolvedNip17Account Entry :=
  let accountId := default DEFAULT_ACCOUNT_ID accountId in
  let nip17Cfg := getNip17ChannelConfig cfg in
  let entry (id : string) : option (Nip17AccountConfig Entry) :=
    match nip17Cfg with
    | Some c =>
        match cfg_accounts c with
        | Some accounts => account_entry accounts id
        | None => None
        end
    | None => None
    end in
  let accountOverride :=
    if bool_decide (accountId ≠ DEFAULT_ACCOUNT_ID)
       || bool_decide (is_Some (entry DEFAULT_ACCOUNT_ID))
    then entry accountId else None in
  let baseConfig :=
    match nip17Cfg with
    | Some c => cfg_base c
    | None =>
        {| c_name := None; c_enabled := None; c_privateKey := None;
           c_relays := None; c_dmPolicy := None; c_allowFrom := None |}
    end in
  let merged := mergeAccountConfig baseConfig accountOverride in
  let enabled := bool_decide (c_enabled merged ≠ Some false) in
  let privateKey := default "" (c_privateKey merged) in
  let configured := bool_decide (trim privateKey ≠ "") in
  let publicKey :=
    if configured then
      try_or (getPublicKeyFromPrivate nip19_decode getPublicKey privateKey) ""
    else "" in
  {| ra_accountId := accountId;
     ra_name :=
       match c_name merged with
       | Some n => if bool_decide (trim n ≠ "") then Some (trim n) else None
       | None => None
       end;
     ra_enabled := enabled;
     ra_configured := configured;
     ra_privateKey := privateKey;
     ra_publicKey := publicKey;
     ra_relays := default DEFAULT_RELAYS (c_relays merged);
     ra_config := merged |}.

End accounts.

(** *** The accounts of the single-account plugin

    The older [types.ts] knows one account only.  It reads the same keys at
    the top level of the channel configuration and never looks at
    [accounts]. *)
Module SingleAccount.
Section accounts.
Context {Entry : Type}.
Context (nip19_decode : string → Res Decoded).
Context (getPublicKey : NipData → Res string).

Definition listNip17AccountIds (cfg : OpenClawConfig Entry) : list string :=
  match channels_nostr_nip17 cfg with
  | Some nip17Cfg =>
      if truthy (c_privateKey (cfg_base nip17Cfg))
      then [DEFAULT_ACCOUNT_ID] else []
  | None => []
  end.

Definition resolveDefaultNip17AccountId (cfg : OpenClawConfig Entry) : string :=
  let ids := listNip17AccountIds cfg in
  if bool_decide (DEFAULT_ACCOUNT_ID ∈ ids) then DEFAULT_ACCOUNT_ID
  else default DEFAULT_ACCOUNT_ID (head ids).

Definition resolveNip17Account (cfg : OpenClawConfig Entry)
    (accountId : option string) : ResolvedNip17Account Entry :=
  let accountId := default DEFAULT_ACCOUNT_ID accountId in
  let nip17Cfg := channels_nostr_nip17 cfg in
  let enabled :=
    bool_decide (nip17Cfg ≫= (λ c, c_enabled (cfg_base c)) ≠ Some false) in
  let privateKey :=
    default "" (nip17Cfg ≫= (λ c, c_privateKey (cfg_base c))) in
  let configured := bool_decide (trim privateKey ≠ "") in
  let publicKey :=
    if configured then
      try_or (getPublicKeyFromPrivate nip19_decode getPublicKey privateKey) ""
    else "" in
  {| ra_accountId := accountId;
     ra_name :=
       match nip17Cfg ≫= (λ c, c_name (cfg_base c)) with
       | Some n => if bool_decide (trim n ≠ "") then Some (trim n) else None
       | None => None
       end;
     ra_enabled := enabled;
     ra_configured := configured;
     ra_privateKey := privateKey;
     ra_publicKey := publicKey;
     ra_relays :=
       default DEFAULT_RELAYS (nip17Cfg ≫= (λ c, c_relays (cfg_base c)));
     ra_config :=
       {| c_name := nip17Cfg ≫= (λ c, c_name (cfg_base c));
          c_enabled := nip17Cfg ≫= (λ c, c_enabled (cfg_base c));
          c_privateKey := nip17Cfg ≫= (λ c, c_privateKey (cfg_base c));
          c_relays := nip17Cfg ≫= (λ c, c_relays (cfg_base c));
          c_dmPolicy := nip17Cfg ≫= (λ c, c_dmPolicy (cfg_base c));
          c_allowFrom := nip17Cfg ≫= (λ c, c_allowFrom (cfg_base c)) |} |}.

End accounts.
End SingleAccount.

(** ** More examples *)

(** Keys as somebody may type them: upper case, white space around.  The
    private key is the hex form of the example [nsec] of NIP-19, the public
    key is [ex_hex]. *)
Definition ex_private_key_typed : string :=
  "  67DEA2ED018072D675F5415ECFAED7D2597555E202D85B3D65EA4E58D2D92FFA ".

Definition ex_hex_typed : string :=
  " 3BF0C63FCB93463407AF97A5E5EE64FA883D107EF9E558472C4EB9AAAEFA459D  ".

(** A configuration with two accounts and no key at the top level, and one
    with a key at the top level as well.  The account [work] has a key and a
    policy of its own and takes its relays from the top level. *)
Definition ex_account_work : Nip17AccountConfig string :=
  {| c_name := Some " Work "; c_enabled := None;
     c_privateKey := Some ex_private_key_typed; c_relays := None;
     c_dmPolicy := Some PolicyAllowlist; c_allowFrom := None |}.

Definition ex_account_home : Nip17AccountConfig string :=
  {| c_name := None; c_enabled := Some false; c_privateKey := None;
     c_relays := Some ["wss://relay.example"]; c_dmPolicy := None;
     c_allowFrom := Some ["*"] |}.

Definition ex_base (privateKey : option string) : Nip17AccountConfig string :=
  {| c_name := Some "Main"; c_enabled := None; c_privateKey := privateKey;
     c_relays := Some ["wss://nos.lol"]; c_dmPolicy := Some PolicyPairing;
     c_allowFrom := None |}.

Definition ex_cfg (privateKey : option string) : OpenClawConfig string :=
  {| channels_nostr_nip17 :=
       Some {| cfg_base := ex_base privateKey;
               cfg_accounts := Some [("work", ex_account_work);
                                     ("home", ex_account_home)] |} |}.

(** A sort for the examples: by code units. *)
Definition ex_sort : list string → list string := merge_sort String.le.

(** A second account in the same process, Alice's, and the wrap for Alice of
    the rumor whose copy for the sender is [ex_own]. *)
Definition ex_env_alice : Env :=
  {| sk := replicate 32 9; pk := ex_alice; gatewayStartedAt := 1700000000;
     unwrapEvent := ex_unwrapEvent |}.

Definition ex_for_alice : Event :=
  {| ev_id := pretty (9 * 10 ^ 63)%N; ev_kind := 1059; ev_pubkey := ex_pk;
     ev_created_at := 1700000060; ev_tags := [["p"; ex_alice]];
     ev_content := pretty (6 * 10 ^ 63)%N; ev_sig := "" |}.

(** A configuration of the single-account plugin. *)
Definition ex_cfg_single : OpenClawConfig string :=
  {| channels_nostr_nip17 :=
       Some {| cfg_base := ex_base (Some ex_private_key_typed);
               cfg_accounts := None |} |}.

(** The older bus of a first start, and the time of the examples. *)
Definition ex_legacy_bus0 : LegacyBus.Bus :=
  {| LegacyBus.seen := []; LegacyBus.inflight := [];
     LegacyBus.lastProcessedAt := 1700000000;
     LegacyBus.heap := [[]]; LegacyBus.recentEventIds := 0%nat;
     LegacyBus.pendingWrite := None; LegacyBus.suspended := [];
     LegacyBus.writes := [];
     LegacyBus.file := Some {| s_lastProcessedAt := 1700000000;
                               s_gatewayStartedAt := 1700000000;
                               s_recentEventIds := [];
                               s_lastRumorAt := None |} |}.

Definition ex_now : Z := 1700000100.

(** A plugin whose runtime is set and in which no bus is running; the
    runtime is a token and a bus is known by a number. *)
Definition ex_plugin : @Plugin unit nat :=
  {| runtime := Some tt; activeBuses := ∅ |}.

(** A decryption that yields a rumor without [created_at] for a wrap that
    is stamped [0], and the rumor of [ex_unwrapEvent] otherwise. *)
Definition ex_unwrapEvent_undated (event : Event) (sk : Uint8Array)
  : option Rumor :=
  match ex_unwrapEvent event sk with
  | Some r =>
      if bool_decide (ev_created_at event = 0) then
        Some {| r_id := r_id r; r_kind := r_kind r; r_pubkey := r_pubkey r;
                r_created_at := None; r_content := r_content r |}
      else Some r
  | None => None
  end.

Definition ex_env_undated : Env :=
  {| sk := replicate 32 7; pk := ex_pk; gatewayStartedAt := 1700000000;
     unwrapEvent := ex_unwrapEvent_undated |}.

(** A wrap from Alice whose rumor has no [created_at]. *)
Definition ex_undated : Event :=
  ex_wrap (pretty (11 * 10 ^ 62)%N) (pretty (12 * 10 ^ 62)%N) ex_alice 0.

(** A stand-in for NIP-59 in which a rumor is its text, a seal the rumor
    with its recipient, and a wrap the seal; and a pool every relay of which
    refuses what is published, after the array of promises was returned. *)
Definition ex_getPublicKey (sk : Uint8Array) : Res string := Ok ex_pk.

Definition ex_createRumor (chatEvent : ChatEvent) (sk : Uint8Array)
  : Res string := Ok (ce_content chatEvent).

Definition ex_createSeal (rumor : string) (sk : Uint8Array) (to : string)
  : Res (string * string) := Ok (to, rumor).

Definition ex_createWrap (seal : string * string) (to : string)
  : Res (string * string) := Ok seal.

Definition ex_publish_refused (n : nat) (relay : string)
    (wrap : string * string) : Res (list Settled) :=
  Ok [Rejected ("refused by " +:+ relay)].
(** ** Ledger lemmas *)

(** Case analysis on the condition of a conditional in the goal. *)
Ltac case_if :=
  match goal with
  | |- context [if ?c then _ else _] => destruct c eqn:?
  end.

Lemma floor_GLOBAL_SEEN_MAX_0_8_eq : floor_GLOBAL_SEEN_MAX_0_8 = 16000.
Proof. reflexivity. Qed.

Lemma Set_has_true key s : Set_has key s = true ↔ key ∈ s.
Proof. unfold Set_has. apply bool_decide_eq_true. Qed.

Lemma Set_has_false key s : Set_has key s = false ↔ key ∉ s.
Proof. unfold Set_has. apply bool_decide_eq_false. Qed.

Lemma Set_delete_head id rest :
  NoDup (id :: rest) → Set_delete id (id :: rest) = rest.
Proof.
  intros [Hid _]%NoDup_cons. unfold Set_delete.
  rewrite filter_cons_False by (intros H; by apply H).
  induction rest as [|k rest IH]; [done|].
  apply not_elem_of_cons in Hid as [Hne Hid].
  rewrite filter_cons_True by done. f_equal. by apply IH.
Qed.

Lemma trim_loop_drop toDelete deleted l :
  NoDup l → deleted ≤ toDelete →
  trim_loop toDelete deleted l l = drop (Z.to_nat (toDelete - deleted)) l.
Proof.
  intros Hnd. revert deleted.
  induction l as [|id rest IH]; intros deleted Hle; simpl.
  - by rewrite drop_nil.
  - case_bool_decide as Hstop.
    + replace (toDelete - deleted) with 0 by lia. done.
    + rewrite Set_delete_head by done.
      apply NoDup_cons in Hnd as [_ Hrest].
      rewrite (IH Hrest (deleted + 1)) by lia.
      replace (Z.to_nat (toDelete - deleted))
        with (S (Z.to_nat (toDelete - (deleted + 1)))) by lia.
      done.
Qed.

Lemma globalDedup_seen key seen :
  key ∈ seen → globalDedup key seen = (true, seen).
Proof. intros H. unfold globalDedup. by rewrite (proj2 (Set_has_true _ _) H). Qed.

Lemma globalDedup_fresh key seen :
  key ∉ seen → Z.of_nat (length seen) < GLOBAL_SEEN_MAX →
  globalDedup key seen = (false, seen ++ [key]).
Proof.
  intros H Hlen. unfold globalDedup, Set_add.
  rewrite (proj2 (Set_has_false _ _) H).
  rewrite bool_decide_eq_false_2; [done|].
  rewrite length_app. simpl. lia.
Qed.

Lemma globalDedup_fresh_trim key seen :
  NoDup seen → key ∉ seen → GLOBAL_SEEN_MAX ≤ Z.of_nat (length seen) →
  globalDedup key seen
  = (false, drop (Z.to_nat (Z.of_nat (length seen) + 1 - 16000)) (seen ++ [key])).
Proof.
  intros Hnd H Hlen. unfold globalDedup, Set_add.
  rewrite (proj2 (Set_has_false _ _) H).
  rewrite bool_decide_eq_true_2 by (rewrite length_app; simpl; lia).
  rewrite trim_loop_drop.
  - rewrite floor_GLOBAL_SEEN_MAX_0_8_eq, length_app. simpl.
    do 3 f_equal. lia.
  - apply NoDup_app. split_and!; [done| |apply NoDup_singleton].
    intros k Hk ->%list_elem_of_singleton. done.
  - rewrite floor_GLOBAL_SEEN_MAX_0_8_eq, length_app. simpl.
    unfold GLOBAL_SEEN_MAX in Hlen. lia.
Qed.

Lemma globalDedup_flag key seen :
  (globalDedup key seen).1 = Set_has key seen.
Proof. unfold globalDedup. destruct (Set_has key seen); [done|]. by case_bool_decide. Qed.

Lemma globalDedup_ok key seen :
  ledger_ok seen → ledger_ok (globalDedup key seen).2.
Proof.
  intros [Hnd Hlen].
  destruct (decide (key ∈ seen)) as [Hin|Hin].
  { by rewrite globalDedup_seen. }
  destruct (decide (Z.of_nat (length seen) < GLOBAL_SEEN_MAX)) as [Hlt|Hge].
  - rewrite globalDedup_fresh by done. simpl. split.
    + apply NoDup_app. split_and!; [done| |apply NoDup_singleton].
      intros k Hk ->%list_elem_of_singleton. done.
    + rewrite length_app. simpl. lia.
  - rewrite globalDedup_fresh_trim by (done || lia). simpl. split.
    + eapply sublist_NoDup; [|apply sublist_drop].
      apply NoDup_app. split_and!; [done| |apply NoDup_singleton].
      intros k Hk ->%list_elem_of_singleton. done.
    + rewrite length_drop, length_app. simpl.
      unfold GLOBAL_SEEN_MAX in *. lia.
Qed.

Lemma dedup_all_ok keys seen : ledger_ok seen → ledger_ok (dedup_all keys seen).
Proof.
  revert seen. induction keys as [|k keys IH]; intros seen Hok; simpl; [done|].
  apply IH. by apply globalDedup_ok.
Qed.

Lemma ledger_ok_nil : ledger_ok [].
Proof. split; [apply NoDup_nil_2|]. unfold GLOBAL_SEEN_MAX. simpl. lia. Qed.


(** ** Numbers that may be [NaN] *)

(** A rumor that is newer than the watermark is not stale. *)
Lemma newer_not_stale (mark : option Z) (w t : Z) :
  mark = Some w → w < t →
  js_lt (Some 0) mark && js_le (Some t) mark = false.
Proof.
  intros -> Hlt. unfold js_lt, js_le.
  rewrite (bool_decide_eq_false_2 (t ≤ w)) by lia. apply andb_false_r.
Qed.

(** With [NaN] on either side nothing is stale. *)
Lemma NaN_not_stale (mark t : option Z) :
  mark = None ∨ t = None → js_lt (Some 0) mark && js_le t mark = false.
Proof.
  intros [-> | ->]; [done|]. unfold js_le. apply andb_false_r.
Qed.

Lemma Math_max_Some (a b : option Z) (m : Z) :
  Math_max a b = Some m ↔ ∃ x y, a = Some x ∧ b = Some y ∧ m = Z.max x y.
Proof.
  destruct a as [x|], b as [y|]; unfold Math_max; split;
    try (intros [= <-]; by exists x, y);
    try done; try (by intros (? & ? & ? & ? & ?)).
  intros (x' & y' & [= <-] & [= <-] & ->). done.
Qed.

(** ** Recency lemmas *)

Lemma recent_elem n key seen : recent n key seen → key ∈ seen.
Proof.
  unfold recent. intros H. apply elem_of_reverse.
  by apply (subseteq_take n).
Qed.

Lemma recent_mono n m key seen :
  (n ≤ m)%nat → recent n key seen → recent m key seen.
Proof.
  unfold recent. intros Hle H.
  replace n with (min n m) in H by lia.
  rewrite <-take_take in H. by apply (subseteq_take n).
Qed.

Lemma recent_snoc n key seen : recent (S n) key (seen ++ [key]).
Proof. unfold recent. rewrite reverse_snoc. simpl. apply list_elem_of_here. Qed.

Lemma globalDedup_recent_fresh key seen :
  NoDup seen → key ∉ seen → recent 1 key (globalDedup key seen).2.
Proof.
  intros Hnd Hin.
  destruct (decide (Z.of_nat (length seen) < GLOBAL_SEEN_MAX)) as [Hlt|Hge].
  - rewrite globalDedup_fresh by done. apply recent_snoc.
  - rewrite globalDedup_fresh_trim by (done || lia). simpl.
    unfold recent. rewrite reverse_drop, reverse_snoc, take_take.
    unfold GLOBAL_SEEN_MAX in Hge.
    rewrite Nat.min_l by (rewrite length_app; simpl; lia).
    simpl. apply list_elem_of_here.
Qed.

Lemma globalDedup_recent_keep n k key seen :
  NoDup seen → recent n k seen → Z.of_nat n < 16000 →
  recent (S n) k (globalDedup key seen).2.
Proof.
  intros Hnd Hk Hn.
  destruct (decide (key ∈ seen)) as [Hin|Hin].
  { rewrite globalDedup_seen by done. simpl. eapply recent_mono; [|done]. lia. }
  destruct (decide (Z.of_nat (length seen) < GLOBAL_SEEN_MAX)) as [Hlt|Hge].
  - rewrite globalDedup_fresh by done. simpl.
    unfold recent in *. rewrite reverse_snoc. simpl. by apply list_elem_of_further.
  - rewrite globalDedup_fresh_trim by (done || lia). simpl.
    unfold recent in *. rewrite reverse_drop, reverse_snoc, take_take.
    unfold GLOBAL_SEEN_MAX in Hge.
    rewrite Nat.min_l by (rewrite length_app; simpl; lia).
    simpl. by apply list_elem_of_further.
Qed.

Lemma globalDedup_NoDup key seen :
  NoDup seen → NoDup (globalDedup key seen).2.
Proof.
  intros Hnd. unfold globalDedup, Set_add.
  destruct (Set_has key seen) eqn:Hhas; [done|].
  apply Set_has_false in Hhas.
  assert (NoDup (seen ++ [key])) as Hnd'.
  { apply NoDup_app. split_and!; [done| |apply NoDup_singleton].
    intros k Hk ->%list_elem_of_singleton. done. }
  case_bool_decide as Hbig; simpl; [|done].
  rewrite trim_loop_drop;
    [|done|rewrite floor_GLOBAL_SEEN_MAX_0_8_eq; unfold GLOBAL_SEEN_MAX in Hbig; lia].
  eapply sublist_NoDup; [|apply sublist_drop]. done.
Qed.

Lemma dedup_all_app keys1 keys2 seen :
  dedup_all (keys1 ++ keys2) seen = dedup_all keys2 (dedup_all keys1 seen).
Proof. unfold dedup_all. apply foldl_app. Qed.

Lemma dedup_all_NoDup keys seen : NoDup seen → NoDup (dedup_all keys seen).
Proof.
  revert seen. induction keys as [|k keys IH]; intros seen Hnd; simpl; [done|].
  apply IH. by apply globalDedup_NoDup.
Qed.

Lemma dedup_all_recent_keep keys n k seen :
  NoDup seen → recent n k seen →
  Z.of_nat n + Z.of_nat (length keys) ≤ 16000 →
  recent (n + length keys) k (dedup_all keys seen).
Proof.
  revert n seen. induction keys as [|key keys IH]; intros n seen Hnd Hk Hn; simpl.
  - by rewrite Nat.add_0_r.
  - simpl in Hn. replace (n + S (length keys))%nat with (S n + length keys)%nat by lia.
    apply IH; [by apply globalDedup_NoDup| |lia].
    apply globalDedup_recent_keep; [done..|lia].
Qed.

Lemma globalDedup_subseteq key seen k :
  k ∈ (globalDedup key seen).2 → k = key ∨ k ∈ seen.
Proof.
  unfold globalDedup, Set_add. destruct (Set_has key seen); [by right|].
  assert (∀ n d (p l : list string), k ∈ trim_loop n d p l → k ∈ l) as Htrim.
  { intros n d p. revert d. induction p as [|id rest IH]; intros d l; simpl; [done|].
    case_bool_decide; [done|]. intros Hk%IH.
    unfold Set_delete in Hk. by apply list_elem_of_filter in Hk as [_ ?]. }
  case_bool_decide; simpl.
  - intros Hk%Htrim.
    apply elem_of_app in Hk as [?|Hk%list_elem_of_singleton]; subst; auto.
  - intros Hk.
    apply elem_of_app in Hk as [?|Hk%list_elem_of_singleton]; subst; auto.
Qed.

(** ** The handler and the ledger *)

Lemma rumorId_prefix rumor : ∃ rest, rumorId rumor = "rumor:" +:+ rest.
Proof.
  unfold rumorId. destruct (r_id rumor) as [i|]; [case_bool_decide|]; eauto.
Qed.

Lemma same_rumor_rumorId r1 r2 : same_rumor r1 r2 → rumorId r1 = rumorId r2.
Proof.
  unfold same_rumor, rumor_identifier, rumorId.
  destruct (r_id r1) as [i|], (r_id r2) as [j|];
    repeat case_bool_decide; try done.
  - by intros ->.
  - by intros (-> & -> & ->).
  - by intros (-> & -> & ->).
  - by intros (-> & -> & ->).
  - by intros (-> & -> & ->).
Qed.

Lemma rumorId_not_gw rumor id : rumorId rumor ≠ "gw:" +:+ id.
Proof. destruct (rumorId_prefix rumor) as [rest ->]. discriminate. Qed.

Lemma set_globalSeen_id b : set_globalSeen (globalSeen b) b = b.
Proof. by destruct b. Qed.

Section bus_lemmas.
Context (env : Env).

(** A delivery whose gift-wrap key is in the ledger changes nothing and
    calls nothing. *)
Lemma handleEvent_seen event b :
  ("gw:" +:+ ev_id event) ∈ globalSeen b → handleEvent env event b = (b, []).
Proof.
  intros Hin. unfold handleEvent.
  rewrite globalDedup_seen by done. by rewrite set_globalSeen_id.
Qed.

(** The ledger after a delivery: one or two [globalDedup] calls. *)
Lemma handleEvent_ledger event b :
  ∃ keys, (length keys ≤ 1)%nat
    ∧ globalSeen (handleEvent env event b).1
      = dedup_all (("gw:" +:+ ev_id event) :: keys) (globalSeen b).
Proof.
  unfold handleEvent.
  destruct (globalDedup ("gw:" +:+ ev_id event) (globalSeen b))
    as [dup seen1] eqn:Hgw.
  assert (seen1 = (globalDedup ("gw:" +:+ ev_id event) (globalSeen b)).2) as Hs
    by (by rewrite Hgw).
  destruct dup; [exists []; simpl; split; [lia|by rewrite <-Hs]|].
  case_bool_decide; [exists []; simpl; split; [lia|by rewrite <-Hs]|].
  destruct (unwrapEvent env event (sk env)) as [rumor|];
    [|exists []; simpl; split; [lia|by rewrite <-Hs]].
  case_bool_decide; [exists []; simpl; split; [lia|by rewrite <-Hs]|].
  simpl.
  destruct (globalDedup (rumorId rumor) seen1) as [dup2 seen2] eqn:Hr.
  assert (seen2 = (globalDedup (rumorId rumor) seen1).2) as Hs2
    by (by rewrite Hr).
  exists [rumorId rumor]. split; [simpl; lia|].
  simpl. rewrite <-Hs, <-Hs2.
  destruct dup2; [done|]. repeat case_bool_decide; try done; by case_if.
Qed.

Lemma step_ledger b i :
  ∃ keys, (length keys ≤ cost i)%nat
    ∧ globalSeen (step env b i).1 = dedup_all keys (globalSeen b).
Proof.
  destruct i as [event|n ok|j ok|j ok|key]; simpl.
  - destruct (handleEvent_ledger event b) as (keys & Hlen & Heq).
    exists (("gw:" +:+ ev_id event) :: keys). split; [simpl; lia|done].
  - exists []. split; [done|].
    destruct (inflight b !! n) as [[event rumor]|]; [|done].
    unfold handleEvent_resume. destruct ok; [|done].
    unfold scheduleStatePersist. simpl. by case_bool_decide.
  - exists []. split; [done|].
    destruct (writes b !! j) as [[arg [|json]]|]; try done. by destruct ok.
  - exists []. split; [done|].
    destruct (writes b !! j) as [[arg [|json]]|]; try done. by destruct ok.
  - exists [key]. split; [done|done].
Qed.

Lemma run_app b l1 l2 :
  run env b (l1 ++ l2)
  = ((run env (run env b l1).1 l2).1,
     (run env b l1).2 ++ (run env (run env b l1).1 l2).2).
Proof.
  revert b. induction l1 as [|i l1 IH]; intros b; simpl.
  - by destruct (run env b l2).
  - destruct (step env b i) as [b1 out1]. rewrite IH.
    destruct (run env b1 l1) as [b2 out2]. simpl.
    by rewrite app_assoc.
Qed.

Lemma run_ledger b inputs :
  ∃ keys, (length keys ≤ total_cost inputs)%nat
    ∧ globalSeen (run env b inputs).1 = dedup_all keys (globalSeen b).
Proof.
  revert b. induction inputs as [|i inputs IH]; intros b; simpl.
  - by exists [].
  - destruct (step_ledger b i) as (keys1 & Hlen1 & Heq1).
    destruct (step env b i) as [b1 out1]. simpl in Heq1.
    destruct (IH b1) as (keys2 & Hlen2 & Heq2).
    destruct (run env b1 inputs) as [b2 out2]. simpl in *.
    exists (keys1 ++ keys2). split.
    + rewrite length_app. unfold total_cost in *. simpl.
      apply Nat.add_le_mono; [exact Hlen1|exact Hlen2].
    + by rewrite dedup_all_app, <-Heq1.
Qed.

Lemma run_NoDup b inputs :
  NoDup (globalSeen b) → NoDup (globalSeen (run env b inputs).1).
Proof.
  intros Hnd. destruct (run_ledger b inputs) as (keys & _ & ->).
  by apply dedup_all_NoDup.
Qed.

Lemma run_recent_keep b inputs n k :
  NoDup (globalSeen b) → recent n k (globalSeen b) →
  Z.of_nat n + Z.of_nat (total_cost inputs) ≤ 16000 →
  recent (n + total_cost inputs) k (globalSeen (run env b inputs).1).
Proof.
  intros Hnd Hk Hn. destruct (run_ledger b inputs) as (keys & Hlen & ->).
  eapply (recent_mono (n + length keys)); [lia|].
  apply dedup_all_recent_keep; [done..|lia].
Qed.

(** When a delivery calls [onMessage]: every check of the handler passed. *)
Lemma handleEvent_calls event b s t :
  CallOnMessage s t ∈ (handleEvent env event b).2 →
  ∃ rumor,
    unwrapEvent env event (sk env) = Some rumor
    ∧ (("gw:" +:+ ev_id event) ∉ globalSeen b)
    ∧ ev_kind event = 1059
    ∧ r_kind rumor = 14
    ∧ (rumorId rumor ∉ (globalDedup ("gw:" +:+ ev_id event) (globalSeen b)).2)
    ∧ r_pubkey rumor ≠ pk env
    ∧ js_lt (Some 0) (lastRumorAt b)
      && js_le (r_created_at rumor) (lastRumorAt b) = false
    ∧ s = r_pubkey rumor ∧ t = r_content rumor.
Proof.
  unfold handleEvent.
  destruct (globalDedup ("gw:" +:+ ev_id event) (globalSeen b))
    as [dup seen1] eqn:Hgw.
  pose proof (globalDedup_flag ("gw:" +:+ ev_id event) (globalSeen b)) as Hflag.
  rewrite Hgw in Hflag. simpl in Hflag.
  destruct dup; [by intros ?%elem_of_nil|].
  symmetry in Hflag. apply Set_has_false in Hflag.
  case_bool_decide as Hkind; [by intros ?%elem_of_nil|].
  destruct (unwrapEvent env event (sk env)) as [rumor|] eqn:Hun; simpl.
  2:{ intros [=]%list_elem_of_singleton. }
  case_bool_decide as Hrkind; [by intros ?%elem_of_nil|].
  destruct (globalDedup (rumorId rumor) seen1) as [dup2 seen2] eqn:Hr.
  pose proof (globalDedup_flag (rumorId rumor) seen1) as Hflag2.
  rewrite Hr in Hflag2. simpl in Hflag2.
  destruct dup2; [by intros ?%elem_of_nil|].
  symmetry in Hflag2. apply Set_has_false in Hflag2.
  case_bool_decide as Hself; [by intros ?%elem_of_nil|].
  cbn [lastRumorAt set_globalSeen].
  destruct (js_lt (Some 0) (lastRumorAt b)
            && js_le (r_created_at rumor) (lastRumorAt b)) eqn:Hstale;
    [by intros ?%elem_of_nil|].
  simpl. intros [= -> ->]%list_elem_of_singleton.
  exists rumor. by split_and!.
Qed.

Lemma calls_nil out :
  calls out = [] ↔ ∀ s t, CallOnMessage s t ∉ out.
Proof.
  unfold calls. induction out as [|[s t|m c] out IH]; simpl.
  - split; [intros _ s t; apply not_elem_of_nil|done].
  - split; [done|]. intros H. destruct (H s t). apply list_elem_of_here.
  - rewrite IH. split; intros H s t.
    + apply not_elem_of_cons. split; [done|apply H].
    + specialize (H s t). by apply not_elem_of_cons in H as [_ ?].
Qed.

(** A delivery adds a suspended handler exactly when it calls [onMessage]. *)
Lemma handleEvent_inflight event b :
  calls (handleEvent env event b).2 = [] →
  inflight (handleEvent env event b).1 = inflight b.
Proof.
  unfold handleEvent.
  destruct (globalDedup ("gw:" +:+ ev_id event) (globalSeen b)) as [dup seen1].
  destruct dup; [done|]. case_bool_decide; [done|].
  destruct (unwrapEvent env event (sk env)) as [rumor|]; [|done].
  case_bool_decide; [done|]. simpl.
  destruct (globalDedup (rumorId rumor) seen1) as [dup2 seen2].
  destruct dup2; [done|]. case_bool_decide; [done|].
  by case_if.
Qed.

(** A delivery leaves the watermark alone. *)
Lemma handleEvent_lastRumorAt event b :
  lastRumorAt (handleEvent env event b).1 = lastRumorAt b.
Proof.
  unfold handleEvent.
  destruct (globalDedup ("gw:" +:+ ev_id event) (globalSeen b)) as [dup seen1].
  destruct dup; [done|]. case_bool_decide; [done|].
  destruct (unwrapEvent env event (sk env)) as [rumor|]; [|done].
  case_bool_decide; [done|]. simpl.
  destruct (globalDedup (rumorId rumor) seen1) as [dup2 seen2].
  destruct dup2; [done|]. case_bool_decide; [done|].
  by case_if.
Qed.

(** What a turn of the event loop does to the watermark: nothing, or
    [Math.max] with the timestamp of a rumor. *)
Lemma step_lastRumorAt b i :
  lastRumorAt (step env b i).1 = lastRumorAt b
  ∨ ∃ t, lastRumorAt (step env b i).1 = Math_max (lastRumorAt b) t.
Proof.
  destruct i as [event|n ok|j ok|j ok|key]; cbn [step].
  - left. apply handleEvent_lastRumorAt.
  - destruct (inflight b !! n) as [[event rumor]|]; [|by left].
    unfold handleEvent_resume. destruct ok; [|by left].
    right. exists (r_created_at rumor).
    unfold scheduleStatePersist. simpl. by case_bool_decide.
  - left. destruct (writes b !! j) as [[arg [|json]]|]; try done. by destruct ok.
  - left. destruct (writes b !! j) as [[arg [|json]]|]; try done. by destruct ok.
  - by left.
Qed.

(** The in-session watermark never goes back as long as it is a number,
    and once it is [NaN] it stays so. *)
Lemma step_lastRumorAt_mono b i w' :
  lastRumorAt (step env b i).1 = Some w' →
  ∃ w, lastRumorAt b = Some w ∧ w ≤ w'.
Proof.
  destruct (step_lastRumorAt b i) as [->|[t ->]].
  - intros ->. by exists w'.
  - destruct (lastRumorAt b) as [w|], t as [t|]; try done.
    intros [= <-]. exists w. split; [done|lia].
Qed.

Lemma run_lastRumorAt_mono b inputs w' :
  lastRumorAt (run env b inputs).1 = Some w' →
  ∃ w, lastRumorAt b = Some w ∧ w ≤ w'.
Proof.
  revert b. induction inputs as [|i inputs IH]; intros b; simpl.
  { intros ->. by exists w'. }
  pose proof (step_lastRumorAt_mono b i) as H1.
  destruct (step env b i) as [b1 out1]. specialize (IH b1).
  destruct (run env b1 inputs) as [b2 out2]. simpl in *.
  intros [w1 [Hw1 Hle1]]%IH. destruct (H1 _ Hw1) as [w [Hw Hle]].
  exists w. split; [done|lia].
Qed.

(** A delivery whose rumor key is among the newest keys calls nothing. *)
Lemma handleEvent_rumor_recent event rumor b n :
  NoDup (globalSeen b) →
  unwrapEvent env event (sk env) = Some rumor →
  recent n (rumorId rumor) (globalSeen b) → Z.of_nat n < 16000 →
  calls (handleEvent env event b).2 = [].
Proof.
  intros Hnd Hun Hrec Hn. apply calls_nil. intros s t Hin.
  apply handleEvent_calls in Hin as (rumor' & Hun' & _ & _ & _ & Hfresh & _).
  assert (rumor' = rumor) as -> by congruence.
  apply Hfresh. eapply recent_elem.
  by apply globalDedup_recent_keep.
Qed.

(** After a delivery the gift-wrap key is in the ledger. *)
Lemma handleEvent_inserts event b :
  NoDup (globalSeen b) →
  ("gw:" +:+ ev_id event) ∈ globalSeen (handleEvent env event b).1.
Proof.
  intros Hnd. destruct (decide (("gw:" +:+ ev_id event) ∈ globalSeen b)) as [Hin|Hin].
  { by rewrite handleEvent_seen. }
  destruct (handleEvent_ledger event b) as (keys & Hlen & ->). simpl.
  eapply recent_elem. apply dedup_all_recent_keep.
  - by apply globalDedup_NoDup.
  - by apply globalDedup_recent_fresh.
  - lia.
Qed.

(** A first delivery leaves the gift-wrap key among the two newest. *)
Lemma handleEvent_inserts_recent event b :
  NoDup (globalSeen b) → ("gw:" +:+ ev_id event) ∉ globalSeen b →
  recent 2 ("gw:" +:+ ev_id event) (globalSeen (handleEvent env event b).1).
Proof.
  intros Hnd Hin.
  destruct (handleEvent_ledger event b) as (keys & Hlen & ->). simpl.
  eapply (recent_mono (1 + length keys)); [lia|].
  apply dedup_all_recent_keep.
  - by apply globalDedup_NoDup.
  - by apply globalDedup_recent_fresh.
  - lia.
Qed.

(** A first delivery that gets to the rumor check leaves the rumor key as
    the newest key. *)
Lemma handleEvent_rumor_inserted event rumor b :
  NoDup (globalSeen b) →
  ("gw:" +:+ ev_id event) ∉ globalSeen b →
  ev_kind event = 1059 →
  unwrapEvent env event (sk env) = Some rumor →
  r_kind rumor = 14 →
  rumorId rumor ∉ globalSeen b →
  recent 1 (rumorId rumor) (globalSeen (handleEvent env event b).1).
Proof.
  intros Hnd Hgw Hkind Hun Hrkind Hrk. unfold handleEvent.
  pose proof (globalDedup_flag ("gw:" +:+ ev_id event) (globalSeen b)) as Hflag.
  pose proof (globalDedup_NoDup ("gw:" +:+ ev_id event) _ Hnd) as Hnd1.
  pose proof (globalDedup_subseteq ("gw:" +:+ ev_id event) (globalSeen b)
                (rumorId rumor)) as Hsub.
  destruct (globalDedup ("gw:" +:+ ev_id event) (globalSeen b)) as [dup seen1].
  simpl in *. rewrite (proj2 (Set_has_false _ _) Hgw) in Hflag. subst dup.
  rewrite bool_decide_eq_false_2 by (by intros ?).
  rewrite Hun. rewrite bool_decide_eq_false_2 by (by intros ?).
  assert (rumorId rumor ∉ seen1) as Hfresh.
  { intros [?|?]%Hsub; [by eapply rumorId_not_gw|done]. }
  pose proof (globalDedup_recent_fresh (rumorId rumor) seen1 Hnd1 Hfresh) as Hrec.
  destruct (globalDedup (rumorId rumor) seen1) as [dup2 seen2]. simpl in *.
  destruct dup2; [done|]. repeat case_bool_decide; try done; by case_if.
Qed.

(** A first delivery of a wrap that cannot be unwrapped. *)
Lemma handleEvent_undecryptable event b :
  ("gw:" +:+ ev_id event) ∉ globalSeen b →
  ev_kind event = 1059 →
  unwrapEvent env event (sk env) = None →
  handleEvent env event b
  = (set_globalSeen (globalDedup ("gw:" +:+ ev_id event) (globalSeen b)).2 b,
     [CallOnError None ("unwrap gift wrap " +:+ ev_id event)]).
Proof.
  intros Hfresh Hkind Hun. unfold handleEvent.
  pose proof (globalDedup_flag ("gw:" +:+ ev_id event) (globalSeen b)) as Hflag.
  destruct (globalDedup ("gw:" +:+ ev_id event) (globalSeen b)) as [dup seen1].
  simpl in *. rewrite (proj2 (Set_has_false _ _) Hfresh) in Hflag. subst dup.
  rewrite bool_decide_eq_false_2 by (by intros ?). by rewrite Hun.
Qed.

(** A first delivery that passes every check, with room in the ledger. *)
Lemma handleEvent_accepts event rumor b :
  ("gw:" +:+ ev_id event) ∉ globalSeen b →
  rumorId rumor ∉ globalSeen b →
  Z.of_nat (length (globalSeen b)) + 2 ≤ GLOBAL_SEEN_MAX →
  ev_kind event = 1059 →
  unwrapEvent env event (sk env) = Some rumor →
  r_kind rumor = 14 →
  r_pubkey rumor ≠ pk env →
  js_lt (Some 0) (lastRumorAt b)
  && js_le (r_created_at rumor) (lastRumorAt b) = false →
  handleEvent env event b
  = (set_inflight (inflight b ++ [(event, rumor)])
       (set_globalSeen
          (globalSeen b ++ ["gw:" +:+ ev_id event; rumorId rumor]) b),
     [CallOnMessage (r_pubkey rumor) (r_content rumor)]).
Proof.
  intros Hgw Hrk Hlen Hkind Hun Hrkind Hself Hfresh. unfold handleEvent.
  rewrite globalDedup_fresh by (done || lia).
  rewrite bool_decide_eq_false_2 by (by intros ?).
  rewrite Hun. rewrite bool_decide_eq_false_2 by (by intros ?).
  simpl. rewrite globalDedup_fresh; cycle 1.
  { intros [?|Heq%list_elem_of_singleton]%elem_of_app; [done|].
    by eapply rumorId_not_gw. }
  { rewrite length_app. simpl. lia. }
  rewrite bool_decide_eq_false_2 by done.
  cbn [lastRumorAt set_globalSeen]. rewrite Hfresh.
  simpl. by rewrite <-app_assoc.
Qed.

(** A burst of wraps that cannot be unwrapped, with room in the ledger:
    each one costs a ledger slot and an error report, nothing else. *)
Lemma run_undecryptable (ns : list Event) b :
  (∀ n, n ∈ ns → ev_kind n = 1059 ∧ unwrapEvent env n (sk env) = None) →
  NoDup (ev_id <$> ns) →
  (∀ n, n ∈ ns → ("gw:" +:+ ev_id n) ∉ globalSeen b) →
  Z.of_nat (length (globalSeen b)) + Z.of_nat (length ns) ≤ GLOBAL_SEEN_MAX →
  run env b (Deliver <$> ns)
  = (set_globalSeen (globalSeen b ++ ((λ n, "gw:" +:+ ev_id n) <$> ns)) b,
     (λ n, CallOnError None ("unwrap gift wrap " +:+ ev_id n)) <$> ns).
Proof.
  revert b. induction ns as [|n ns IH]; intros b Hns Hnd Hfresh Hlen.
  { simpl. by rewrite app_nil_r, set_globalSeen_id. }
  rewrite fmap_cons in Hnd. apply NoDup_cons in Hnd as [Hn Hnd].
  simpl in Hlen |- *.
  destruct (Hns n) as [Hkind Hun]; [apply list_elem_of_here|].
  rewrite handleEvent_undecryptable;
    [|apply Hfresh, list_elem_of_here|done..].
  rewrite globalDedup_fresh; [|apply Hfresh, list_elem_of_here|lia].
  simpl. rewrite IH; simpl.
  - by rewrite <-app_assoc.
  - intros m Hm. apply Hns. by apply list_elem_of_further.
  - done.
  - intros m Hm [Hin|Heq%list_elem_of_singleton]%elem_of_app.
    + eapply Hfresh; [by apply list_elem_of_further|done].
    + apply Hn. apply list_elem_of_fmap. exists m. split; [|done].
      by simplify_eq/=.
  - rewrite length_app. simpl. lia.
Qed.

(** Eviction at work.  On a bus with an empty ledger and no watermark, a
    wrap is delivered and handed to the callback; 19999 wraps that cannot be
    unwrapped follow; the last of them makes the ledger exceed its cap and
    the trim removes the keys of the first wrap.  A wrap delivered next that
    would have been stopped by those keys is handed to the callback. *)
Lemma evicted_then_called b e r (ns : list Event) e' r' :
  globalSeen b = [] → lastRumorAt b = Some 0 →
  ev_kind e = 1059 → unwrapEvent env e (sk env) = Some r →
  r_kind r = 14 → r_pubkey r ≠ pk env →
  ev_kind e' = 1059 → unwrapEvent env e' (sk env) = Some r' →
  r_kind r' = 14 → r_pubkey r' ≠ pk env →
  (∀ n, n ∈ ns → ev_kind n = 1059 ∧ unwrapEvent env n (sk env) = None) →
  NoDup (ev_id <$> ns) →
  ev_id e ∉ ev_id <$> ns → ev_id e' ∉ ev_id <$> ns →
  Z.of_nat (length ns) = 19999 →
  calls (step env b (Deliver e)).2 = [(r_pubkey r, r_content r)]
  ∧ calls (step env (run env b (Deliver e :: (Deliver <$> ns))).1
             (Deliver e')).2
    = [(r_pubkey r', r_content r')].
Proof.
  intros Hseen Hmark Hkind Hun Hrkind Hself Hkind' Hun' Hrkind' Hself'
    Hns Hnd He He' Hlen.
  assert (handleEvent env e b
          = (set_inflight (inflight b ++ [(e, r)])
               (set_globalSeen ["gw:" +:+ ev_id e; rumorId r] b),
             [CallOnMessage (r_pubkey r) (r_content r)])) as Hfirst.
  { rewrite (handleEvent_accepts e r); rewrite ?Hseen, ?Hmark; try done;
      try apply not_elem_of_nil. }
  split; [simpl; by rewrite Hfirst|].
  destruct ns as [|last ns0 _] using rev_ind; [simpl in Hlen; lia|].
  rewrite fmap_app in Hnd. simpl in Hnd.
  apply NoDup_app in Hnd as (Hnd0 & Hlast & _).
  rewrite length_app in Hlen. simpl in Hlen.
  change (Deliver e :: (Deliver <$> ns0 ++ [last]))
    with ([Deliver e] ++ (Deliver <$> ns0 ++ [last])).
  rewrite fmap_app, run_app, run_app. simpl run at 3. rewrite Hfirst. simpl.
  set (b1 := set_inflight (inflight b ++ [(e, r)])
               (set_globalSeen ["gw:" +:+ ev_id e; rumorId r] b)).
  assert (∀ n, n ∈ ns0 ++ [last] →
               ("gw:" +:+ ev_id n) ∉ ["gw:" +:+ ev_id e; rumorId r]) as Hout.
  { intros n Hn [Heq|[Heq|[]%elem_of_nil]%elem_of_cons]%elem_of_cons.
    - apply He. apply list_elem_of_fmap.
      exists n. split; [by simplify_eq/=|done].
    - by eapply rumorId_not_gw. }
  rewrite (run_undecryptable ns0 b1); cycle 1.
  { intros n Hn. apply Hns, elem_of_app. by left. }
  { done. }
  { intros n Hn. apply Hout, elem_of_app. by left. }
  { simpl. unfold GLOBAL_SEEN_MAX. lia. }
  simpl.
  set (L := ("gw:" +:+ ev_id e) :: rumorId r
            :: ((λ n, "gw:" +:+ ev_id n) <$> ns0)).
  assert (NoDup L) as HndL.
  { unfold L. apply NoDup_cons. split.
    { intros [Heq|Hin]%elem_of_cons; [by eapply rumorId_not_gw|].
      apply list_elem_of_fmap in Hin as (n & Heq & Hn).
      apply He. apply list_elem_of_fmap.
      exists n. split; [by simplify_eq/=|apply elem_of_app; by left]. }
    apply NoDup_cons. split.
    { intros (n & Heq & Hn)%list_elem_of_fmap. by eapply rumorId_not_gw. }
    replace ((λ n, "gw:" +:+ ev_id n) <$> ns0)
      with (String.app "gw:" <$> (ev_id <$> ns0))
      by (by rewrite <-list_fmap_compose).
    apply NoDup_fmap_2; [apply _|done]. }
  assert (("gw:" +:+ ev_id last) ∉ L) as HlastL.
  { unfold L. intros [Heq|[Heq|Hin]%elem_of_cons]%elem_of_cons.
    - apply He. apply list_elem_of_fmap. exists last.
      split; [by simplify_eq/=|apply elem_of_app; right; apply list_elem_of_here].
    - by eapply rumorId_not_gw.
    - apply list_elem_of_fmap in Hin as (n & Heq & Hn).
      apply (Hlast (ev_id last)); [|apply list_elem_of_here].
      apply list_elem_of_fmap. exists n. split; [by simplify_eq/=|done]. }
  assert (length L = Z.to_nat 20000) as HlenL.
  { unfold L. rewrite !length_cons, length_fmap. lia. }
  destruct (Hns last) as [Hkl Hul]; [apply elem_of_app; right; apply list_elem_of_here|].
  rewrite (handleEvent_undecryptable last); [|exact HlastL|done..].
  cbn [fst snd globalSeen set_globalSeen].
  rewrite globalDedup_fresh_trim;
    [|done..|unfold GLOBAL_SEEN_MAX; rewrite HlenL; lia].
  cbn [fst snd]. rewrite HlenL.
  replace (Z.to_nat (Z.of_nat (Z.to_nat 20000) + 1 - 16000))
    with (S (S (Z.to_nat 3999))) by lia.
  unfold L. rewrite <-!app_comm_cons. rewrite !skipn_cons.
  set (L3 := drop (Z.to_nat 3999)
               (((λ n, "gw:" +:+ ev_id n) <$> ns0) ++ ["gw:" +:+ ev_id last])).
  assert (∀ k, k ∈ L3 → ∃ n, n ∈ ns0 ++ [last] ∧ k = "gw:" +:+ ev_id n) as HL3.
  { intros k Hk. apply (subseteq_drop (Z.to_nat 3999)) in Hk.
    apply elem_of_app in Hk as [Hk|Hk%list_elem_of_singleton].
    - apply list_elem_of_fmap in Hk as (n & -> & Hn).
      exists n. split; [apply elem_of_app; by left|done].
    - exists last. split; [apply elem_of_app; right; apply list_elem_of_here|done]. }
  assert (length L3 = Z.to_nat 16000) as HlenL3.
  { unfold L3. rewrite length_drop, length_app, length_fmap, length_cons.
    simpl length. lia. }
  rewrite (handleEvent_accepts e' r'); simpl; try done.
  - intros (n & Hn & Heq)%HL3. apply He'.
    apply list_elem_of_fmap. exists n. split; [by simplify_eq/=|done].
  - intros (n & Hn & Heq)%HL3. by eapply rumorId_not_gw.
  - rewrite HlenL3. unfold GLOBAL_SEEN_MAX. lia.
  - by rewrite Hmark.
Qed.

End bus_lemmas.


(** ** Lists of settled promises *)

Lemma bind_singleton {A B} (f : A → B) (l : list A) :
  (l ≫= λ x, [f x]) = f <$> l.
Proof. induction l as [|x l IH]; [done|]. by rewrite bind_cons, IH. Qed.

(** The pairs of the two loops for two wraps. *)
Lemma publishCalls_two {Wrap} (w1 w2 : Wrap) (relays : list string) :
  publishCalls [w1; w2] relays
  = ((λ relay, (relay, w1)) <$> relays) ++ ((λ relay, (relay, w2)) <$> relays).
Proof.
  unfold publishCalls. simpl. by rewrite !bind_singleton, app_nil_r.
Qed.

(** Items that are no promises all count as fulfilled. *)
Lemma Promise_allSettled_values (items : list Item) :
  Forall (λ i, ∃ promises, i = ItemValue promises) items →
  Promise_allSettled items = replicate (length items) Fulfilled.
Proof.
  induction 1 as [|i items [promises ->] _ IH]; [done|].
  unfold Promise_allSettled in *. rewrite fmap_cons. simpl. by rewrite IH.
Qed.

Lemma filter_rejected_replicate (n : nat) :
  filter (λ r, is_rejected r = true) (replicate n Fulfilled) = [].
Proof.
  induction n as [|n IH]; [done|]. simpl.
  by rewrite filter_cons_False by done.
Qed.

Lemma filter_fulfilled_replicate (n : nat) :
  filter (λ r, is_rejected r = false) (replicate n Fulfilled)
  = replicate n Fulfilled.
Proof.
  induction n as [|n IH]; [done|]. simpl.
  rewrite filter_cons_True by done. by rewrite IH.
Qed.

Section send_lemmas.
Context {Wrap : Type}.
Context (publish : nat → string → Wrap → Res (list Settled)).

(** The loops push arrays, never promises. *)
Lemma push_all_values n todo :
  Forall (λ i, ∃ promises, i = ItemValue promises)
         (publishPromises (push_all publish n todo)).
Proof.
  revert n. induction todo as [|[relay wrap] todo IH]; intros n; simpl.
  { constructor. }
  destruct (publish n relay wrap) as [promises|m]; simpl.
  - constructor; [by exists promises|apply IH].
  - constructor.
Qed.

(** Loops that end without a throw have made every call. *)
Lemma push_all_made n todo :
  thrown (push_all publish n todo) = None →
  made (push_all publish n todo) = todo
  ∧ length (publishPromises (push_all publish n todo)) = length todo.
Proof.
  revert n. induction todo as [|[relay wrap] todo IH]; intros n; simpl.
  { done. }
  destruct (publish n relay wrap) as [promises|m]; simpl; [|done].
  intros [-> ->]%IH. done.
Qed.

Lemma push_all_returns n todo :
  (∀ k relay wrap, ∃ promises, publish k relay wrap = Ok promises) →
  thrown (push_all publish n todo) = None.
Proof.
  intros Hok. revert n.
  induction todo as [|[relay wrap] todo IH]; intros n; simpl; [done|].
  destruct (Hok n relay wrap) as [promises ->]. simpl. apply IH.
Qed.

(** The loops end early only when a call of [pool.publish] throws. *)
Lemma push_all_thrown n todo m :
  thrown (push_all publish n todo) = Some m →
  ∃ k relay wrap, publish k relay wrap = Throw m.
Proof.
  revert n. induction todo as [|[relay wrap] todo IH]; intros n; simpl.
  { done. }
  destruct (publish n relay wrap) as [promises|m'] eqn:Hcall; simpl.
  - apply IH.
  - intros [= <-]. by exists n, relay, wrap.
Qed.

(** After the loops [Promise.allSettled] finds nothing rejected. *)
Lemma push_all_no_failures n todo :
  filter (λ r, is_rejected r = true)
         (Promise_allSettled (publishPromises (push_all publish n todo))) = [].
Proof.
  rewrite Promise_allSettled_values by apply push_all_values.
  apply filter_rejected_replicate.
Qed.

End send_lemmas.

(** ** Persisting the recent identifiers *)

Lemma slice_last_small n l : Z.of_nat (length l) ≤ n → slice_last n l = l.
Proof. intros H. unfold slice_last. by replace (Z.to_nat _) with 0%nat by lia. Qed.

Lemma slice_last_length n l :
  0 ≤ n → Z.of_nat (length (slice_last n l)) = Z.min (Z.of_nat (length l)) n.
Proof. intros H. unfold slice_last. rewrite length_drop. lia. Qed.

Lemma slice_last_app n l r :
  0 ≤ n → slice_last n (slice_last n l ++ r) = slice_last n (l ++ r).
Proof.
  intros H. unfold slice_last at 2.
  rewrite <-drop_app_le by lia.
  unfold slice_last. rewrite drop_drop. f_equal.
  rewrite length_drop, !length_app. lia.
Qed.

Section persist_lemmas.
Context (env : Env).

(** [scheduleStatePersist] when the array stays within the cap: the
    identifier is pushed onto the current array, and a write is started that
    refers to that array. *)
Lemma scheduleStatePersist_push t id b arr :
  heap b !! recentEventIds b = Some arr →
  Z.of_nat (length arr) < MAX_PERSISTED_EVENT_IDS →
  scheduleStatePersist env t id b
  = set_writes
      (writes b ++
       [({| w_lastProcessedAt := Z.max (lastProcessedAt b) t;
            w_gatewayStartedAt := gatewayStartedAt env;
            w_recentEventIds := recentEventIds b;
            w_lastRumorAt := lastRumorAt b |}, AwaitMkdir)])
      (set_heap (<[recentEventIds b := arr ++ [id]]> (heap b))
         (set_lastProcessedAt (Z.max (lastProcessedAt b) t) b)).
Proof.
  intros Harr Hlen. unfold scheduleStatePersist, deref. simpl.
  rewrite Harr. simpl.
  rewrite bool_decide_eq_false_2; [done|].
  rewrite length_app. simpl. lia.
Qed.

(** [scheduleStatePersist] when the push takes the array over the cap: the
    old array keeps the pushed identifier, and the variable is rebound to a
    new array holding the last 5000. *)
Lemma scheduleStatePersist_slice t id b arr :
  heap b !! recentEventIds b = Some arr →
  MAX_PERSISTED_EVENT_IDS ≤ Z.of_nat (length arr) →
  scheduleStatePersist env t id b
  = set_writes
      (writes b ++
       [({| w_lastProcessedAt := Z.max (lastProcessedAt b) t;
            w_gatewayStartedAt := gatewayStartedAt env;
            w_recentEventIds := length (heap b);
            w_lastRumorAt := lastRumorAt b |}, AwaitMkdir)])
      (set_recentEventIds (length (heap b))
         (set_heap (<[recentEventIds b := arr ++ [id]]> (heap b)
                    ++ [slice_last MAX_PERSISTED_EVENT_IDS (arr ++ [id])])
            (set_lastProcessedAt (Z.max (lastProcessedAt b) t) b))).
Proof.
  intros Harr Hlen. unfold scheduleStatePersist, deref. simpl.
  rewrite Harr. simpl.
  rewrite bool_decide_eq_true_2 by (rewrite length_app; simpl; lia).
  unfold persistStateNow. simpl. by rewrite length_insert.
Qed.

(** Either way the bus goes on with the last 5000 of the old list and the
    new identifier. *)
Lemma scheduleStatePersist_current t id b arr :
  heap b !! recentEventIds b = Some arr →
  Z.of_nat (length arr) ≤ MAX_PERSISTED_EVENT_IDS →
  heap (scheduleStatePersist env t id b)
    !! recentEventIds (scheduleStatePersist env t id b)
  = Some (slice_last MAX_PERSISTED_EVENT_IDS (arr ++ [id])).
Proof.
  intros Harr Hlen.
  pose proof (lookup_lt_Some _ _ _ Harr) as Hlt.
  destruct (decide (Z.of_nat (length arr) < MAX_PERSISTED_EVENT_IDS)) as [Hsmall|Hfull].
  - rewrite (scheduleStatePersist_push _ _ _ arr) by done. simpl.
    rewrite list_lookup_insert_eq by done.
    rewrite slice_last_small; [done|]. rewrite length_app. simpl. lia.
  - rewrite (scheduleStatePersist_slice _ _ _ arr) by (done || lia). simpl.
    rewrite lookup_app_r by (rewrite length_insert; lia).
    by rewrite length_insert, Nat.sub_diag.
Qed.

Lemma handleEvent_heap event b :
  heap (handleEvent env event b).1 = heap b
  ∧ recentEventIds (handleEvent env event b).1 = recentEventIds b.
Proof.
  unfold handleEvent.
  destruct (globalDedup ("gw:" +:+ ev_id event) (globalSeen b)) as [dup seen1].
  destruct dup; [done|]. case_bool_decide; [done|].
  destruct (unwrapEvent env event (sk env)) as [rumor|]; [|done].
  case_bool_decide; [done|]. simpl.
  destruct (globalDedup (rumorId rumor) seen1) as [dup2 seen2].
  destruct dup2; [done|]. repeat case_bool_decide; try done; by case_if.
Qed.

(** The list the bus keeps: the last 5000 of what it started with followed
    by the identifiers of the events whose callback completed since. *)
Lemma run_keeps_last b inputs arr :
  heap b !! recentEventIds b = Some arr →
  Z.of_nat (length arr) ≤ MAX_PERSISTED_EVENT_IDS →
  heap (run env b inputs).1 !! recentEventIds (run env b inputs).1
  = Some (slice_last MAX_PERSISTED_EVENT_IDS (arr ++ processed env b inputs)).
Proof.
  revert b arr. induction inputs as [|i inputs IH]; intros b arr Harr Hlen.
  { simpl. by rewrite app_nil_r, slice_last_small. }
  cbn [run processed].
  assert (∀ b1 out1,
            step env b i = (b1, out1) →
            ∃ arr1, heap b1 !! recentEventIds b1 = Some arr1
              ∧ Z.of_nat (length arr1) ≤ MAX_PERSISTED_EVENT_IDS
              ∧ slice_last MAX_PERSISTED_EVENT_IDS
                  (arr1 ++ processed env b1 inputs)
                = slice_last MAX_PERSISTED_EVENT_IDS
                    (arr ++ match i with
                            | Settle n true =>
                                match inflight b !! n with
                                | Some (event, _) => [ev_id event]
                                | None => []
                                end
                            | _ => []
                            end ++ processed env b1 inputs)) as Hstep.
  { intros b1 out1 Hb1.
    destruct i as [event|n ok|j ok|j ok|key]; cbn [step] in Hb1.
    - destruct (handleEvent_heap event b) as [Hh Hc].
      rewrite Hb1 in Hh, Hc. simpl in Hh, Hc.
      exists arr. by rewrite Hh, Hc.
    - destruct (inflight b !! n) as [[event rumor]|];
        [|injection Hb1 as <- <-; exists arr; by destruct ok].
      destruct ok; unfold handleEvent_resume in Hb1; injection Hb1 as <- <-;
        [|by exists arr].
      eexists. split; [by apply scheduleStatePersist_current|].
      split.
      + rewrite slice_last_length by done. lia.
      + rewrite slice_last_app by done. by rewrite <-app_assoc.
    - exists arr.
      destruct (writes b !! j) as [[arg [|json]]|];
        try (injection Hb1 as <- <-; done).
      destruct ok; injection Hb1 as <- <-; done.
    - exists arr.
      destruct (writes b !! j) as [[arg [|json]]|];
        try (injection Hb1 as <- <-; done).
      destruct ok; injection Hb1 as <- <-; done.
    - injection Hb1 as <- <-. by exists arr. }
  destruct (step env b i) as [b1 out1] eqn:Hb1.
  destruct (Hstep b1 out1 eq_refl) as (arr1 & Harr1 & Hlen1 & Heq).
  specialize (IH b1 arr1 Harr1 Hlen1).
  destruct (run env b1 inputs) as [b2 out2]. simpl in *.
  by rewrite IH, Heq.
Qed.

(** A message handled with nothing else going on, the array below the cap:
    the state file ends up with exactly what the bus holds. *)
Lemma handled_alone b e r arr w t :
  inflight b = [] → writes b = [] →
  heap b = [arr] → recentEventIds b = 0%nat →
  Z.of_nat (length arr) < MAX_PERSISTED_EVENT_IDS →
  ("gw:" +:+ ev_id e) ∉ globalSeen b →
  rumorId r ∉ globalSeen b →
  Z.of_nat (length (globalSeen b)) + 2 ≤ GLOBAL_SEEN_MAX →
  ev_kind e = 1059 →
  unwrapEvent env e (sk env) = Some r →
  r_kind r = 14 →
  r_pubkey r ≠ pk env →
  lastRumorAt b = Some w → r_created_at r = Some t → w < t →
  (run env b [Deliver e; Settle 0 true; MkdirDone 0 true; WriteFileDone 0 true]).1
  = {| globalSeen := globalSeen b ++ ["gw:" +:+ ev_id e; rumorId r];
       lastProcessedAt := Z.max (lastProcessedAt b) (ev_created_at e);
       lastRumorAt := Some t;
       heap := [arr ++ [ev_id e]];
       recentEventIds := 0%nat;
       inflight := [];
       writes := [];
       file := Some {| s_lastProcessedAt :=
                         Z.max (lastProcessedAt b) (ev_created_at e);
                       s_gatewayStartedAt := gatewayStartedAt env;
                       s_recentEventIds := arr ++ [ev_id e];
                       s_lastRumorAt := Some t |} |}.
Proof.
  intros Hin Hwr Hheap Hcur Hlen Hgw Hrk Hroom Hkind Hun Hrkind Hself
    Hw Ht Hnew.
  cbn [run step].
  rewrite (handleEvent_accepts env e r); try (done || lia); cycle 1.
  { rewrite Hw, Ht. unfold js_lt, js_le.
    rewrite (bool_decide_eq_false_2 (t ≤ w)) by lia. apply andb_false_r. }
  destruct b as [seen lpa lra hp cur infl wr fl].
  cbn -[scheduleStatePersist] in *. subst.
  cbn -[scheduleStatePersist].
  rewrite (scheduleStatePersist_push _ _ _ arr) by done.
  rewrite Ht. unfold Math_max. simpl. by rewrite (Z.max_r w) by lia.
Qed.

(** Two messages whose callbacks complete before the first state write gets
    past [mkdir], the array one below the cap.  The first write refers to the
    array both pushes go to, and puts 5001 identifiers into the state file;
    the bus itself holds the last 5000. *)
Lemma overlap_persists_5001 b e1 r1 e2 r2 arr :
  inflight b = [] → writes b = [] →
  heap b = [arr] → recentEventIds b = 0%nat →
  Z.of_nat (length arr) = 4999 →
  ("gw:" +:+ ev_id e1) ∉ globalSeen b → rumorId r1 ∉ globalSeen b →
  ("gw:" +:+ ev_id e2) ∉ globalSeen b → rumorId r2 ∉ globalSeen b →
  ev_id e1 ≠ ev_id e2 → rumorId r1 ≠ rumorId r2 →
  Z.of_nat (length (globalSeen b)) + 4 ≤ GLOBAL_SEEN_MAX →
  ev_kind e1 = 1059 → unwrapEvent env e1 (sk env) = Some r1 →
  r_kind r1 = 14 → r_pubkey r1 ≠ pk env →
  js_lt (Some 0) (lastRumorAt b)
  && js_le (r_created_at r1) (lastRumorAt b) = false →
  ev_kind e2 = 1059 → unwrapEvent env e2 (sk env) = Some r2 →
  r_kind r2 = 14 → r_pubkey r2 ≠ pk env →
  js_lt (Some 0) (lastRumorAt b)
  && js_le (r_created_at r2) (lastRumorAt b) = false →
  let b' := (run env b [Deliver e1; Deliver e2; Settle 0 true; Settle 0 true;
                        MkdirDone 0 true; WriteFileDone 0 true]).1 in
  file b'
  = Some {| s_lastProcessedAt := Z.max (lastProcessedAt b) (ev_created_at e1);
            s_gatewayStartedAt := gatewayStartedAt env;
            s_recentEventIds := arr ++ [ev_id e1; ev_id e2];
            s_lastRumorAt := Math_max (lastRumorAt b) (r_created_at r1) |}
  ∧ deref (heap b') (recentEventIds b')
    = slice_last MAX_PERSISTED_EVENT_IDS (arr ++ [ev_id e1; ev_id e2]).
Proof.
  intros Hin Hwr Hheap Hcur Hlen Hgw1 Hrk1 Hgw2 Hrk2 Hid Hrid Hroom
    Hkind1 Hun1 Hrkind1 Hself1 Hnew1 Hkind2 Hun2 Hrkind2 Hself2 Hnew2.
  cbn [run step].
  rewrite (handleEvent_accepts env e1 r1) by (done || lia).
  rewrite (handleEvent_accepts env e2 r2); cycle 1.
  { simpl. intros [?|[Heq|[Heq|[]%elem_of_nil]%elem_of_cons]%elem_of_cons]%elem_of_app;
      [done| |by eapply rumorId_not_gw].
    apply Hid. by simplify_eq/=. }
  { simpl. intros [?|[Heq|[Heq|[]%elem_of_nil]%elem_of_cons]%elem_of_cons]%elem_of_app;
      [done|by eapply rumorId_not_gw|by apply Hrid]. }
  { simpl. rewrite length_app. simpl. lia. }
  { done. } { done. } { done. } { done. } { done. }
  destruct b as [seen lpa lra hp cur infl wr fl].
  cbn -[scheduleStatePersist] in *. subst.
  cbn -[scheduleStatePersist].
  rewrite (scheduleStatePersist_push _ _ _ arr);
    [|done|unfold MAX_PERSISTED_EVENT_IDS; lia].
  cbn -[scheduleStatePersist].
  rewrite (scheduleStatePersist_slice _ _ _ (arr ++ [ev_id e1]));
    [|done|simpl; rewrite length_app; simpl; unfold MAX_PERSISTED_EVENT_IDS; lia].
  simpl. unfold deref. simpl. by rewrite <-!app_assoc.
Qed.

End persist_lemmas.


(** What does hold of the recent identifiers.  After a first start (no state
    file), whatever the bus is fed, the list it keeps is the identifiers of
    the events whose callback completed, newest last, cut to the last 5000:
    its length is [min(N, 5000)]. *)
Lemma bus_keeps_last_5000 env seen started inputs :
  startNip17Bus env None seen true = Some started →
  deref (heap (run env (bus started) inputs).1)
        (recentEventIds (run env (bus started) inputs).1)
  = slice_last MAX_PERSISTED_EVENT_IDS (processed env (bus started) inputs)
  ∧ Z.of_nat (length (deref (heap (run env (bus started) inputs).1)
                            (recentEventIds (run env (bus started) inputs).1)))
    = Z.min (Z.of_nat (length (processed env (bus started) inputs)))
            MAX_PERSISTED_EVENT_IDS.
Proof.
  intros Hstart. unfold startNip17Bus in Hstart. injection Hstart as <-.
  cbn [bus].
  match goal with |- context [run env ?b0 inputs] => set (b := b0) end.
  pose proof (run_keeps_last env b inputs [] eq_refl) as Hkeep.
  unfold deref. rewrite Hkeep by (unfold MAX_PERSISTED_EVENT_IDS; simpl; lia).
  simpl. split; [done|]. by apply slice_last_length.
Qed.

(** ** The example bus *)

Lemma ex_bus0_started :
  startNip17Bus ex_env None [] true
  = Some {| since := 1699827200; bus := ex_bus0 |}.
Proof. reflexivity. Qed.

Lemma ex_id_inj n m : ex_id n = ex_id m → n = m.
Proof. unfold ex_id. intros H%(inj pretty). lia. Qed.

Lemma ex_id_ne_big c n :
  (2 ≤ c)%N → ex_id (N.of_nat n) ≠ pretty (c * 10 ^ 63)%N ∨ (10 ^ 63 ≤ N.of_nat n)%N.
Proof.
  intros Hc. destruct (decide (10 ^ 63 ≤ N.of_nat n)%N); [by right|left].
  unfold ex_id. intros H%(inj pretty). nia.
Qed.

Lemma ex_noise_ids count :
  ev_id <$> (ex_noise <$> seq 0 count) = (λ n, ex_id (N.of_nat n)) <$> seq 0 count.
Proof. by rewrite <-list_fmap_compose. Qed.

Lemma ex_noise_NoDup count : NoDup (ev_id <$> (ex_noise <$> seq 0 count)).
Proof.
  rewrite ex_noise_ids. apply NoDup_fmap_2_strong; [|apply NoDup_seq].
  intros n m _ _ H%ex_id_inj. lia.
Qed.

Lemma ex_noise_undecryptable count n :
  n ∈ ex_noise <$> seq 0 count →
  ev_kind n = 1059 ∧ unwrapEvent ex_env n (sk ex_env) = None.
Proof. intros (k & -> & _)%list_elem_of_fmap. done. Qed.

Lemma ex_noise_not_big c count :
  (2 ≤ c)%N → Z.of_nat count ≤ 20000 →
  pretty (c * 10 ^ 63)%N ∉ ev_id <$> (ex_noise <$> seq 0 count).
Proof.
  intros Hc Hcount. rewrite ex_noise_ids.
  intros (k & Heq & Hk%elem_of_seq)%list_elem_of_fmap.
  destruct (ex_id_ne_big c k Hc) as [Hne|Hbig]; [done|].
  assert (10 ^ 63 = 1000000000000000000000000000000000000000000000000000000000000000)%N
    as Hpow by reflexivity.
  lia.
Qed.

Lemma ex_flood_eq count : ex_flood count = Deliver <$> (ex_noise <$> seq 0 count).
Proof. unfold ex_flood. by rewrite <-list_fmap_compose. Qed.

Lemma ex_bus_restarted_started :
  startNip17Bus ex_env (Some ex_state) [] true
  = Some {| since := 1689827200; bus := ex_bus_restarted |}.
Proof. reflexivity. Qed.

Lemma ex_full_ledger_ok : ledger_ok ex_full_ledger.
Proof.
  unfold ex_full_ledger. split.
  - apply NoDup_fmap_2_strong; [|apply NoDup_seq].
    intros n m _ _ H. apply (inj (String.app "gw:")) in H.
    apply ex_id_inj in H. lia.
  - rewrite length_fmap, length_seq. unfold GLOBAL_SEEN_MAX. lia.
Qed.

Lemma ex_full_ledger_length : Z.of_nat (length ex_full_ledger) = 20000.
Proof. unfold ex_full_ledger. rewrite length_fmap, length_seq. lia. Qed.

Lemma ex_full_ledger_fresh : ("gw:" +:+ ex_id 20000) ∉ ex_full_ledger.
Proof.
  unfold ex_full_ledger. intros (n & Heq & Hn%elem_of_seq)%list_elem_of_fmap.
  apply (inj (String.app "gw:")) in Heq. apply ex_id_inj in Heq. lia.
Qed.

Lemma ex_msg_rumorId n :
  rumorId (ex_msg_rumor n) = "rumor:" +:+ ex_msg_rumor_id n.
Proof. reflexivity. Qed.

Lemma ex_msg_rumorId_inj n m :
  rumorId (ex_msg_rumor n) = rumorId (ex_msg_rumor m) → n = m.
Proof.
  rewrite !ex_msg_rumorId. unfold ex_msg_rumor_id.
  intros H. apply (inj (String.app "rumor:")) in H.
  apply (inj (String.app "9")) in H. apply (inj pretty) in H. lia.
Qed.

Lemma ex_msg_gw_inj n m :
  "gw:" +:+ ev_id (ex_msg n) = "gw:" +:+ ev_id (ex_msg m) → n = m.
Proof.
  simpl. intros H. apply (inj (String.app "gw:")) in H.
  apply ex_id_inj in H. lia.
Qed.

Lemma ex_msg_ids_S k : ex_msg_ids (S k) = ex_msg_ids k ++ [ev_id (ex_msg k)].
Proof. unfold ex_msg_ids. by rewrite seq_S, fmap_app. Qed.

Lemma ex_msg_ids_length k : length (ex_msg_ids k) = k.
Proof. unfold ex_msg_ids. by rewrite length_fmap, length_seq. Qed.

Lemma ex_handle_all_S k : ex_handle_all (S k) = ex_handle_all k ++ ex_handle k.
Proof.
  unfold ex_handle_all. rewrite seq_S, bind_app. f_equal.
Qed.

(** A message not handled yet has keys the ledger does not hold. *)
Lemma ex_handled_fresh k b n :
  ex_handled k b → (k ≤ n)%nat →
  (("gw:" +:+ ev_id (ex_msg n)) ∉ globalSeen b)
  ∧ (rumorId (ex_msg_rumor n) ∉ globalSeen b).
Proof.
  intros (_ & _ & _ & _ & _ & _ & Hkeys) Hn. split.
  - intros (j & Hj & [Heq|Heq])%Hkeys.
    + apply (ex_msg_gw_inj n j) in Heq. lia.
    + symmetry in Heq. by eapply rumorId_not_gw.
  - intros (j & Hj & [Heq|Heq])%Hkeys.
    + by eapply rumorId_not_gw.
    + apply ex_msg_rumorId_inj in Heq. lia.
Qed.

Lemma ex_handled_0 : ex_handled 0 ex_bus0.
Proof.
  unfold ex_handled. simpl. split_and!; try done.
  - exists 0. split; [done|lia].
  - intros key []%elem_of_nil.
Qed.

Lemma ex_handled_S k b :
  ex_handled k b → Z.of_nat k < 5000 →
  ex_handled (S k) (run ex_env b (ex_handle k)).1.
Proof.
  intros Hb Hk.
  destruct (ex_handled_fresh k b k Hb) as [Hgw Hrk]; [lia|].
  destruct Hb as (Hin & Hwr & Hheap & Hcur & (w & Hw & Hmark) & Hlen & Hkeys).
  unfold ex_handle.
  rewrite (handled_alone ex_env b (ex_msg k) (ex_msg_rumor k) (ex_msg_ids k)
             w (1700000100 + Z.of_nat k));
    try done.
  - unfold ex_handled. cbn [inflight writes heap recentEventIds lastRumorAt globalSeen].
    split_and!; try done.
    + by rewrite ex_msg_ids_S.
    + eexists. split; [done|]. lia.
    + rewrite length_app, Hlen. simpl. lia.
    + intros key [Hkey|Hkey]%elem_of_app.
      * destruct (Hkeys key Hkey) as (j & Hj & Hj'). exists j. split; [lia|done].
      * exists k. split; [lia|].
        apply elem_of_cons in Hkey as [->|Hkey]; [by left|].
        apply list_elem_of_singleton in Hkey as ->. by right.
  - rewrite ex_msg_ids_length. unfold MAX_PERSISTED_EVENT_IDS. lia.
  - rewrite Hlen. unfold GLOBAL_SEEN_MAX. lia.
Qed.

Lemma ex_handle_all_handled k :
  Z.of_nat k ≤ 5000 → ex_handled k (run ex_env ex_bus0 (ex_handle_all k)).1.
Proof.
  induction k as [|k IH]; intros Hk; [apply ex_handled_0|].
  rewrite ex_handle_all_S, run_app. cbn [fst].
  apply ex_handled_S; [apply IH|]; lia.
Qed.

(** A send on which every relay refuses both wraps: four publishes, no
    report, and the send returns. *)
Lemma ex_send_refused :
  sendNip17Dm ex_getPublicKey ex_createRumor ex_createSeal ex_createWrap
    ex_publish_refused (replicate 32 7) ex_alice "hi" DEFAULT_RELAYS 1700000000
  = {| published := [("wss://relay.damus.io", (ex_alice, "hi"));
                     ("wss://nos.lol", (ex_alice, "hi"));
                     ("wss://relay.damus.io", (ex_pk, "hi"));
                     ("wss://nos.lol", (ex_pk, "hi"))];
       reported := [];
       completion := Returned |}.
Proof. by vm_compute. Qed.

(** Were the promises themselves handed to [Promise.allSettled], the
    refusals would be found and reported. *)
Lemma ex_allSettled_promises :
  Promise_allSettled
    [ItemPromise (Rejected "refused by wss://nos.lol"); ItemPromise Fulfilled]
  = [Rejected "refused by wss://nos.lol"; Fulfilled]
  ∧ publish_error [Rejected "refused by wss://nos.lol"; Fulfilled]
    = "Publish: 1/2 ok, failures: refused by wss://nos.lol".
Proof. split; by vm_compute. Qed.

(** ** Key utilities *)

Lemma concat_hexpad_string_length (cs : list ascii) :
  String.length
    (String.concat "" ((λ c, padStart2 (String c "")) <$> cs))
  = (2 * length cs)%nat.
Proof.
  induction cs as [|c cs IH]; [done|].
  destruct cs as [|c' cs]; [done|].
  change (String.length
            (String "0" (String c
               (String.concat "" ((λ c, padStart2 (String c "")) <$> c' :: cs))))
          = (2 * length (c :: c' :: cs))%nat).
  cbn [String.length]. rewrite IH. cbn [length]. lia.
Qed.

(** Whatever the library, if [nip19.decode] hands back the key of an
    [npub] as a string, [normalizePubkey] returns a string twice as long. *)
Lemma normalizePubkey_npub_string decode x s :
  startsWith (trim x) "npub1" = true →
  decode (trim x) = Ok {| d_type := "npub"; d_data := DataString s |} →
  ∃ out, normalizePubkey decode x = Ok out
         ∧ String.length out = (2 * String.length s)%nat.
Proof.
  intros Hpre Hdec. unfold normalizePubkey. rewrite Hpre, Hdec.
  cbn [Res_bind d_type d_data Array_from_hexpad].
  rewrite bool_decide_eq_false_2 by (intros Hne; by apply Hne).
  eexists. split; [reflexivity|].
  rewrite concat_hexpad_string_length. f_equal.
  clear. induction s as [|c s IH]; simpl; [done|]. by rewrite IH.
Qed.

(** If it hands back bytes, [normalizePubkey] returns their hex form. *)
Lemma normalizePubkey_npub_bytes decode x bytes :
  startsWith (trim x) "npub1" = true →
  decode (trim x) = Ok {| d_type := "npub"; d_data := DataBytes bytes |} →
  normalizePubkey decode x = Ok (Nip19.bytesToHex bytes).
Proof. intros Hpre Hdec. unfold normalizePubkey. by rewrite Hpre, Hdec. Qed.

(** * The claims *)

(** C1, amended.  Once a delivery has put [gw:<id>] into the ledger, a
    later delivery of an event with the same identifier is dropped before
    the unwrap: it calls nothing and changes nothing, provided that the
    inputs in between could add at most 15998 keys to the ledger (a
    delivery adds at most two, a [globalDedup] call of another bus one). *)
Theorem C1_redelivery_discarded env b event event' mid :
  NoDup (globalSeen b) →
  ("gw:" +:+ ev_id event) ∉ globalSeen b →
  ev_id event' = ev_id event →
  Z.of_nat (total_cost mid) ≤ 15998 →
  step env (run env b (Deliver event :: mid)).1 (Deliver event')
  = ((run env b (Deliver event :: mid)).1, []).
Proof.
  intros Hnd Hfresh Hid Hcost.
  change (Deliver event :: mid) with ([Deliver event] ++ mid).
  rewrite run_app. simpl.
  destruct (handleEvent env event b) as [b1 out1] eqn:Hh. simpl.
  apply handleEvent_seen. rewrite Hid.
  assert (b1 = (handleEvent env event b).1) as -> by (by rewrite Hh).
  eapply recent_elem. apply run_recent_keep.
  - destruct (handleEvent_ledger env event b) as (keys & _ & ->).
    by apply dedup_all_NoDup.
  - by apply handleEvent_inserts_recent.
  - lia.
Qed.

(** C1, amended, on the example bus: Alice's wrap comes again after the
    account's own copy, a rejected callback and a key of another bus. *)
Lemma C1_witness :
  step ex_env
    (run ex_env ex_bus0
       (Deliver ex_e1 :: [Deliver ex_own; Settle 0 false; Foreign "gw:ff"])).1
    (Deliver ex_e1)
  = ((run ex_env ex_bus0
        (Deliver ex_e1 :: [Deliver ex_own; Settle 0 false; Foreign "gw:ff"])).1,
     []).
Proof.
  apply (C1_redelivery_discarded ex_env ex_bus0 ex_e1 ex_e1).
  - apply NoDup_nil_2.
  - apply not_elem_of_nil.
  - reflexivity.
  - vm_compute. discriminate.
Defined.

(** C1 as stated fails once the ledger has trimmed.  On the bus of a first
    start, Alice's wrap is delivered and handed to the callback; 19999 wraps
    addressed to others follow, and the trim that the last one triggers takes
    [gw:<id>] of Alice's wrap out of the ledger; the same wrap, delivered
    again, is handed to the callback a second time. *)
Lemma C1_counterexample :
  calls (step ex_env ex_bus0 (Deliver ex_e1)).2 = [(ex_alice, Some "hello")]
  ∧ calls (step ex_env
             (run ex_env ex_bus0 (Deliver ex_e1 :: ex_flood (Z.to_nat 19999))).1
             (Deliver ex_e1)).2
    = [(ex_alice, Some "hello")].
Proof.
  rewrite ex_flood_eq.
  apply (evicted_then_called ex_env ex_bus0 ex_e1
           {| r_id := Some ex_rumor_id; r_kind := 14; r_pubkey := ex_alice;
              r_created_at := Some 1700000050; r_content := Some "hello" |}
           (ex_noise <$> seq 0 (Z.to_nat 19999)) ex_e1
           {| r_id := Some ex_rumor_id; r_kind := 14; r_pubkey := ex_alice;
              r_created_at := Some 1700000050; r_content := Some "hello" |});
    try done.
  - apply ex_noise_undecryptable.
  - apply ex_noise_NoDup.
  - apply ex_noise_not_big; lia.
  - apply ex_noise_not_big; lia.
Qed.

(** C2, amended.  Let two gift wraps unwrap to rumors that share the rumor
    identifier or, when it is absent, the fallback fingerprint (sender,
    timestamp, first 32 characters of the content).  Once the delivery of
    the first has put the rumor key into the ledger, a later delivery of the
    second calls nothing, provided that the inputs in between could add at
    most 15998 keys to the ledger. *)
Theorem C2_same_rumor_discarded env b e1 e2 r1 r2 mid :
  NoDup (globalSeen b) →
  ("gw:" +:+ ev_id e1) ∉ globalSeen b →
  ev_kind e1 = 1059 →
  unwrapEvent env e1 (sk env) = Some r1 →
  r_kind r1 = 14 →
  rumorId r1 ∉ globalSeen b →
  unwrapEvent env e2 (sk env) = Some r2 →
  same_rumor r1 r2 →
  Z.of_nat (total_cost mid) ≤ 15998 →
  calls (step env (run env b (Deliver e1 :: mid)).1 (Deliver e2)).2 = []
  ∧ inflight (step env (run env b (Deliver e1 :: mid)).1 (Deliver e2)).1
    = inflight (run env b (Deliver e1 :: mid)).1.
Proof.
  intros Hnd Hgw Hkind Hun1 Hrkind Hrk Hun2 Hsame%same_rumor_rumorId Hcost.
  assert (calls (step env (run env b (Deliver e1 :: mid)).1 (Deliver e2)).2 = [])
    as Hcalls.
  { change (Deliver e1 :: mid) with ([Deliver e1] ++ mid).
    rewrite run_app. simpl.
    destruct (handleEvent env e1 b) as [b1 out1] eqn:Hh. simpl.
    assert (b1 = (handleEvent env e1 b).1) as -> by (by rewrite Hh).
    assert (NoDup (globalSeen (handleEvent env e1 b).1)) as Hnd1.
    { destruct (handleEvent_ledger env e1 b) as (keys & _ & ->).
      by apply dedup_all_NoDup. }
    eapply (handleEvent_rumor_recent env e2 r2 _ (1 + total_cost mid)).
    - by apply run_NoDup.
    - done.
    - rewrite <-Hsame. apply run_recent_keep; [done| |lia].
      by apply handleEvent_rumor_inserted.
    - lia. }
  split; [done|]. by apply handleEvent_inflight.
Qed.

(** C2, amended, on the example bus: the second wrap of Alice's rumor comes
    after the account's own copy. *)
Lemma C2_witness :
  calls (step ex_env (run ex_env ex_bus0 (Deliver ex_e1 :: [Deliver ex_own])).1
           (Deliver ex_e2)).2 = []
  ∧ inflight (step ex_env
                (run ex_env ex_bus0 (Deliver ex_e1 :: [Deliver ex_own])).1
                (Deliver ex_e2)).1
    = inflight (run ex_env ex_bus0 (Deliver ex_e1 :: [Deliver ex_own])).1.
Proof.
  apply (C2_same_rumor_discarded ex_env ex_bus0 ex_e1 ex_e2
           {| r_id := Some ex_rumor_id; r_kind := 14; r_pubkey := ex_alice;
              r_created_at := Some 1700000050; r_content := Some "hello" |}
           {| r_id := Some ex_rumor_id; r_kind := 14; r_pubkey := ex_alice;
              r_created_at := Some 1700000050; r_content := Some "hello" |}).
  - apply NoDup_nil_2.
  - apply not_elem_of_nil.
  - reflexivity.
  - reflexivity.
  - reflexivity.
  - apply not_elem_of_nil.
  - reflexivity.
  - vm_compute. reflexivity.
  - vm_compute. discriminate.
Defined.

(** C2 as stated fails in the same way.  Two wraps with different
    identifiers carry one rumor of Alice.  The first is delivered and handed
    to the callback; 19999 wraps addressed to others follow and the trim
    takes the rumor key out of the ledger; the second wrap is then handed to
    the callback as well. *)
Lemma C2_counterexample :
  ev_id ex_e1 ≠ ev_id ex_e2
  ∧ unwrapEvent ex_env ex_e1 (sk ex_env) = unwrapEvent ex_env ex_e2 (sk ex_env)
  ∧ calls (step ex_env ex_bus0 (Deliver ex_e1)).2 = [(ex_alice, Some "hello")]
  ∧ calls (step ex_env
             (run ex_env ex_bus0 (Deliver ex_e1 :: ex_flood (Z.to_nat 19999))).1
             (Deliver ex_e2)).2
    = [(ex_alice, Some "hello")].
Proof.
  split; [intros H; vm_compute in H; discriminate H|]. split; [done|].
  rewrite ex_flood_eq.
  apply (evicted_then_called ex_env ex_bus0 ex_e1
           {| r_id := Some ex_rumor_id; r_kind := 14; r_pubkey := ex_alice;
              r_created_at := Some 1700000050; r_content := Some "hello" |}
           (ex_noise <$> seq 0 (Z.to_nat 19999)) ex_e2
           {| r_id := Some ex_rumor_id; r_kind := 14; r_pubkey := ex_alice;
              r_created_at := Some 1700000050; r_content := Some "hello" |});
    try done.
  - apply ex_noise_undecryptable.
  - apply ex_noise_NoDup.
  - apply ex_noise_not_big; lia.
  - apply ex_noise_not_big; lia.
Qed.

(** C3.  A delivered gift wrap whose rumor was written by the account's own
    public key never makes the handler call [onMessage], whatever the bus
    has seen before and whoever delivered it. *)
Theorem C3_own_rumor_never_calls env b event rumor :
  unwrapEvent env event (sk env) = Some rumor →
  r_pubkey rumor = pk env →
  calls (step env b (Deliver event)).2 = []
  ∧ inflight (step env b (Deliver event)).1 = inflight b.
Proof.
  intros Hun Hself.
  assert (calls (step env b (Deliver event)).2 = []) as Hcalls.
  { apply calls_nil. intros s t Hin.
    apply handleEvent_calls in Hin as (rumor' & Hun' & _ & _ & _ & _ & Hne & _).
    congruence. }
  split; [done|]. by apply handleEvent_inflight.
Qed.

(** C3, on the example bus: Alice's second wrap arrives after the account's
    own copy. *)
Lemma C3_witness :
  calls (step ex_env (run ex_env ex_bus0 [Deliver ex_e1]).1 (Deliver ex_own)).2 = []
  ∧ inflight (step ex_env (run ex_env ex_bus0 [Deliver ex_e1]).1 (Deliver ex_own)).1
    = inflight (run ex_env ex_bus0 [Deliver ex_e1]).1.
Proof.
  apply (C3_own_rumor_never_calls ex_env _ ex_own
           {| r_id := Some (pretty (6 * 10 ^ 63)%N); r_kind := 14;
              r_pubkey := ex_pk; r_created_at := Some 1700000060;
              r_content := Some "hello" |}); reflexivity.
Defined.



(** C5.  A send to [R] relays, when no call of the library throws, starts
    exactly [2 * R] publishes: the wrap for the recipient to every relay,
    then the wrap for the sender to every relay; and it returns, however the
    promises of the publishes end: it throws only what a call of the
    library throws.  But it never reports anything: what [pool.publish]
    returns and the loops push is an array of promises, not a promise, so
    [Promise.allSettled] finds every item fulfilled and the aggregated error
    is never built, also when every publish fails. *)
Theorem C5_publish_failures_never_reported {RumorT Seal Wrap : Type}
  (getPublicKey : Uint8Array → Res string)
  (createRumor : ChatEvent → Uint8Array → Res RumorT)
  (createSeal : RumorT → Uint8Array → string → Res Seal)
  (createWrap : Seal → string → Res Wrap)
  (publish : nat → string → Wrap → Res (list Settled))
  sk toPubkey text relays now :
  let o := sendNip17Dm getPublicKey createRumor createSeal createWrap publish
             sk toPubkey text relays now in
  reported o = []
  ∧ (∀ pk rumor sealRecipient wrapForRecipient sealSelf wrapForSelf,
       getPublicKey sk = Ok pk →
       createRumor {| ce_kind := 14; ce_content := text;
                      ce_tags := [["p"; toPubkey]]; ce_created_at := now |} sk
       = Ok rumor →
       createSeal rumor sk toPubkey = Ok sealRecipient →
       createWrap sealRecipient toPubkey = Ok wrapForRecipient →
       createSeal rumor sk pk = Ok sealSelf →
       createWrap sealSelf pk = Ok wrapForSelf →
       (∀ n relay wrap, ∃ promises, publish n relay wrap = Ok promises) →
       published o
       = ((λ relay, (relay, wrapForRecipient)) <$> relays)
         ++ ((λ relay, (relay, wrapForSelf)) <$> relays)
       ∧ length (published o) = (2 * length relays)%nat
       ∧ completion o = Returned)
  ∧ (∀ m, completion o = Thrown m →
          giftWraps getPublicKey createRumor createSeal createWrap
            sk toPubkey text now = Throw m
          ∨ ∃ n relay wrap, publish n relay wrap = Throw m).
Proof.
  intros o. split_and!.
  - unfold o, sendNip17Dm.
    destruct (giftWraps _ _ _ _ sk toPubkey text now) as [wraps|m]; [|done].
    cbv zeta. destruct (thrown _); [done|]. cbn [reported].
    by rewrite push_all_no_failures.
  - intros pk rumor sealRecipient wrapForRecipient sealSelf wrapForSelf
      Hpk Hrumor HsealR HwrapR HsealS HwrapS Hpublish.
    assert (published o
            = ((λ relay, (relay, wrapForRecipient)) <$> relays)
              ++ ((λ relay, (relay, wrapForSelf)) <$> relays)
            ∧ completion o = Returned) as [Hpub Hret].
    { unfold o, sendNip17Dm, giftWraps.
      rewrite Hpk. cbn [Res_bind]. rewrite Hrumor. cbn [Res_bind].
      rewrite HsealR. cbn [Res_bind]. rewrite HwrapR. cbn [Res_bind].
      rewrite HsealS. cbn [Res_bind]. rewrite HwrapS. cbn [Res_bind].
      cbv zeta. rewrite (push_all_returns publish) by done.
      cbn [published completion]. split; [|done].
      destruct (push_all_made publish 0
                  (publishCalls [wrapForRecipient; wrapForSelf] relays))
        as [-> _]; [by apply push_all_returns|].
      apply publishCalls_two. }
    split_and!; [done| |done].
    rewrite Hpub, length_app, !length_fmap. lia.
  - intros m. unfold o, sendNip17Dm.
    destruct (giftWraps _ _ _ _ sk toPubkey text now) as [wraps|m'].
    2:{ intros [= <-]. by left. }
    cbv zeta.
    destruct (thrown (push_all publish 0 (publishCalls wraps relays)))
      as [m'|] eqn:Hthrown; [|done].
    intros [= <-]. right. by eapply push_all_thrown.
Qed.

(** C6, amended.  The subscription's [since] is
    [max(0, computeSinceTimestamp(state, gatewayStartedAt) - 172800)], and
    [computeSinceTimestamp] returns the persisted [lastProcessedAt] when a
    state was read and that number is not zero, and the gateway start time
    otherwise. *)
Theorem C6_since_lookback env state seen started :
  startNip17Bus env state seen true = Some started →
  since started
  = Z.max 0 (computeSinceTimestamp state (gatewayStartedAt env) - 172800)
  ∧ computeSinceTimestamp state (gatewayStartedAt env)
    = match state with
      | Some s =>
          if decide (s_lastProcessedAt s = 0) then gatewayStartedAt env
          else s_lastProcessedAt s
      | None => gatewayStartedAt env
      end.
Proof.
  intros Hstart. unfold startNip17Bus in Hstart. injection Hstart as <-.
  split; [done|]. unfold computeSinceTimestamp.
  destruct state as [s|]; [|done].
  case_bool_decide; case_decide; done.
Qed.

(** C6, amended, on the example bus restarted from a state file with
    [lastProcessedAt = 1690000000]. *)
Lemma C6_witness :
  since {| since := 1689827200; bus := ex_bus_restarted |}
  = Z.max 0 (computeSinceTimestamp (Some ex_state) (gatewayStartedAt ex_env)
             - 172800)
  ∧ computeSinceTimestamp (Some ex_state) (gatewayStartedAt ex_env)
    = 1690000000.
Proof.
  apply (C6_since_lookback ex_env (Some ex_state) []
           {| since := 1689827200; bus := ex_bus_restarted |}).
  reflexivity.
Defined.

(** C6 as stated fails on a state file whose [lastProcessedAt] is [0]: the
    watermark is present, yet the gateway start time is used. *)
Lemma C6_counterexample :
  ∃ started,
    startNip17Bus ex_env (Some ex_state_zero) [] true = Some started
    ∧ computeSinceTimestamp (Some ex_state_zero) (gatewayStartedAt ex_env)
      ≠ s_lastProcessedAt ex_state_zero
    ∧ since started ≠ Z.max 0 (s_lastProcessedAt ex_state_zero - 172800)
    ∧ since started = 1699827200.
Proof. eexists. split; [reflexivity|]. by split_and!. Qed.

(** C7.  The list the bus keeps obeys the cap, but what reaches the state
    file can exceed it.  On the bus of a first start, 4999 messages are
    handled one after the other.  The callbacks of the next two complete
    before the state write of the first of them is past [mkdir]; that write
    holds a reference to the array the second message is pushed onto before
    [slice] replaces it, and so it serialises all 5001 identifiers, one more
    than the cap, while the bus goes on with the last 5000. *)
Theorem C7_state_file_exceeds_cap :
  let b := (run ex_env ex_bus0
              (ex_handle_all (Z.to_nat 4999) ++ ex_overlap (Z.to_nat 4999))).1 in
  ∃ st,
    file b = Some st
    ∧ s_recentEventIds st = ex_msg_ids (Z.to_nat 4999 + 2)
    ∧ Z.of_nat (length (s_recentEventIds st)) = 5001
    ∧ MAX_PERSISTED_EVENT_IDS < Z.of_nat (length (s_recentEventIds st))
    ∧ deref (heap b) (recentEventIds b)
      = slice_last MAX_PERSISTED_EVENT_IDS (ex_msg_ids (Z.to_nat 4999 + 2))
    ∧ Z.of_nat (length (deref (heap b) (recentEventIds b))) = 5000.
Proof.
  assert (Z.of_nat (Z.to_nat 4999) = 4999) as Hk by lia.
  revert Hk. generalize (Z.to_nat 4999). intros k.
  intros Hk b. unfold b. rewrite run_app. cbn [fst].
  pose proof (ex_handle_all_handled k) as Hb.
  set (b0 := (run ex_env ex_bus0 (ex_handle_all k)).1) in *.
  specialize (Hb ltac:(lia)).
  destruct (ex_handled_fresh _ b0 k Hb) as [Hgw1 Hrk1]; [lia|].
  destruct (ex_handled_fresh _ b0 (S k) Hb) as [Hgw2 Hrk2]; [lia|].
  destruct Hb as (Hin & Hwr & Hheap & Hcur & (w & Hw & Hmark) & Hlen & Hkeys).
  assert (ex_msg_ids (k + 2)
          = ex_msg_ids k ++ [ev_id (ex_msg k); ev_id (ex_msg (S k))]) as Hids.
  { replace (k + 2)%nat with (S (S k)) by lia.
    by rewrite !ex_msg_ids_S, <-app_assoc. }
  destruct (overlap_persists_5001 ex_env b0
              (ex_msg k) (ex_msg_rumor k) (ex_msg (S k)) (ex_msg_rumor (S k))
              (ex_msg_ids k)) as [Hfile Hmem]; try done.
  - rewrite ex_msg_ids_length. lia.
  - intros Heq. apply ex_id_inj in Heq. lia.
  - intros Heq%ex_msg_rumorId_inj. lia.
  - rewrite Hlen. unfold GLOBAL_SEEN_MAX. lia.
  - unfold ex_msg_rumor. cbn [r_created_at].
    apply (newer_not_stale _ w); [done|lia].
  - unfold ex_msg_rumor. cbn [r_created_at].
    apply (newer_not_stale _ w); [done|lia].
  - unfold ex_overlap. rewrite Hfile, Hmem, <-Hids.
    eexists. split; [done|]. simpl s_recentEventIds.
    split_and!; try done.
    + rewrite ex_msg_ids_length. lia.
    + rewrite ex_msg_ids_length. unfold MAX_PERSISTED_EVENT_IDS. lia.
    + unfold slice_last. rewrite length_drop, ex_msg_ids_length.
      unfold MAX_PERSISTED_EVENT_IDS. lia.
Qed.

(** C8.  Starting empty, the ledger never holds more than 20000 keys after
    a [globalDedup] call, and a bus never takes it over 20000 either.  When
    adding a key makes it 20001, the oldest 4001 keys in insertion order go
    (a fifth of the ledger, to the next key) and 16000 stay, the new key
    among them. *)
Theorem C8_ledger_bounded :
  (∀ keys, Z.of_nat (length (dedup_all keys [])) ≤ GLOBAL_SEEN_MAX)
  ∧ (∀ env b inputs,
       ledger_ok (globalSeen b) →
       Z.of_nat (length (globalSeen (run env b inputs).1)) ≤ GLOBAL_SEEN_MAX)
  ∧ (∀ seen key,
       ledger_ok seen →
       Z.of_nat (length (globalDedup key seen).2) ≤ GLOBAL_SEEN_MAX
       ∧ (GLOBAL_SEEN_MAX < Z.of_nat (length (Set_add key seen)) →
          (globalDedup key seen).2 = drop (Z.to_nat 4001) (seen ++ [key])
          ∧ Z.of_nat (length (globalDedup key seen).2) = 16000
          ∧ Z.of_nat (length (globalDedup key seen).2)
            = floor_GLOBAL_SEEN_MAX_0_8)).
Proof.
  split.
  { intros keys. by destruct (dedup_all_ok keys [] ledger_ok_nil). }
  split.
  { intros env b inputs Hok.
    destruct (run_ledger env b inputs) as (keys & _ & ->).
    by destruct (dedup_all_ok keys _ Hok). }
  intros seen key Hok. split.
  { by destruct (globalDedup_ok key seen Hok). }
  destruct Hok as [Hnd Hlen]. unfold Set_add.
  destruct (Set_has key seen) eqn:Hhas; [lia|].
  apply Set_has_false in Hhas. rewrite length_app. simpl. intros Hbig.
  rewrite globalDedup_fresh_trim by (done || lia). simpl.
  assert (Z.of_nat (length seen) = 20000) as Hfull
    by (unfold GLOBAL_SEEN_MAX in *; lia).
  rewrite Hfull. split; [done|].
  rewrite length_drop, length_app, floor_GLOBAL_SEEN_MAX_0_8_eq. simpl. lia.
Qed.

(** C8, on the example bus after a delivery, and on a full ledger of 20000
    keys and one more key. *)
Lemma C8_witness :
  Z.of_nat (length (globalSeen (run ex_env ex_bus0 [Deliver ex_e1]).1))
  ≤ GLOBAL_SEEN_MAX
  ∧ Z.of_nat (length (globalDedup ("gw:" +:+ ex_id 20000) ex_full_ledger).2)
    ≤ GLOBAL_SEEN_MAX
  ∧ (globalDedup ("gw:" +:+ ex_id 20000) ex_full_ledger).2
    = drop (Z.to_nat 4001) (ex_full_ledger ++ ["gw:" +:+ ex_id 20000])
  ∧ Z.of_nat (length (globalDedup ("gw:" +:+ ex_id 20000) ex_full_ledger).2)
    = 16000.
Proof.
  split.
  { apply (proj1 (proj2 C8_ledger_bounded) ex_env ex_bus0 [Deliver ex_e1]).
    exact ledger_ok_nil. }
  destruct (proj2 (proj2 C8_ledger_bounded) ex_full_ledger
              ("gw:" +:+ ex_id 20000) ex_full_ledger_ok) as [Hle Htrim].
  split; [exact Hle|].
  destruct Htrim as (Heq & Hlen & _).
  - unfold Set_add.
    rewrite (proj2 (Set_has_false _ _) ex_full_ledger_fresh).
    rewrite length_app, Nat2Z.inj_add, ex_full_ledger_length.
    reflexivity.
  - split; [exact Heq|exact Hlen].
Defined.

(** C9.  With the library's codec the round trip fails on both forms of a
    key.  [nip19.decode] returns the key of an [npub] as a hex string;
    [normalizePubkey] treats it as bytes, and so turns every hex digit [c]
    into ["0c"].  From the hex form, normalising gives the key, encoding the
    [npub], and normalising that gives 128 characters instead of the key.
    From the [npub] form, the first normalising already gives the 128
    characters, which the encoder's own normalising then rejects. *)
Theorem C9_round_trip_breaks :
  Nip19.npubEncode ex_hex = Ok ex_npub
  ∧ Nip19.decode ex_npub
    = Ok {| d_type := "npub"; d_data := DataString ex_hex |}
  ∧ normalizePubkey Nip19.decode ex_hex = Ok ex_hex
  ∧ normalize_encode_normalize Nip19.decode Nip19.npubEncode ex_hex
    = Ok ex_npub_normalized
  ∧ normalizePubkey Nip19.decode ex_npub = Ok ex_npub_normalized
  ∧ normalize_encode_normalize Nip19.decode Nip19.npubEncode ex_npub
    = Throw "Pubkey must be 64 hex chars or npub format"
  ∧ ex_npub_normalized ≠ ex_hex.
Proof. split_and!; [by vm_compute..|]. intros H. discriminate H. Qed.

(** C10.  The handler puts [gw:<event.id>] into the ledger when it checks
    for a duplicate, before it unwraps and before it calls [onMessage]: the
    key is there after the delivery whatever became of the event.  A failed
    unwrap is reported and leaves the key in; a rejected callback is
    reported and does not touch the ledger.  For as long as the key stays
    in the ledger, a redelivery of the event is dropped at once: no unwrap,
    no callback, no change. *)
Theorem C10_failed_event_not_retried env b event :
  NoDup (globalSeen b) →
  (("gw:" +:+ ev_id event) ∈ globalSeen (step env b (Deliver event)).1)
  ∧ (("gw:" +:+ ev_id event) ∉ globalSeen b → ev_kind event = 1059 →
     unwrapEvent env event (sk env) = None →
     step env b (Deliver event)
     = (set_globalSeen (globalDedup ("gw:" +:+ ev_id event) (globalSeen b)).2 b,
        [CallOnError None ("unwrap gift wrap " +:+ ev_id event)]))
  ∧ (∀ b' i rumor,
       inflight b' !! i = Some (event, rumor) →
       step env b' (Settle i false)
       = (set_inflight (delete i (inflight b')) b',
          [CallOnError None ("event " +:+ ev_id event)]))
  ∧ (∀ b', ("gw:" +:+ ev_id event) ∈ globalSeen b' →
           step env b' (Deliver event) = (b', [])).
Proof.
  intros Hnd. split_and!.
  - by apply handleEvent_inserts.
  - intros Hfresh Hkind Hun. simpl. unfold handleEvent.
    pose proof (globalDedup_flag ("gw:" +:+ ev_id event) (globalSeen b)) as Hflag.
    destruct (globalDedup ("gw:" +:+ ev_id event) (globalSeen b)) as [dup seen1].
    simpl in *. rewrite (proj2 (Set_has_false _ _) Hfresh) in Hflag. subst dup.
    rewrite bool_decide_eq_false_2 by (by intros ?). by rewrite Hun.
  - intros b' i rumor Hi. simpl. by rewrite Hi.
  - intros b' Hin. by apply handleEvent_seen.
Qed.

(** C10, on the example bus: a wrap addressed to somebody else fails to
    unwrap, Alice's wrap has its callback rejected, and neither is taken up
    again when it is redelivered. *)
Lemma C10_witness :
  ((("gw:" +:+ ev_id (ex_noise 0))
      ∈ globalSeen (step ex_env ex_bus0 (Deliver (ex_noise 0))).1)
   ∧ (step ex_env ex_bus0 (Deliver (ex_noise 0))
      = (set_globalSeen
           (globalDedup ("gw:" +:+ ev_id (ex_noise 0)) (globalSeen ex_bus0)).2
           ex_bus0,
         [CallOnError None ("unwrap gift wrap " +:+ ev_id (ex_noise 0))]))
   ∧ (step ex_env (step ex_env ex_bus0 (Deliver (ex_noise 0))).1
        (Deliver (ex_noise 0))
      = ((step ex_env ex_bus0 (Deliver (ex_noise 0))).1, [])))
  ∧ (step ex_env (step ex_env ex_bus0 (Deliver ex_e1)).1 (Settle 0 false)
     = (set_inflight
          (delete 0%nat (inflight (step ex_env ex_bus0 (Deliver ex_e1)).1))
          (step ex_env ex_bus0 (Deliver ex_e1)).1,
        [CallOnError None ("event " +:+ ev_id ex_e1)]))
  ∧ (step ex_env
       (step ex_env (step ex_env ex_bus0 (Deliver ex_e1)).1 (Settle 0 false)).1
       (Deliver ex_e1)
     = ((step ex_env (step ex_env ex_bus0 (Deliver ex_e1)).1 (Settle 0 false)).1,
        [])).
Proof.
  pose proof (C10_failed_event_not_retried ex_env ex_bus0 (ex_noise 0)
                (NoDup_nil_2 (A:=string))) as (H1 & H2 & _ & H4).
  pose proof (C10_failed_event_not_retried ex_env ex_bus0 ex_e1
                (NoDup_nil_2 (A:=string))) as (_ & _ & H3' & H4').
  split; [split_and!|split].
  - exact H1.
  - apply H2; [apply not_elem_of_nil|reflexivity|reflexivity].
  - apply H4. exact H1.
  - apply (H3' _ 0%nat
             {| r_id := Some ex_rumor_id; r_kind := 14; r_pubkey := ex_alice;
                r_created_at := Some 1700000050; r_content := Some "hello" |}).
    reflexivity.
  - apply H4'. vm_compute. apply list_elem_of_here.
Defined.

(** * Further properties of the code *)

(** ** Strings *)

Lemma chars_inj s1 s2 :
  String.list_ascii_of_string s1 = String.list_ascii_of_string s2 → s1 = s2.
Proof.
  intros H.
  rewrite <-(String.string_of_list_ascii_of_string s1), H.
  apply String.string_of_list_ascii_of_string.
Qed.

Lemma chars_app s1 s2 :
  String.list_ascii_of_string (s1 +:+ s2)
  = String.list_ascii_of_string s1 ++ String.list_ascii_of_string s2.
Proof. induction s1 as [|c s1 IH]; simpl; [done|]. by rewrite IH. Qed.

Lemma chars_rev_app s1 s2 :
  String.list_ascii_of_string (String.rev_app s1 s2)
  = reverse (String.list_ascii_of_string s1) ++ String.list_ascii_of_string s2.
Proof.
  revert s2. induction s1 as [|c s1 IH]; intros s2; simpl; [done|].
  rewrite IH, reverse_cons, <-app_assoc. done.
Qed.

Lemma chars_rev s :
  String.list_ascii_of_string (String.rev s)
  = reverse (String.list_ascii_of_string s).
Proof. unfold String.rev. rewrite chars_rev_app. simpl. by rewrite app_nil_r. Qed.

Lemma String_rev_involutive s : String.rev (String.rev s) = s.
Proof. apply chars_inj. by rewrite !chars_rev, reverse_involutive. Qed.

Lemma chars_length s :
  length (String.list_ascii_of_string s) = String.length s.
Proof. induction s as [|c s IH]; simpl; [done|]. by rewrite IH. Qed.

(** [trimStart] takes white space off the front, and nothing else. *)
Lemma trimStart_split s :
  ∃ sp, String.list_ascii_of_string s
        = sp ++ String.list_ascii_of_string (trimStart s)
        ∧ Forall (λ c, is_js_space c = true) sp.
Proof.
  induction s as [|c s [sp [Heq Hsp]]]; simpl.
  - by exists [].
  - destruct (is_js_space c) eqn:Hc.
    + exists (c :: sp). split; [by rewrite Heq|by constructor].
    + by exists [].
Qed.

Lemma trimStart_head s c r : trimStart s = String c r → is_js_space c = false.
Proof.
  induction s as [|c' s IH]; simpl; [done|].
  destruct (is_js_space c') eqn:Hc; [done|]. by intros [= <- _].
Qed.

Lemma trimStart_fixed s :
  (∀ c r, s = String c r → is_js_space c = false) → trimStart s = s.
Proof.
  destruct s as [|c r]; simpl; [done|]. intros H. by rewrite (H c r).
Qed.

(** The white space that [trim] takes off either end. *)
Lemma trim_split s :
  ∃ sp1 sp2,
    String.list_ascii_of_string s
    = sp1 ++ String.list_ascii_of_string (trim s) ++ sp2
    ∧ Forall (λ c, is_js_space c = true) sp1
    ∧ Forall (λ c, is_js_space c = true) sp2.
Proof.
  destruct (trimStart_split s) as (sp1 & H1 & Hsp1).
  destruct (trimStart_split (String.rev (trimStart s))) as (sp2 & H2 & Hsp2).
  exists sp1, (reverse sp2). split_and!; [|done|by apply Forall_reverse].
  rewrite H1. f_equal. unfold trim.
  rewrite chars_rev, <-reverse_app, <-H2, chars_rev, reverse_involutive. done.
Qed.

Lemma trim_head s c r : trim s = String c r → is_js_space c = false.
Proof.
  intros H.
  destruct (trimStart_split s) as (sp1 & H1 & Hsp1).
  destruct (trimStart_split (String.rev (trimStart s))) as (sp2 & H2 & Hsp2).
  assert (String.list_ascii_of_string (trimStart s)
          = String.list_ascii_of_string (trim s) ++ reverse sp2) as Ht.
  { unfold trim.
    rewrite chars_rev, <-reverse_app, <-H2, chars_rev, reverse_involutive. done. }
  rewrite H in Ht. simpl in Ht.
  destruct (trimStart s) as [|c' r'] eqn:Hs; [done|].
  simpl in Ht. injection Ht as -> _. by eapply trimStart_head.
Qed.

Lemma trim_last s l c :
  String.list_ascii_of_string (trim s) = l ++ [c] → is_js_space c = false.
Proof.
  unfold trim. rewrite chars_rev. intros H.
  apply (f_equal reverse) in H.
  rewrite reverse_involutive, reverse_app in H. simpl in H.
  destruct (trimStart (String.rev (trimStart s))) as [|c' r'] eqn:Hs; [done|].
  simpl in H. injection H as -> _. by eapply trimStart_head.
Qed.

Lemma trim_fixed s :
  (∀ c r, s = String c r → is_js_space c = false) →
  (∀ l c, String.list_ascii_of_string s = l ++ [c] → is_js_space c = false) →
  trim s = s.
Proof.
  intros Hhead Hlast. unfold trim.
  rewrite (trimStart_fixed s) by done.
  rewrite (trimStart_fixed (String.rev s)); [apply String_rev_involutive|].
  intros c r Hr. apply (f_equal String.list_ascii_of_string) in Hr.
  rewrite chars_rev in Hr. simpl in Hr.
  apply (f_equal reverse) in Hr.
  rewrite reverse_involutive, reverse_cons in Hr. by eapply Hlast.
Qed.

Lemma trim_idemp s : trim (trim s) = trim s.
Proof. apply trim_fixed; [apply trim_head|apply trim_last]. Qed.

(** *** Hexadecimal strings *)

Lemma is_hex_digit_not_space c : is_hex_digit c = true → is_js_space c = false.
Proof. destruct c as [[] [] [] [] [] [] [] []]; by vm_compute. Qed.

Lemma is_hex_digit_lower c : is_hex_digit (lower_char c) = is_hex_digit c.
Proof. destruct c as [[] [] [] [] [] [] [] []]; by vm_compute. Qed.

Lemma lower_char_idemp c : lower_char (lower_char c) = lower_char c.
Proof. destruct c as [[] [] [] [] [] [] [] []]; by vm_compute. Qed.

Lemma chars_toLowerCase s :
  String.list_ascii_of_string (toLowerCase s)
  = lower_char <$> String.list_ascii_of_string s.
Proof. induction s as [|c s IH]; simpl; [done|]. by rewrite IH. Qed.

Lemma toLowerCase_idemp s : toLowerCase (toLowerCase s) = toLowerCase s.
Proof.
  induction s as [|c s IH]; simpl; [done|]. by rewrite lower_char_idemp, IH.
Qed.

Lemma toLowerCase_length s : String.length (toLowerCase s) = String.length s.
Proof. induction s as [|c s IH]; simpl; [done|]. by rewrite IH. Qed.

Lemma test_hex64_spec s :
  test_hex64 s = true
  ↔ String.length s = 64%nat
    ∧ Forall (λ c, is_hex_digit c = true) (String.list_ascii_of_string s).
Proof.
  unfold test_hex64. rewrite andb_true_iff, bool_decide_eq_true.
  rewrite forallb_forall, Forall_forall.
  split; intros [? H]; (split; [done|]); intros c Hc;
    apply H; by apply list_elem_of_In.
Qed.

Lemma test_hex64_toLowerCase s : test_hex64 (toLowerCase s) = test_hex64 s.
Proof.
  unfold test_hex64. rewrite toLowerCase_length. f_equal.
  rewrite chars_toLowerCase.
  induction (String.list_ascii_of_string s) as [|c l IH]; [done|].
  rewrite fmap_cons. cbn [forallb]. by rewrite is_hex_digit_lower, IH.
Qed.

Lemma test_hex64_trim s : test_hex64 s = true → trim s = s.
Proof.
  intros [_ Hhex]%test_hex64_spec. rewrite Forall_forall in Hhex.
  apply trim_fixed.
  - intros c r ->. apply is_hex_digit_not_space, Hhex. simpl. left.
  - intros l c Hl. apply is_hex_digit_not_space, Hhex. rewrite Hl.
    apply elem_of_app. right. left.
Qed.

Lemma startsWith_cons s p c :
  startsWith s (String c p) = true → ∃ r, s = String c r ∧ startsWith r p = true.
Proof.
  unfold startsWith. destruct s as [|c' r]; simpl; [done|].
  destruct (Ascii.ascii_dec c c') as [->|]; [|done]. by exists r.
Qed.

Lemma test_hex64_not_prefixed s c p :
  is_hex_digit c = false → test_hex64 s = true → startsWith s (String c p) = false.
Proof.
  intros Hc [_ Hhex]%test_hex64_spec.
  destruct (startsWith s (String c p)) eqn:Hs; [|done].
  apply startsWith_cons in Hs as (r & -> & _).
  apply Forall_cons in Hhex as [Hhex _]. congruence.
Qed.

(** ** Keys *)

Lemma String_append_nil_r s : s +:+ "" = s.
Proof.
  induction s as [|c s IH]; [done|].
  change (String c (s +:+ "") = String c s). by rewrite IH.
Qed.

Lemma concat_empty_cons x xs :
  String.concat "" (x :: xs) = x +:+ String.concat "" xs.
Proof. destruct xs; [|done]. simpl. by rewrite String_append_nil_r. Qed.

Lemma substring_0_0 s : String.substring 0 0 s = "".
Proof. by destruct s. Qed.

(** Two hex digits, read by [parseInt], kept by the byte array and written
    back in base 16, are the same two digits in lower case. *)
Lemma hex_pair_render h l :
  is_hex_digit h = true → is_hex_digit l = true →
  (0 <=? ToUint8 (parseInt16 (String h (String l ""))))
  && (ToUint8 (parseInt16 (String h (String l ""))) <? 256) = true
  ∧ padStart2 (byte_toString16 (ToUint8 (parseInt16 (String h (String l "")))))
    = String (lower_char h) (String (lower_char l) "").
Proof.
  destruct h as [[] [] [] [] [] [] [] []];
    intros Hh; vm_compute in Hh; try discriminate Hh; clear Hh;
    destruct l as [[] [] [] [] [] [] [] []];
    intros Hl; vm_compute in Hl; try discriminate Hl; clear Hl;
    vm_compute; done.
Qed.

Lemma hex_pairs_render n s :
  String.length s = (2 * n)%nat →
  Forall (λ c, is_hex_digit c = true) (String.list_ascii_of_string s) →
  Forall (λ b, 0 ≤ b < 256)
    ((λ i, ToUint8 (parseInt16 (String.substring (i * 2) 2 s))) <$> seq 0 n)
  ∧ String.concat ""
      ((λ b, padStart2 (byte_toString16 b))
         <$> ((λ i, ToUint8 (parseInt16 (String.substring (i * 2) 2 s)))
                <$> seq 0 n))
    = toLowerCase s.
Proof.
  revert s. induction n as [|n IH]; intros s Hlen Hhex.
  { destruct s; [|done]. split; [constructor|done]. }
  destruct s as [|h [|l r]]; [done|simpl in Hlen; lia|].
  simpl in Hlen.
  apply Forall_cons in Hhex as [Hh Hhex].
  apply Forall_cons in Hhex as [Hl Hhex].
  destruct (IH r) as [IHb IHs]; [lia|done|].
  destruct (hex_pair_render h l Hh Hl) as [Hv Hp].
  apply andb_true_iff in Hv as [Hv1%Z.leb_le Hv2%Z.ltb_lt].
  assert ((λ i, ToUint8 (parseInt16
                  (String.substring (i * 2) 2 (String h (String l r)))))
            <$> seq 1 n
          = (λ i, ToUint8 (parseInt16 (String.substring (i * 2) 2 r)))
              <$> seq 0 n) as Hshift.
  { rewrite <-fmap_S_seq, <-list_fmap_compose. done. }
  cbn [seq]. rewrite !fmap_cons, Hshift.
  change (String.substring (0 * 2) 2 (String h (String l r)))
    with (String h (String l (String.substring 0 0 r))).
  rewrite substring_0_0.
  split; [by constructor|].
  rewrite concat_empty_cons, Hp, IHs. done.
Qed.

(** X1.  A private key given as 64 hex digits, in either case and with
    white space around it, is read as 32 bytes whose hex form, written the
    way [normalizePubkey] writes bytes, is the key in lower case. *)
Theorem validatePrivateKey_hex_bytes decode key :
  test_hex64 (trim key) = true →
  ∃ bytes,
    validatePrivateKey decode key = Ok (DataBytes bytes)
    ∧ length bytes = 32%nat
    ∧ Forall (λ b, 0 ≤ b < 256) bytes
    ∧ String.concat "" (Array_from_hexpad (DataBytes bytes))
      = toLowerCase (trim key).
Proof.
  intros Hhex. unfold validatePrivateKey.
  rewrite (test_hex64_not_prefixed (trim key) "n" "sec1") by done.
  rewrite Hhex. cbn [negb].
  apply test_hex64_spec in Hhex as [Hlen Hhex].
  destruct (hex_pairs_render 32 (trim key) Hlen Hhex) as [Hb Hs].
  eexists. split_and!; [reflexivity| |exact Hb|exact Hs].
  by rewrite length_fmap, length_seq.
Qed.

Lemma validatePrivateKey_hex_bytes_witness :
  test_hex64 (trim ex_private_key_typed) = true
  ∧ ∃ bytes,
      validatePrivateKey Nip19.decode ex_private_key_typed
      = Ok (DataBytes bytes)
      ∧ length bytes = 32%nat
      ∧ Forall (λ b, 0 ≤ b < 256) bytes
      ∧ String.concat "" (Array_from_hexpad (DataBytes bytes))
        = toLowerCase (trim ex_private_key_typed).
Proof.
  split; [reflexivity|].
  apply (validatePrivateKey_hex_bytes Nip19.decode ex_private_key_typed).
  reflexivity.
Defined.

Lemma normalizePubkey_hex decode x :
  test_hex64 (trim x) = true →
  normalizePubkey decode x = Ok (toLowerCase (trim x)).
Proof.
  intros Hhex. unfold normalizePubkey.
  rewrite (test_hex64_not_prefixed (trim x) "n" "pub1") by done.
  by rewrite Hhex.
Qed.

(** X2.  A public key given as 64 hex digits normalises to the same digits
    in lower case, whatever the library's decoder does; the result is again
    64 hex digits and normalising it changes nothing. *)
Theorem normalizePubkey_hex_canonical decode x :
  test_hex64 (trim x) = true →
  normalizePubkey decode x = Ok (toLowerCase (trim x))
  ∧ test_hex64 (toLowerCase (trim x)) = true
  ∧ normalizePubkey decode (toLowerCase (trim x)) = Ok (toLowerCase (trim x)).
Proof.
  intros Hhex.
  assert (test_hex64 (toLowerCase (trim x)) = true) as Hlow
    by by rewrite test_hex64_toLowerCase.
  split_and!; [by apply normalizePubkey_hex|done|].
  rewrite normalizePubkey_hex by by rewrite (test_hex64_trim _ Hlow).
  by rewrite (test_hex64_trim _ Hlow), toLowerCase_idemp.
Qed.

Lemma normalizePubkey_hex_canonical_witness :
  test_hex64 (trim ex_hex_typed) = true
  ∧ normalizePubkey Nip19.decode ex_hex_typed = Ok (toLowerCase (trim ex_hex_typed))
  ∧ test_hex64 (toLowerCase (trim ex_hex_typed)) = true
  ∧ normalizePubkey Nip19.decode (toLowerCase (trim ex_hex_typed))
    = Ok (toLowerCase (trim ex_hex_typed)).
Proof.
  split; [reflexivity|].
  apply (normalizePubkey_hex_canonical Nip19.decode ex_hex_typed).
  reflexivity.
Defined.

(** X3.  White space around the input never matters: the key functions
    give the same result on an input and on the input trimmed. *)
Theorem key_functions_ignore_white_space decode x :
  normalizePubkey decode (trim x) = normalizePubkey decode x
  ∧ validatePrivateKey decode (trim x) = validatePrivateKey decode x
  ∧ isValidPubkey decode (JsString (trim x)) = isValidPubkey decode (JsString x)
  ∧ looksLikeId (trim x) = looksLikeId x.
Proof.
  unfold normalizePubkey, validatePrivateKey, isValidPubkey, looksLikeId.
  by rewrite !trim_idemp.
Qed.

(** X4.  [isValidPubkey] accepts exactly what [normalizePubkey] accepts,
    and besides any input in [npub1...] form that the library decodes to
    something that is not an [npub]; it accepts nothing that is not a
    string.  What it accepts, [looksLikeId] accepts as well. *)
Theorem isValidPubkey_normalizePubkey decode x :
  (isValidPubkey decode (JsString x) = true
   ↔ (∃ h, normalizePubkey decode x = Ok h)
     ∨ (startsWith (trim x) "npub1" = true
        ∧ ∃ d, decode (trim x) = Ok d ∧ d_type d ≠ "npub"))
  ∧ isValidPubkey decode JsOther = false
  ∧ (isValidPubkey decode (JsString x) = true → looksLikeId x = true).
Proof.
  split_and!; [|done|].
  - unfold isValidPubkey, normalizePubkey.
    destruct (startsWith (trim x) "npub1") eqn:Hpre.
    + destruct (decode (trim x)) as [d|m] eqn:Hdec; cbn [Res_bind].
      * split; [intros _|done].
        case_bool_decide as Hty.
        -- right. split; [done|]. by exists d.
        -- left. by eexists.
      * split; [done|]. intros [[h [=]]|[_ (d & [=] & _)]].
    + destruct (test_hex64 (trim x)) eqn:Hhex; cbn [negb].
      * split; [intros _|done]. left. by eexists.
      * split; [done|]. intros [[h [=]]|[[=] _]].
  - unfold isValidPubkey, looksLikeId.
    destruct (startsWith (trim x) "npub1"); [done|]. by intros ->.
Qed.

(** ** Allow-list entries and targets *)

Lemma substring_0_length s : String.substring 0 (String.length s) s = s.
Proof. induction s as [|c s IH]; [done|]. simpl. by rewrite IH. Qed.

Lemma replace_nostr_prefix_nostr x : replace_nostr_prefix ("nostr:" +:+ x) = x.
Proof.
  unfold replace_nostr_prefix.
  change (String.substring 0 6 ("nostr:" +:+ x))
    with (String "n" (String "o" (String "s" (String "t" (String "r"
            (String ":" (String.substring 0 0 x))))))).
  rewrite substring_0_0, bool_decide_eq_true_2 by done.
  change (String.substring 6 (String.length ("nostr:" +:+ x) - 6) ("nostr:" +:+ x))
    with (String.substring 0 (String.length x - 0) x).
  by rewrite Nat.sub_0_r, substring_0_length.
Qed.

(** What [trim] leaves of a string that starts with a character that is
    not white space starts with the same characters, up to the first white
    space. *)
Lemma trim_keeps_front c s :
  is_js_space c = false →
  ∃ sp, String.list_ascii_of_string (String c s)
        = String.list_ascii_of_string (trim (String c s)) ++ sp
        ∧ Forall (λ c, is_js_space c = true) sp.
Proof.
  intros Hc. destruct (trim_split (String c s)) as (sp1 & sp2 & Heq & Hsp1 & Hsp2).
  destruct sp1 as [|c' sp1].
  - by exists sp2.
  - simpl in Heq. injection Heq as <- _.
    apply Forall_cons in Hsp1 as [Hsp1 _]. congruence.
Qed.

(** X5.  A target written with the [nostr:] prefix is never taken for an
    identifier by [looksLikeId], although [normalizeTarget] takes the prefix
    off and, when 64 hex digits follow, returns the key. *)
Theorem nostr_prefix_target decode x :
  looksLikeId ("nostr:" +:+ x) = false
  ∧ (test_hex64 (trim x) = true →
     normalizeTarget decode ("nostr:" +:+ x) = toLowerCase (trim x)).
Proof.
  split.
  - unfold looksLikeId.
    destruct (trim_keeps_front "n" ("ostr:" +:+ x)) as (sp & Heq & _); [done|].
    change (String "n" ("ostr:" +:+ x)) with ("nostr:" +:+ x) in Heq.
    apply orb_false_intro.
    + destruct (startsWith (trim ("nostr:" +:+ x)) "npub1") eqn:Hpre; [|done].
      apply startsWith_cons in Hpre as (r & Hr & Hpre).
      apply startsWith_cons in Hpre as (r' & -> & _).
      rewrite Hr in Heq. simpl in Heq. discriminate Heq.
    + destruct (test_hex64 (trim ("nostr:" +:+ x))) eqn:Hhex; [|done].
      apply test_hex64_spec in Hhex as [Hlen Hhex].
      destruct (trim ("nostr:" +:+ x)) as [|c r]; [done|].
      simpl in Heq. injection Heq as <- _.
      apply Forall_cons in Hhex as [Hhex _]. done.
  - intros Hhex. unfold normalizeTarget.
    rewrite replace_nostr_prefix_nostr, normalizePubkey_hex
      by by rewrite trim_idemp.
    by rewrite trim_idemp.
Qed.

Lemma nostr_prefix_target_witness :
  looksLikeId ("nostr:" +:+ ex_hex_typed) = false
  ∧ test_hex64 (trim ex_hex_typed) = true
  ∧ normalizeTarget Nip19.decode ("nostr:" +:+ ex_hex_typed)
    = toLowerCase (trim ex_hex_typed).
Proof.
  destruct (nostr_prefix_target Nip19.decode ex_hex_typed) as [H1 H2].
  split; [exact H1|]. split; [reflexivity|]. apply H2. reflexivity.
Defined.

(** X6.  The three normalisers of an entry never throw.  When what is left
    after the [nostr:] prefix normalises to a key, all three return that
    key.  When it does not, each falls back on something else: the entry as
    it is, the entry trimmed, the entry without prefix and trimmed. *)
Theorem entry_normalisers decode x :
  (∀ h, normalizePubkey decode (replace_nostr_prefix x) = Ok h →
        normalizeAllowEntry decode x = h
        ∧ normalizeEntry decode x = h
        ∧ normalizeTarget decode x = h)
  ∧ (∀ m, normalizePubkey decode (replace_nostr_prefix x) = Throw m →
          normalizeAllowEntry decode x = x
          ∧ normalizeEntry decode x = trim x
          ∧ normalizeTarget decode x = trim (replace_nostr_prefix x)).
Proof.
  assert (normalizePubkey decode (trim (replace_nostr_prefix x))
          = normalizePubkey decode (replace_nostr_prefix x)) as Htrim
    by (unfold normalizePubkey; by rewrite trim_idemp).
  unfold normalizeAllowEntry, normalizeEntry, normalizeTarget.
  rewrite Htrim. split; intros ? ->; done.
Qed.

Lemma entry_normalisers_witness :
  (normalizePubkey Nip19.decode (replace_nostr_prefix ("NOSTR:" +:+ ex_hex_typed))
   = Ok ex_hex
   ∧ normalizeAllowEntry Nip19.decode ("NOSTR:" +:+ ex_hex_typed) = ex_hex
   ∧ normalizeEntry Nip19.decode ("NOSTR:" +:+ ex_hex_typed) = ex_hex
   ∧ normalizeTarget Nip19.decode ("NOSTR:" +:+ ex_hex_typed) = ex_hex)
  ∧ (normalizePubkey Nip19.decode (replace_nostr_prefix " nostr:bob ")
     = Throw "Pubkey must be 64 hex chars or npub format"
     ∧ normalizeAllowEntry Nip19.decode " nostr:bob " = " nostr:bob "
     ∧ normalizeEntry Nip19.decode " nostr:bob " = trim " nostr:bob "
     ∧ normalizeTarget Nip19.decode " nostr:bob "
       = trim (replace_nostr_prefix " nostr:bob ")).
Proof.
  split.
  - split; [by vm_compute|].
    apply (proj1 (entry_normalisers Nip19.decode ("NOSTR:" +:+ ex_hex_typed))).
    by vm_compute.
  - split; [by vm_compute|].
    apply (proj2 (entry_normalisers Nip19.decode " nostr:bob ")
             "Pubkey must be 64 hex chars or npub format").
    by vm_compute.
Defined.

(** X7.  The formatted allow list holds no empty entry.  An entry that is
    a star stays a star, 64 hex digits come out in lower case, and an entry
    that is not a key comes out as written, trimmed. *)
Theorem formatAllowFrom_entries decode {Entry : Type} (String_ : Entry → string)
    (allowFrom : list Entry) :
  ("" ∉ formatAllowFrom decode String_ allowFrom)
  ∧ (∀ e, e ∈ allowFrom → trim (String_ e) = "*" →
          "*" ∈ formatAllowFrom decode String_ allowFrom)
  ∧ (∀ e, e ∈ allowFrom → test_hex64 (trim (String_ e)) = true →
          toLowerCase (trim (String_ e))
          ∈ formatAllowFrom decode String_ allowFrom)
  ∧ (∀ e m, e ∈ allowFrom → trim (String_ e) ≠ "" →
            normalizePubkey decode (trim (String_ e)) = Throw m →
            trim (String_ e) ∈ formatAllowFrom decode String_ allowFrom).
Proof.
  unfold formatAllowFrom. split_and!.
  - intros [H _]%list_elem_of_filter. done.
  - intros e He Hstar.
    apply list_elem_of_filter. split; [done|].
    apply list_elem_of_fmap. exists "*". split; [done|].
    apply list_elem_of_filter. split; [done|].
    apply list_elem_of_fmap. by exists e.
  - intros e He Hhex.
    assert (trim (String_ e) ≠ "") as Hne.
    { intros Heq. by rewrite Heq in Hhex. }
    assert (toLowerCase (trim (String_ e)) ≠ "") as Hne'.
    { intros Heq. rewrite <-test_hex64_toLowerCase, Heq in Hhex. done. }
    apply list_elem_of_filter. split; [done|].
    apply list_elem_of_fmap. exists (trim (String_ e)). split.
    + rewrite bool_decide_eq_false_2.
      * rewrite normalizePubkey_hex by by rewrite trim_idemp.
        by rewrite trim_idemp.
      * intros Heq. by rewrite Heq in Hhex.
    + apply list_elem_of_filter. split; [done|].
      apply list_elem_of_fmap. by exists e.
  - intros e m He Hne Hthrow.
    apply list_elem_of_filter. split; [done|].
    apply list_elem_of_fmap. exists (trim (String_ e)). split.
    + case_bool_decide as Hstar; [done|]. by rewrite Hthrow.
    + apply list_elem_of_filter. split; [done|].
      apply list_elem_of_fmap. by exists e.
Qed.

(** ** Accounts *)

Lemma account_entry_Some {A : Type} (accounts : list (string * A)) id v :
  account_entry accounts id = Some v → id ∈ accounts.*1.
Proof.
  induction accounts as [|[k w] accounts IH]; simpl; [done|].
  case_bool_decide as Hk; [intros _; subst; left|].
  intros H. right. by apply IH.
Qed.

Lemma account_entry_None {A : Type} (accounts : list (string * A)) id :
  account_entry accounts id = None ↔ id ∉ accounts.*1.
Proof.
  induction accounts as [|[k w] accounts IH]; simpl.
  - split; [intros _; apply not_elem_of_nil|done].
  - rewrite not_elem_of_cons. case_bool_decide as Hk.
    + split; [done|]. intros [Hne _]. by subst.
    + rewrite IH. split; [by split|by intros [_ ?]].
Qed.

Lemma listNip17AccountIds_in {Entry : Type}
    (sort : list string → list string) (cfg : OpenClawConfig Entry) :
  (∀ l, sort l ≡ₚ l) →
  ∀ id, id ∈ listNip17AccountIds sort cfg
    ↔ ∃ c, channels_nostr_nip17 cfg = Some c
         ∧ ((id ≠ ""
             ∧ ∃ accounts, cfg_accounts c = Some accounts ∧ id ∈ accounts.*1)
            ∨ (id = DEFAULT_ACCOUNT_ID
               ∧ truthy (c_privateKey (cfg_base c)) = true)).
Proof.
  intros Hsort. unfold listNip17AccountIds, getNip17ChannelConfig.
  destruct (channels_nostr_nip17 cfg) as [c|] eqn:Hc.
  2:{ intros id. split; [by intros ?%elem_of_nil|by intros (? & [=] & _)]. }
  assert (∀ id, id ∈ (if truthy (c_privateKey (cfg_base c))
                      then [DEFAULT_ACCOUNT_ID] else [])
                ↔ id = DEFAULT_ACCOUNT_ID
                  ∧ truthy (c_privateKey (cfg_base c)) = true) as Hsingle.
  { intros id. destruct (truthy (c_privateKey (cfg_base c))).
    - rewrite list_elem_of_singleton. split; [done|by intros [? _]].
    - split; [by intros ?%elem_of_nil|by intros [_ ?]]. }
  assert (NoDup (if truthy (c_privateKey (cfg_base c))
                 then [DEFAULT_ACCOUNT_ID] else [])) as Hsingle_nd.
  { destruct (truthy (c_privateKey (cfg_base c)));
      [apply NoDup_singleton|constructor]. }
  destruct (cfg_accounts c) as [accounts|] eqn:Hacc.
  2:{ intros id. rewrite Hsingle. split.
      - intros H. exists c. split; [done|]. by right.
      - intros (c' & [= <-] & [[_ (a & Ha & _)]|H]); [congruence|done]. }
  assert (∀ id, id ∈ filter (λ k, k ≠ "") accounts.*1
                ↔ id ≠ "" ∧ id ∈ accounts.*1) as Hids
    by (intros id; by rewrite list_elem_of_filter).
  assert (∀ id,
            (∃ c', Some c = Some c'
               ∧ ((id ≠ ""
                   ∧ ∃ a, cfg_accounts c' = Some a ∧ id ∈ a.*1)
                  ∨ (id = DEFAULT_ACCOUNT_ID
                     ∧ truthy (c_privateKey (cfg_base c')) = true)))
            ↔ id ∈ filter (λ k, k ≠ "") accounts.*1
              ∨ (id = DEFAULT_ACCOUNT_ID
                 ∧ truthy (c_privateKey (cfg_base c)) = true)) as Hrhs.
  { intros id. rewrite Hids. split.
    - intros (c' & [= <-] & [[Hne (a & Ha & Hin)]|H]); [left|by right].
      rewrite Hacc in Ha. injection Ha as <-. done.
    - intros [[Hne Hin]|H]; exists c; (split; [done|]); [left|by right].
      split; [done|]. by exists accounts. }
  intros id. rewrite Hrhs. clear Hrhs.
  case_bool_decide as Hlen.
  - destruct (truthy (c_privateKey (cfg_base c))) eqn:Hpk; cbn [andb];
      [case_bool_decide as Hdef; cbn [negb]|]; rewrite Hsort.
    + split; [by left|]. intros [H|[-> _]]; done.
    + rewrite elem_of_cons. split; [intros [->|H]; [by right|by left]|].
      intros [H|[-> _]]; [by right|by left].
    + split; [by left|]. intros [H|[_ [=]]]; done.
  - assert (filter (λ k, k ≠ "") accounts.*1 = []) as ->.
    { destruct (filter (λ k, k ≠ "") accounts.*1); [done|].
      simpl in Hlen. lia. }
    rewrite Hsingle. split; [by right|].
    intros [H%elem_of_nil|H]; done.
Qed.

Lemma listNip17AccountIds_NoDup {Entry : Type}
    (sort : list string → list string) (cfg : OpenClawConfig Entry) :
  (∀ l, sort l ≡ₚ l) →
  (∀ c accounts, channels_nostr_nip17 cfg = Some c →
                 cfg_accounts c = Some accounts → NoDup accounts.*1) →
  NoDup (listNip17AccountIds sort cfg).
Proof.
  intros Hsort Hnd. unfold listNip17AccountIds, getNip17ChannelConfig.
  destruct (channels_nostr_nip17 cfg) as [c|] eqn:Hc; [|constructor].
  assert (NoDup (if truthy (c_privateKey (cfg_base c))
                 then [DEFAULT_ACCOUNT_ID] else [])) as Hsingle_nd.
  { destruct (truthy (c_privateKey (cfg_base c)));
      [apply NoDup_singleton|constructor]. }
  destruct (cfg_accounts c) as [accounts|] eqn:Hacc; [|done].
  specialize (Hnd c accounts eq_refl Hacc).
  case_bool_decide as Hlen; [|done].
  destruct (truthy (c_privateKey (cfg_base c))) eqn:Hpk; cbn [andb];
    [case_bool_decide as Hdef; cbn [negb]|]; rewrite Hsort.
  - by apply NoDup_filter.
  - apply NoDup_cons. split; [done|]. by apply NoDup_filter.
  - by apply NoDup_filter.
Qed.

(** X8.  The listed account identifiers are the keys of [accounts] that
    are not empty, and ["default"] when the top level has a private key that
    is not empty; nothing else.  No identifier is listed twice. *)
Theorem listNip17AccountIds_elem {Entry : Type}
    (sort : list string → list string) (cfg : OpenClawConfig Entry) :
  (∀ l, sort l ≡ₚ l) →
  (∀ id, id ∈ listNip17AccountIds sort cfg
     ↔ ∃ c, channels_nostr_nip17 cfg = Some c
          ∧ ((id ≠ ""
              ∧ ∃ accounts, cfg_accounts c = Some accounts ∧ id ∈ accounts.*1)
             ∨ (id = DEFAULT_ACCOUNT_ID
                ∧ truthy (c_privateKey (cfg_base c)) = true)))
  ∧ ((∀ c accounts, channels_nostr_nip17 cfg = Some c →
                    cfg_accounts c = Some accounts → NoDup accounts.*1) →
     NoDup (listNip17AccountIds sort cfg)).
Proof.
  intros Hsort. split.
  - by apply listNip17AccountIds_in.
  - by apply listNip17AccountIds_NoDup.
Qed.

Lemma listNip17AccountIds_elem_witness :
  (∀ l, ex_sort l ≡ₚ l)
  ∧ (∀ id, id ∈ listNip17AccountIds ex_sort (ex_cfg (Some "  "))
       ↔ ∃ c, channels_nostr_nip17 (ex_cfg (Some "  ")) = Some c
            ∧ ((id ≠ ""
                ∧ ∃ accounts, cfg_accounts c = Some accounts ∧ id ∈ accounts.*1)
               ∨ (id = DEFAULT_ACCOUNT_ID
                  ∧ truthy (c_privateKey (cfg_base c)) = true)))
  ∧ NoDup (listNip17AccountIds ex_sort (ex_cfg (Some "  ")))
  ∧ listNip17AccountIds ex_sort (ex_cfg (Some "  ")) = ["default"; "home"; "work"].
Proof.
  assert (∀ l, ex_sort l ≡ₚ l) as Hsort
    by (intros l; apply merge_sort_Permutation).
  split; [exact Hsort|].
  destruct (listNip17AccountIds_elem ex_sort (ex_cfg (Some "  ")) Hsort)
    as [Helem Hnd].
  split; [exact Helem|]. split; [|by vm_compute].
  apply Hnd. intros c accounts [= <-] [= <-].
  apply (bool_decide_unpack _). by vm_compute.
Defined.

(** X9.  The default account is a listed account whenever one is listed,
    and ["default"] otherwise.  It is another account than ["default"] only
    when the top level has no private key and no account is called
    ["default"]; it is then a key of [accounts]. *)
Theorem resolveDefaultNip17AccountId_listed {Entry : Type}
    (sort : list string → list string) (cfg : OpenClawConfig Entry) :
  (∀ l, sort l ≡ₚ l) →
  (resolveDefaultNip17AccountId sort cfg ∈ listNip17AccountIds sort cfg
   ∨ (listNip17AccountIds sort cfg = []
      ∧ resolveDefaultNip17AccountId sort cfg = DEFAULT_ACCOUNT_ID))
  ∧ (resolveDefaultNip17AccountId sort cfg ≠ DEFAULT_ACCOUNT_ID →
     ∃ c accounts,
       channels_nostr_nip17 cfg = Some c
       ∧ cfg_accounts c = Some accounts
       ∧ resolveDefaultNip17AccountId sort cfg ∈ accounts.*1
       ∧ (DEFAULT_ACCOUNT_ID ∉ accounts.*1)
       ∧ truthy (c_privateKey (cfg_base c)) = false).
Proof.
  intros Hsort.
  pose proof (listNip17AccountIds_in sort cfg Hsort) as Hin.
  unfold resolveDefaultNip17AccountId in *.
  case_bool_decide as Hdef; [split; [by left|done]|].
  destruct (listNip17AccountIds sort cfg) as [|d ids] eqn:Hids;
    cbn [head default]; [split; [by right|done]|].
  split; [left; left|]. intros Hd.
  destruct (proj1 (Hin d)) as (c & Hc & [[Hne (accounts & Hacc & Hkey)]|[-> _]]);
    [left| |done].
  exists c, accounts. split_and!; [done..| |].
  - intros Hkey'. apply Hdef, Hin. exists c. split; [done|]. left.
    split; [done|]. by exists accounts.
  - destruct (truthy (c_privateKey (cfg_base c))) eqn:Hpk; [|done].
    exfalso. apply Hdef, Hin. exists c. split; [done|]. by right.
Qed.

Lemma resolveDefaultNip17AccountId_listed_witness :
  (∀ l, ex_sort l ≡ₚ l)
  ∧ resolveDefaultNip17AccountId ex_sort (ex_cfg None) = "home"
  ∧ (resolveDefaultNip17AccountId ex_sort (ex_cfg None)
       ∈ listNip17AccountIds ex_sort (ex_cfg None)
     ∨ (listNip17AccountIds ex_sort (ex_cfg None) = []
        ∧ resolveDefaultNip17AccountId ex_sort (ex_cfg None)
          = DEFAULT_ACCOUNT_ID))
  ∧ ∃ c accounts,
      channels_nostr_nip17 (ex_cfg None) = Some c
      ∧ cfg_accounts c = Some accounts
      ∧ resolveDefaultNip17AccountId ex_sort (ex_cfg None) ∈ accounts.*1
      ∧ (DEFAULT_ACCOUNT_ID ∉ accounts.*1)
      ∧ truthy (c_privateKey (cfg_base c)) = false.
Proof.
  assert (∀ l, ex_sort l ≡ₚ l) as Hsort
    by (intros l; apply merge_sort_Permutation).
  split; [exact Hsort|]. split; [by vm_compute|].
  destruct (resolveDefaultNip17AccountId_listed ex_sort (ex_cfg None) Hsort)
    as [H1 H2].
  split; [exact H1|]. apply H2. by vm_compute.
Defined.

(** X10.  An account is resolved from the top level and from its own
    entry in [accounts], if it has one: every key the entry has takes
    precedence, every key it lacks is inherited; the separate test the code
    makes for ["default"] changes nothing.  An account without an entry,
    listed or not, is resolved from the top level alone. *)
Theorem resolveNip17Account_config {Entry : Type}
    (decode : string → Res Decoded) (getPublicKey : NipData → Res string)
    (cfg : OpenClawConfig Entry) (accountId : option string) c :
  channels_nostr_nip17 cfg = Some c →
  let id := default DEFAULT_ACCOUNT_ID accountId in
  let r := resolveNip17Account decode getPublicKey cfg accountId in
  let entry :=
    match cfg_accounts c with
    | Some accounts => account_entry accounts id
    | None => None
    end in
  ra_accountId r = id
  ∧ (entry = None → ra_config r = cfg_base c)
  ∧ (∀ o, entry = Some o →
       c_name (ra_config r) = nullish_or (c_name o) (c_name (cfg_base c))
       ∧ c_enabled (ra_config r)
         = nullish_or (c_enabled o) (c_enabled (cfg_base c))
       ∧ c_privateKey (ra_config r)
         = nullish_or (c_privateKey o) (c_privateKey (cfg_base c))
       ∧ c_relays (ra_config r)
         = nullish_or (c_relays o) (c_relays (cfg_base c))
       ∧ c_dmPolicy (ra_config r)
         = nullish_or (c_dmPolicy o) (c_dmPolicy (cfg_base c))
       ∧ c_allowFrom (ra_config r)
         = nullish_or (c_allowFrom o) (c_allowFrom (cfg_base c)))
  ∧ ra_privateKey r = default "" (c_privateKey (ra_config r))
  ∧ ra_relays r = default DEFAULT_RELAYS (c_relays (ra_config r))
  ∧ ra_enabled r = bool_decide (c_enabled (ra_config r) ≠ Some false).
Proof.
  intros Hc id r entry.
  assert (ra_config r = mergeAccountConfig (cfg_base c) entry) as Hcfg.
  { subst r entry id. unfold resolveNip17Account, getNip17ChannelConfig.
    cbn [ra_config]. rewrite Hc. f_equal.
    destruct (bool_decide (default DEFAULT_ACCOUNT_ID accountId
                           ≠ DEFAULT_ACCOUNT_ID)) eqn:Hid; [done|].
    apply bool_decide_eq_false in Hid. apply dec_stable in Hid. rewrite Hid.
    cbn [orb]. case_bool_decide as Hsome; [done|].
    symmetry. by apply eq_None_not_Some. }
  split_and!; [done| | |done..].
  - intros He. by rewrite Hcfg, He.
  - intros o He. by rewrite Hcfg, He.
Qed.

Lemma resolveNip17Account_config_witness :
  channels_nostr_nip17 (ex_cfg (Some "  "))
  = Some {| cfg_base := ex_base (Some "  ");
            cfg_accounts := Some [("work", ex_account_work);
                                  ("home", ex_account_home)] |}
  ∧ ra_config (resolveNip17Account Nip19.decode (λ _, Throw "no curve")
                 (ex_cfg (Some "  ")) (Some "home"))
    = {| c_name := Some "Main"; c_enabled := Some false;
         c_privateKey := Some "  "; c_relays := Some ["wss://relay.example"];
         c_dmPolicy := Some PolicyPairing; c_allowFrom := Some ["*"] |}
  ∧ ra_config (resolveNip17Account Nip19.decode (λ _, Throw "no curve")
                 (ex_cfg (Some "  ")) (Some "other"))
    = ex_base (Some "  ")
  ∧ ra_config (resolveNip17Account Nip19.decode (λ _, Throw "no curve")
                 (ex_cfg (Some "  ")) None)
    = ex_base (Some "  ").
Proof.
  split; [reflexivity|]. split; [by vm_compute|].
  split.
  - apply (resolveNip17Account_config Nip19.decode (λ _, Throw "no curve")
             (ex_cfg (Some "  ")) (Some "other") _ eq_refl).
    reflexivity.
  - apply (resolveNip17Account_config Nip19.decode (λ _, Throw "no curve")
             (ex_cfg (Some "  ")) None _ eq_refl).
    reflexivity.
Defined.

(** X11.  A resolved account counts as configured exactly when its
    private key is not blank.  It has a public key only if it is configured
    and the private key validates and the library derives that public key
    from it; otherwise its public key is empty, also when it is
    configured. *)
Theorem resolveNip17Account_publicKey {Entry : Type}
    (decode : string → Res Decoded) (getPublicKey : NipData → Res string)
    (cfg : OpenClawConfig Entry) (accountId : option string) :
  (ra_configured (resolveNip17Account decode getPublicKey cfg accountId) = true
   ↔ trim (ra_privateKey (resolveNip17Account decode getPublicKey cfg accountId))
     ≠ "")
  ∧ (ra_publicKey (resolveNip17Account decode getPublicKey cfg accountId) ≠ "" →
     ra_configured (resolveNip17Account decode getPublicKey cfg accountId) = true
     ∧ ∃ data,
         validatePrivateKey decode
           (ra_privateKey (resolveNip17Account decode getPublicKey cfg accountId))
         = Ok data
         ∧ getPublicKey data
           = Ok (ra_publicKey
                   (resolveNip17Account decode getPublicKey cfg accountId)))
  ∧ (channels_nostr_nip17 cfg = None →
     ra_configured (resolveNip17Account decode getPublicKey cfg accountId) = false
     ∧ ra_publicKey (resolveNip17Account decode getPublicKey cfg accountId) = ""
     ∧ ra_enabled (resolveNip17Account decode getPublicKey cfg accountId) = true
     ∧ ra_relays (resolveNip17Account decode getPublicKey cfg accountId)
       = DEFAULT_RELAYS).
Proof.
  split_and!.
  - unfold resolveNip17Account. cbn [ra_configured ra_privateKey].
    apply bool_decide_eq_true.
  - unfold resolveNip17Account. cbn [ra_configured ra_privateKey ra_publicKey].
    case_bool_decide as Hconf; [|done].
    unfold getPublicKeyFromPrivate.
    destruct (validatePrivateKey decode _) as [data|m] eqn:Hval;
      cbn [Res_bind try_or]; [|done].
    destruct (getPublicKey data) as [pub|m] eqn:Hpub; cbn [try_or]; [|done].
    intros _. split; [done|]. by exists data.
  - intros Hc. unfold resolveNip17Account, getNip17ChannelConfig.
    rewrite Hc.
    destruct (bool_decide (default DEFAULT_ACCOUNT_ID accountId
                           ≠ DEFAULT_ACCOUNT_ID)
              || bool_decide (is_Some (@None (Nip17AccountConfig Entry))));
      cbn [mergeAccountConfig ra_configured ra_publicKey ra_enabled ra_relays
           c_privateKey c_enabled c_relays default];
      by rewrite bool_decide_eq_false_2 by (intros H; by apply H).
Qed.

(** ** The bus *)

Section bus_extra_lemmas.
Context (env : Env).

Lemma step_calls b i s t :
  CallOnMessage s t ∈ (step env b i).2 →
  ∃ event, i = Deliver event ∧ CallOnMessage s t ∈ (handleEvent env event b).2.
Proof.
  destruct i as [event|n ok|j ok|j ok|key]; simpl.
  - intros H. by exists event.
  - destruct (inflight b !! n) as [[event rumor]|]; [|by intros ?%elem_of_nil].
    unfold handleEvent_resume. destruct ok; simpl; [by intros ?%elem_of_nil|].
    by intros [=]%list_elem_of_singleton.
  - destruct (writes b !! j) as [[arg [|json]]|];
      try (by intros ?%elem_of_nil).
    destruct ok; simpl; [by intros ?%elem_of_nil|].
    by intros [=]%list_elem_of_singleton.
  - destruct (writes b !! j) as [[arg [|json]]|];
      try (by intros ?%elem_of_nil).
    destruct ok; simpl; [by intros ?%elem_of_nil|].
    by intros [=]%list_elem_of_singleton.
  - by intros ?%elem_of_nil.
Qed.

Lemma run_cons b i rest :
  run env b (i :: rest)
  = ((run env (step env b i).1 rest).1,
     (step env b i).2 ++ (run env (step env b i).1 rest).2).
Proof.
  cbn [run]. destruct (step env b i) as [b1 out1]. cbn [fst snd].
  by destruct (run env b1 rest) as [b2 out2].
Qed.

Lemma step_lastProcessedAt_mono b i :
  lastProcessedAt b ≤ lastProcessedAt (step env b i).1.
Proof.
  destruct i as [event|n ok|j ok|j ok|key]; simpl.
  - unfold handleEvent.
    destruct (globalDedup ("gw:" +:+ ev_id event) (globalSeen b)) as [dup seen1].
    destruct dup; [done|]. case_bool_decide; [done|].
    destruct (unwrapEvent env event (sk env)) as [rumor|]; [|done].
    case_bool_decide; [done|]. simpl.
    destruct (globalDedup (rumorId rumor) seen1) as [dup2 seen2].
    destruct dup2; [done|]. repeat case_bool_decide; try done; by case_if.
  - destruct (inflight b !! n) as [[event rumor]|]; [|done].
    unfold handleEvent_resume. destruct ok; [|done].
    unfold scheduleStatePersist. simpl. case_bool_decide; simpl; lia.
  - destruct (writes b !! j) as [[arg [|json]]|]; try done. by destruct ok.
  - destruct (writes b !! j) as [[arg [|json]]|]; try done. by destruct ok.
  - done.
Qed.

Lemma run_lastProcessedAt_mono b inputs :
  lastProcessedAt b ≤ lastProcessedAt (run env b inputs).1.
Proof.
  revert b. induction inputs as [|i inputs IH]; intros b; [done|].
  rewrite run_cons. cbn [fst].
  pose proof (step_lastProcessedAt_mono b i).
  specialize (IH (step env b i).1). lia.
Qed.

End bus_extra_lemmas.

(** X12.  Whatever happens to the bus, it calls [onMessage] only for a
    delivered event of kind 1059 that unwraps to a rumor of kind 14 written
    by somebody else, and it passes the rumor's sender and content. *)
Theorem onMessage_only_for_chat_rumors env b inputs s t :
  CallOnMessage s t ∈ (run env b inputs).2 →
  ∃ event rumor,
    Deliver event ∈ inputs
    ∧ ev_kind event = 1059
    ∧ unwrapEvent env event (sk env) = Some rumor
    ∧ r_kind rumor = 14
    ∧ r_pubkey rumor ≠ pk env
    ∧ s = r_pubkey rumor ∧ t = r_content rumor.
Proof.
  revert b. induction inputs as [|i inputs IH]; intros b.
  { by intros ?%elem_of_nil. }
  rewrite run_cons. cbn [snd]. intros [H|H]%elem_of_app.
  - apply step_calls in H as (event & -> & H).
    apply handleEvent_calls in H
      as (rumor & Hun & _ & Hkind & Hrk & _ & Hpk & _ & -> & ->).
    exists event, rumor. split_and!; [left|done..].
  - destruct (IH _ H) as (event & rumor & Hin & Hrest).
    exists event, rumor. split; [by right|done].
Qed.

Lemma onMessage_only_for_chat_rumors_witness :
  CallOnMessage ex_alice (Some "hello")
    ∈ (run ex_env ex_bus0 [Deliver ex_own; Deliver ex_e1; Deliver ex_e2]).2
  ∧ ∃ event rumor,
      Deliver event ∈ [Deliver ex_own; Deliver ex_e1; Deliver ex_e2]
      ∧ ev_kind event = 1059
      ∧ unwrapEvent ex_env event (sk ex_env) = Some rumor
      ∧ r_kind rumor = 14
      ∧ r_pubkey rumor ≠ pk ex_env
      ∧ ex_alice = r_pubkey rumor ∧ Some "hello" = r_content rumor.
Proof.
  assert (CallOnMessage ex_alice (Some "hello")
            ∈ (run ex_env ex_bus0 [Deliver ex_own; Deliver ex_e1; Deliver ex_e2]).2)
    as H by (vm_compute; left).
  split; [exact H|].
  exact (onMessage_only_for_chat_rumors ex_env ex_bus0 _ _ _ H).
Defined.

(** X13.  The watermark of events never goes back, and once the callback
    of an event has completed it is at or after the timestamp of the event.
    The watermark of rumors is a number only if it has been one all along,
    and then it has never gone back; and if it is a number after the
    callback of a rumor has completed, the rumor has a numeric timestamp
    and the watermark is at or after it. *)
Theorem watermarks_cover_processed env b :
  (∀ inputs,
     lastProcessedAt b ≤ lastProcessedAt (run env b inputs).1
     ∧ ∀ w', lastRumorAt (run env b inputs).1 = Some w' →
             ∃ w, lastRumorAt b = Some w ∧ w ≤ w')
  ∧ (∀ pre post n event rumor,
       inflight (run env b pre).1 !! n = Some (event, rumor) →
       ev_created_at event
         ≤ lastProcessedAt (run env b (pre ++ Settle n true :: post)).1
       ∧ ∀ w', lastRumorAt (run env b (pre ++ Settle n true :: post)).1
               = Some w' →
               ∃ t, r_created_at rumor = Some t ∧ t ≤ w').
Proof.
  split.
  - intros inputs. split;
      [apply run_lastProcessedAt_mono|apply run_lastRumorAt_mono].
  - intros pre post n event rumor Hin.
    rewrite run_app. cbn [fst]. rewrite run_cons. cbn [fst].
    pose proof (run_lastRumorAt_mono env
                  (step env (run env b pre).1 (Settle n true)).1 post) as H1.
    pose proof (run_lastProcessedAt_mono env
                  (step env (run env b pre).1 (Settle n true)).1 post) as H2.
    assert (ev_created_at event
              ≤ lastProcessedAt (step env (run env b pre).1 (Settle n true)).1
            ∧ lastRumorAt (step env (run env b pre).1 (Settle n true)).1
              = Math_max (lastRumorAt (run env b pre).1) (r_created_at rumor))
      as [H3 H4].
    { cbn [step]. rewrite Hin. unfold handleEvent_resume, scheduleStatePersist.
      cbn [fst]. case_bool_decide; simpl; (split; [lia|done]). }
    split; [lia|]. intros w' [w1 [Hw1 Hle1]]%H1.
    rewrite H4 in Hw1. apply Math_max_Some in Hw1 as (x & t & _ & Ht & ->).
    exists t. split; [done|lia].
Qed.

Lemma watermarks_cover_processed_witness :
  inflight (run ex_env ex_bus0 [Deliver ex_e1]).1 !! 0%nat
  = Some (ex_e1, {| r_id := Some ex_rumor_id; r_kind := 14;
                    r_pubkey := ex_alice; r_created_at := Some 1700000050;
                    r_content := Some "hello" |})
  ∧ 1700000050
    ≤ lastProcessedAt
        (run ex_env ex_bus0 ([Deliver ex_e1] ++ Settle 0 true :: [Deliver ex_old])).1
  ∧ lastRumorAt
      (run ex_env ex_bus0 ([Deliver ex_e1] ++ Settle 0 true :: [Deliver ex_old])).1
    = Some 1700000050
  ∧ ∃ t, Some 1700000050 = Some t ∧ t ≤ 1700000050.
Proof.
  split; [by vm_compute|].
  destruct (proj2 (watermarks_cover_processed ex_env ex_bus0)
              [Deliver ex_e1] [Deliver ex_old] 0%nat ex_e1
              {| r_id := Some ex_rumor_id; r_kind := 14;
                 r_pubkey := ex_alice; r_created_at := Some 1700000050;
                 r_content := Some "hello" |}) as [H1 H2]; [by vm_compute|].
  split; [exact H1|]. split; [by vm_compute|].
  apply H2. by vm_compute.
Defined.

(** ** What reaches the state file *)

Section persist_extra_lemmas.
Context (env : Env).

Lemma handleEvent_keeps event b :
  heap (handleEvent env event b).1 = heap b
  ∧ recentEventIds (handleEvent env event b).1 = recentEventIds b
  ∧ writes (handleEvent env event b).1 = writes b
  ∧ file (handleEvent env event b).1 = file b
  ∧ lastRumorAt (handleEvent env event b).1 = lastRumorAt b
  ∧ lastProcessedAt (handleEvent env event b).1 = lastProcessedAt b.
Proof.
  unfold handleEvent.
  destruct (globalDedup ("gw:" +:+ ev_id event) (globalSeen b)) as [dup seen1].
  destruct dup; [done|]. case_bool_decide; [done|].
  destruct (unwrapEvent env event (sk env)) as [rumor|]; [|done].
  case_bool_decide; [done|]. simpl.
  destruct (globalDedup (rumorId rumor) seen1) as [dup2 seen2].
  destruct dup2; [done|]. repeat case_bool_decide; try done; by case_if.
Qed.

Lemma arrays_ok_eq b b' :
  heap b' = heap b → recentEventIds b' = recentEventIds b →
  writes b' = writes b → file b' = file b →
  arrays_ok b → arrays_ok b'.
Proof. unfold arrays_ok. by intros -> -> -> ->. Qed.

Lemma deref_bound h ref n :
  0 ≤ n → Forall (λ arr : list string, Z.of_nat (length arr) ≤ n) h →
  Z.of_nat (length (deref h ref)) ≤ n.
Proof.
  intros Hn Hall. unfold deref.
  destruct (h !! ref) as [arr|] eqn:Hl; simpl; [|lia].
  by eapply (Forall_lookup_1 _ _ _ _ Hall).
Qed.

Lemma slice_last_bound l :
  Z.of_nat (length (slice_last MAX_PERSISTED_EVENT_IDS l)) ≤ 5000.
Proof.
  rewrite slice_last_length by done. unfold MAX_PERSISTED_EVENT_IDS. lia.
Qed.

Lemma scheduleStatePersist_arrays_ok t id b :
  arrays_ok b → arrays_ok (scheduleStatePersist env t id b).
Proof.
  intros (Hheap & Hcur & Hwrites & Hfile).
  unfold scheduleStatePersist, persistStateNow, arrays_ok.
  cbn [heap recentEventIds set_lastProcessedAt set_heap].
  set (pushed := deref (heap b) (recentEventIds b) ++ [id]).
  assert (Z.of_nat (length pushed) ≤ MAX_PERSISTED_EVENT_IDS + 1) as Hpushed.
  { subst pushed. rewrite length_app. simpl. lia. }
  case_bool_decide as Hover;
    cbn [heap recentEventIds writes file set_writes set_heap
         set_recentEventIds set_lastProcessedAt].
  - split_and!; [| | |done].
    + apply Forall_app. split; [by apply Forall_insert|].
      apply Forall_singleton.
      pose proof (slice_last_bound pushed) as Hs.
      unfold MAX_PERSISTED_EVENT_IDS in *. lia.
    + unfold deref. rewrite lookup_app_r by done.
      rewrite Nat.sub_diag. simpl.
      pose proof (slice_last_bound pushed) as Hs.
      unfold MAX_PERSISTED_EVENT_IDS in *. lia.
    + apply Forall_app. split; [done|]. by apply Forall_singleton.
  - split_and!; [by apply Forall_insert| | |done].
    + unfold deref.
      destruct (decide (recentEventIds b < length (heap b))%nat) as [Hin|Hout].
      * rewrite list_lookup_insert_eq by done. simpl. lia.
      * rewrite list_insert_ge by lia. exact Hcur.
    + apply Forall_app. split; [done|]. by apply Forall_singleton.
Qed.

Lemma step_arrays_ok b i : arrays_ok b → arrays_ok (step env b i).1.
Proof.
  intros Hok. destruct i as [event|n ok|j ok|j ok|key]; cbn [step].
  - destruct (handleEvent_keeps event b) as (H1 & H2 & H3 & H4 & _).
    by eapply arrays_ok_eq.
  - destruct (inflight b !! n) as [[event rumor]|]; [|done].
    unfold handleEvent_resume. destruct ok; [|by eapply arrays_ok_eq].
    cbn [fst]. apply scheduleStatePersist_arrays_ok. by eapply arrays_ok_eq.
  - destruct (writes b !! j) as [[arg [|json]]|] eqn:Hj; try done.
    destruct Hok as (Hheap & Hcur & Hwrites & Hfile).
    destruct ok; cbn [fst]; unfold arrays_ok;
      cbn [heap recentEventIds writes file set_writes];
      (split_and!; [done|done| |done]).
    + apply Forall_insert; [done|].
      cbn [snd writeNostrBusState_stringify s_recentEventIds].
      apply deref_bound; [|done]. unfold MAX_PERSISTED_EVENT_IDS. lia.
    + by apply Forall_delete.
  - destruct (writes b !! j) as [[arg [|json]]|] eqn:Hj; try done.
    destruct Hok as (Hheap & Hcur & Hwrites & Hfile).
    destruct ok; cbn [fst]; unfold arrays_ok;
      cbn [heap recentEventIds writes file set_writes set_file];
      (split_and!; [done|done|by apply Forall_delete|]); [|done].
    intros st [= <-].
    by apply (Forall_lookup_1 _ _ _ _ Hwrites Hj).
  - by eapply arrays_ok_eq.
Qed.

Lemma run_arrays_ok b inputs : arrays_ok b → arrays_ok (run env b inputs).1.
Proof.
  revert b. induction inputs as [|i inputs IH]; intros b Hok; [done|].
  rewrite run_cons. cbn [fst]. by apply IH, step_arrays_ok.
Qed.

Lemma started_arrays_ok state seen started :
  startNip17Bus env state seen true = Some started →
  (∀ s, state = Some s →
        Z.of_nat (length (s_recentEventIds s)) ≤ MAX_PERSISTED_EVENT_IDS + 1) →
  arrays_ok (bus started).
Proof.
  intros [= <-] Hstate. unfold arrays_ok.
  cbn [bus heap recentEventIds writes file deref].
  pose proof (slice_last_bound (from_option s_recentEventIds [] state)) as Hs.
  split_and!.
  - apply Forall_singleton. unfold MAX_PERSISTED_EVENT_IDS at 2. lia.
  - exact Hs.
  - constructor.
  - intros st [= <-]. cbn [s_recentEventIds].
    destruct state as [s|]; simpl; [by apply Hstate|].
    unfold MAX_PERSISTED_EVENT_IDS. lia.
Qed.



(** A write that nothing overtakes stores what the bus holds when the
    write starts. *)
Lemma write_alone b :
  file (run env (persistStateNow env b)
          [MkdirDone (length (writes b)) true;
           WriteFileDone (length (writes b)) true]).1
  = Some {| s_lastProcessedAt := lastProcessedAt b;
            s_gatewayStartedAt := gatewayStartedAt env;
            s_recentEventIds := deref (heap b) (recentEventIds b);
            s_lastRumorAt := lastRumorAt b |}.
Proof.
  rewrite !run_cons. cbn [fst run].
  unfold persistStateNow. cbn [step writes set_writes].
  rewrite list_lookup_middle by done. cbn [fst].
  cbn [step writes set_writes].
  rewrite list_lookup_insert_eq by (rewrite length_app; simpl; lia).
  done.
Qed.

End persist_extra_lemmas.

(** X14.  The state file never holds more than 5001 identifiers: if the
    file read at the start has at most 5001, so has every file written
    afterwards, whatever happens to the bus. *)
Theorem state_file_at_most_5001 env state seen started inputs st :
  startNip17Bus env state seen true = Some started →
  (∀ s, state = Some s →
        Z.of_nat (length (s_recentEventIds s)) ≤ MAX_PERSISTED_EVENT_IDS + 1) →
  file (run env (bus started) inputs).1 = Some st →
  Z.of_nat (length (s_recentEventIds st)) ≤ 5001.
Proof.
  intros Hstart Hstate Hfile.
  destruct (run_arrays_ok env (bus started) inputs) as (_ & _ & _ & H).
  { by eapply started_arrays_ok. }
  by apply H.
Qed.

Lemma state_file_at_most_5001_witness :
  startNip17Bus ex_env (Some ex_state) [] true
  = Some {| since := 1689827200; bus := ex_bus_restarted |}
  ∧ ∃ st,
      file (run ex_env ex_bus_restarted (ex_handle 0)).1 = Some st
      ∧ Z.of_nat (length (s_recentEventIds st)) ≤ 5001.
Proof.
  split; [reflexivity|]. eexists. split; [by vm_compute|].
  apply (state_file_at_most_5001 ex_env (Some ex_state) [] _ (ex_handle 0) _
           ex_bus_restarted_started).
  - intros s [= <-]. by vm_compute.
  - by vm_compute.
Defined.





(** ** Restarts *)

Lemma dedup_all_cons key keys seen :
  dedup_all (key :: keys) seen = dedup_all keys (globalDedup key seen).2.
Proof. done. Qed.

(** While the ledger stays within its cap, nothing leaves it. *)
Lemma dedup_all_small keys seen :
  Z.of_nat (length seen) + Z.of_nat (length keys) ≤ GLOBAL_SEEN_MAX →
  (∀ k, k ∈ seen ∨ k ∈ keys → k ∈ dedup_all keys seen)
  ∧ (length (dedup_all keys seen) ≤ length seen + length keys)%nat.
Proof.
  revert seen. induction keys as [|key keys IH]; intros seen Hlen.
  { split; [|simpl; lia]. by intros k [H|H%elem_of_nil]. }
  rewrite dedup_all_cons. cbn [length] in *.
  destruct (decide (key ∈ seen)) as [Hin|Hin].
  - rewrite globalDedup_seen by done. cbn [snd].
    destruct (IH seen) as [IH1 IH2]; [lia|]. split; [|lia].
    intros k [H|[->|H]%elem_of_cons]; apply IH1; auto.
  - rewrite globalDedup_fresh by (done || lia). cbn [snd].
    destruct (IH (seen ++ [key])) as [IH1 IH2].
    { rewrite length_app. simpl. lia. }
    rewrite length_app in IH2. simpl in IH2. split; [|lia].
    intros k [H|[->|H]%elem_of_cons]; apply IH1; [left|left|by right];
      apply elem_of_app; [by left|right; left].
Qed.

Lemma recent_all key seen : key ∈ seen → recent (length seen) key seen.
Proof.
  intros H. unfold recent.
  rewrite take_ge by by rewrite length_reverse.
  by apply elem_of_reverse.
Qed.

(** X17.  After a start from a state file, an event whose identifier is
    among the recent identifiers of the file is dropped when it is
    delivered: no unwrap, no callback, no change.  This holds for as long as
    the keys the ledger had before, those of the file and those that the
    inputs since the start could add are no more than 16000 together. *)
Theorem restart_discards_persisted env state seen started inputs event :
  startNip17Bus env (Some state) seen true = Some started →
  NoDup seen →
  Z.of_nat (length seen) + Z.of_nat (length (s_recentEventIds state))
  + Z.of_nat (total_cost inputs) ≤ 16000 →
  ev_id event ∈ s_recentEventIds state →
  step env (run env (bus started) inputs).1 (Deliver event)
  = ((run env (bus started) inputs).1, []).
Proof.
  intros Hstart Hnd Hlen Hin.
  assert (globalSeen (bus started)
          = dedup_all ((λ id, "gw:" +:+ id) <$> s_recentEventIds state) seen)
    as Hseen by (by injection Hstart as <-).
  destruct (dedup_all_small ((λ id, "gw:" +:+ id) <$> s_recentEventIds state)
              seen) as [Hall Hlen1].
  { rewrite length_fmap. unfold GLOBAL_SEEN_MAX. lia. }
  rewrite length_fmap, <-Hseen in Hlen1.
  assert (("gw:" +:+ ev_id event) ∈ globalSeen (bus started)) as Hk.
  { rewrite Hseen. apply Hall. right.
    apply list_elem_of_fmap. by exists (ev_id event). }
  assert (NoDup (globalSeen (bus started))) as Hnd1.
  { rewrite Hseen. by apply dedup_all_NoDup. }
  cbn [step]. apply handleEvent_seen.
  eapply recent_elem.
  apply (run_recent_keep env (bus started) inputs
           (length (globalSeen (bus started)))); [done| |lia].
  by apply recent_all.
Qed.

Lemma restart_discards_persisted_witness :
  startNip17Bus ex_env (Some ex_state) [] true
  = Some {| since := 1689827200; bus := ex_bus_restarted |}
  ∧ ev_id (ex_noise 7) ∈ s_recentEventIds ex_state
  ∧ step ex_env (run ex_env ex_bus_restarted [Deliver ex_e1; Settle 0 true]).1
      (Deliver (ex_noise 7))
    = ((run ex_env ex_bus_restarted [Deliver ex_e1; Settle 0 true]).1, []).
Proof.
  assert (ev_id (ex_noise 7) ∈ s_recentEventIds ex_state) as Hin by left.
  split; [reflexivity|]. split; [exact Hin|].
  apply (restart_discards_persisted ex_env ex_state []
           {| since := 1689827200; bus := ex_bus_restarted |}
           [Deliver ex_e1; Settle 0 true] (ex_noise 7)
           ex_bus_restarted_started);
    [constructor|by vm_compute|exact Hin].
Defined.

(** X18.  A message whose callback failed is taken up again after a
    restart.  On a first start the message is delivered and handed to the
    callback, which rejects; the rejection is reported and nothing of it
    reaches the state file.  A process that starts from that file, with an
    empty ledger, hands the same message to the callback again. *)
Theorem rejected_callback_retried_after_restart env env' e r :
  sk env' = sk env → pk env' = pk env → unwrapEvent env' = unwrapEvent env →
  ev_kind e = 1059 →
  unwrapEvent env e (sk env) = Some r →
  r_kind r = 14 →
  r_pubkey r ≠ pk env →
  ∃ started started',
    startNip17Bus env None [] true = Some started
    ∧ (run env (bus started) [Deliver e; Settle 0 false]).2
      = [CallOnMessage (r_pubkey r) (r_content r);
         CallOnError None ("event " +:+ ev_id e)]
    ∧ file (run env (bus started) [Deliver e; Settle 0 false]).1
      = file (bus started)
    ∧ startNip17Bus env'
        (file (run env (bus started) [Deliver e; Settle 0 false]).1) [] true
      = Some started'
    ∧ (step env' (bus started') (Deliver e)).2
      = [CallOnMessage (r_pubkey r) (r_content r)].
Proof.
  intros Hsk Hpk Hunwrap Hkind Hun Hrk Hself.
  eexists. eexists. split; [reflexivity|]. cbn [bus].
  set (b0 := {| globalSeen := dedup_all _ _ |}).
  assert (handleEvent env e b0
          = (set_inflight (inflight b0 ++ [(e, r)])
               (set_globalSeen
                  (globalSeen b0 ++ ["gw:" +:+ ev_id e; rumorId r]) b0),
             [CallOnMessage (r_pubkey r) (r_content r)])) as Hfirst.
  { apply handleEvent_accepts; try done; apply not_elem_of_nil. }
  rewrite !run_cons. cbn [fst snd run step]. rewrite Hfirst.
  cbn [fst snd inflight set_inflight set_globalSeen b0 app lookup list_lookup
       handleEvent_resume file].
  split; [done|]. split; [done|]. split; [reflexivity|]. cbn [bus].
  cbn [step]. rewrite (handleEvent_accepts env' e r); [done|..]; try done.
  - apply not_elem_of_nil.
  - apply not_elem_of_nil.
  - by rewrite Hunwrap, Hsk.
  - by rewrite Hpk.
Qed.

Lemma rejected_callback_retried_after_restart_witness :
  ∃ started started',
    startNip17Bus ex_env None [] true = Some started
    ∧ (run ex_env (bus started) [Deliver ex_e1; Settle 0 false]).2
      = [CallOnMessage ex_alice (Some "hello");
         CallOnError None ("event " +:+ ev_id ex_e1)]
    ∧ file (run ex_env (bus started) [Deliver ex_e1; Settle 0 false]).1
      = file (bus started)
    ∧ startNip17Bus ex_env
        (file (run ex_env (bus started) [Deliver ex_e1; Settle 0 false]).1)
        [] true
      = Some started'
    ∧ (step ex_env (bus started') (Deliver ex_e1)).2
      = [CallOnMessage ex_alice (Some "hello")].
Proof.
  apply (rejected_callback_retried_after_restart ex_env ex_env ex_e1
           {| r_id := Some ex_rumor_id; r_kind := 14; r_pubkey := ex_alice;
              r_created_at := Some 1700000050; r_content := Some "hello" |});
    by vm_compute.
Defined.

(** ** A rumor without a timestamp *)

Section undated_lemmas.
Context (env : Env).

(** Once the watermark of rumors is [NaN] it stays so. *)
Lemma run_lastRumorAt_NaN b inputs :
  lastRumorAt b = None → lastRumorAt (run env b inputs).1 = None.
Proof.
  intros Hb. destruct (lastRumorAt (run env b inputs).1) as [w'|] eqn:Hw';
    [|done].
  apply run_lastRumorAt_mono in Hw' as (w & Hw & _). congruence.
Qed.

End undated_lemmas.

(** X27.  A rumor without a numeric [created_at] that is handed to the
    callback, and whose callback completes, turns the watermark of rumors
    into [NaN] for the rest of the session.  From then on no rumor is
    dropped for its date: every wrap that passes the other checks is handed
    to the callback.  What [close] writes holds no watermark of rumors
    ([null]), and a bus started from that file begins with the watermark
    [0], which stands for none. *)
Theorem undated_rumor_disables_watermark env b pre post n event rumor :
  inflight (run env b pre).1 !! n = Some (event, rumor) →
  r_created_at rumor = None →
  let b' := (run env b (pre ++ Settle n true :: post)).1 in
  lastRumorAt b' = None
  ∧ (∀ e r,
       ("gw:" +:+ ev_id e) ∉ globalSeen b' →
       rumorId r ∉ globalSeen b' →
       Z.of_nat (length (globalSeen b')) + 2 ≤ GLOBAL_SEEN_MAX →
       ev_kind e = 1059 →
       unwrapEvent env e (sk env) = Some r →
       r_kind r = 14 → r_pubkey r ≠ pk env →
       calls (step env b' (Deliver e)).2 = [(r_pubkey r, r_content r)])
  ∧ (∃ st,
       file (run env (close env b')
               [MkdirDone (length (writes b')) true;
                WriteFileDone (length (writes b')) true]).1 = Some st
       ∧ s_lastRumorAt st = None
       ∧ ∀ env' seen started,
           startNip17Bus env' (Some st) seen true = Some started →
           lastRumorAt (bus started) = Some 0).
Proof.
  intros Hin Hundated b'.
  assert (lastRumorAt b' = None) as HNaN.
  { unfold b'. rewrite run_app. cbn [fst]. rewrite run_cons. cbn [fst].
    apply run_lastRumorAt_NaN.
    cbn [step]. rewrite Hin. unfold handleEvent_resume, scheduleStatePersist.
    rewrite Hundated. cbn [fst].
    case_bool_decide; cbn; by destruct (lastRumorAt _). }
  split; [done|]. split.
  - intros e r Hgw Hrk Hroom Hkind Hun Hrkind Hself. cbn [step].
    rewrite (handleEvent_accepts env e r); try done.
    apply NaN_not_stale. by left.
  - eexists. split; [apply write_alone|]. cbn [s_lastRumorAt].
    split; [done|]. intros env' seen started [= <-].
    cbn [bus lastRumorAt]. by rewrite HNaN.
Qed.

(** On the example bus restarted with the watermark 1690000500, a rumor
    dated 1690000400 is dropped; once a rumor without timestamp has been
    processed, it is handed to the callback. *)
Lemma undated_rumor_disables_watermark_witness :
  calls (step ex_env_undated ex_bus_restarted (Deliver ex_old)).2 = []
  ∧ lastRumorAt
      (run ex_env_undated ex_bus_restarted
         ([Deliver ex_undated] ++ Settle 0 true :: [])).1 = None
  ∧ calls (step ex_env_undated
             (run ex_env_undated ex_bus_restarted
                ([Deliver ex_undated] ++ Settle 0 true :: [])).1
             (Deliver ex_old)).2
    = [(ex_alice, Some "hello")].
Proof.
  split; [by vm_compute|].
  destruct (undated_rumor_disables_watermark ex_env_undated ex_bus_restarted
              [Deliver ex_undated] [] 0%nat ex_undated
              {| r_id := Some (pretty (12 * 10 ^ 62)%N); r_kind := 14;
                 r_pubkey := ex_alice; r_created_at := None;
                 r_content := Some "hello" |})
    as (H1 & H2 & _); [by vm_compute|by vm_compute|].
  split; [exact H1|].
  apply (H2 ex_old
           {| r_id := Some (pretty (8 * 10 ^ 63)%N); r_kind := 14;
              r_pubkey := ex_alice; r_created_at := Some 1690000400;
              r_content := Some "hello" |}).
  - apply (bool_decide_unpack _). by vm_compute.
  - apply (bool_decide_unpack _). by vm_compute.
  - by vm_compute.
  - by vm_compute.
  - by vm_compute.
  - by vm_compute.
  - by vm_compute.
Defined.

(** ** Two buses, one ledger *)

Lemma handleEvent_NoDup env event b :
  NoDup (globalSeen b) → NoDup (globalSeen (handleEvent env event b).1).
Proof.
  intros Hnd. destruct (handleEvent_ledger env event b) as (keys & _ & ->).
  by apply dedup_all_NoDup.
Qed.

(** X19.  Two buses of one process share the ledger, and the rumor key
    goes into it before the handler looks at the sender.  So when one
    account of the process writes to another, and the bus of the sender
    handles its own copy of the message first, the bus of the recipient
    drops the recipient's copy; had it come first, it would have been handed
    to the recipient's callback. *)
Theorem shared_ledger_drops_for_recipient envA envB bA bB eSelf eRcpt r :
  NoDup (globalSeen bA) →
  ("gw:" +:+ ev_id eSelf) ∉ globalSeen bA →
  ("gw:" +:+ ev_id eRcpt) ∉ globalSeen bA →
  rumorId r ∉ globalSeen bA →
  Z.of_nat (length (globalSeen bA)) + 2 ≤ GLOBAL_SEEN_MAX →
  ev_kind eSelf = 1059 → ev_kind eRcpt = 1059 →
  unwrapEvent envA eSelf (sk envA) = Some r →
  unwrapEvent envB eRcpt (sk envB) = Some r →
  r_kind r = 14 →
  r_pubkey r = pk envA → r_pubkey r ≠ pk envB →
  lastRumorAt bB = Some 0 →
  calls (step envB (share_ledger bA bB) (Deliver eRcpt)).2
  = [(r_pubkey r, r_content r)]
  ∧ calls (step envA bA (Deliver eSelf)).2 = []
  ∧ calls (step envB (share_ledger (step envA bA (Deliver eSelf)).1 bB)
             (Deliver eRcpt)).2 = [].
Proof.
  intros Hnd HgwS HgwR Hrk Hlen HkS HkR HunA HunB Hkind HpkA HpkB Hwm.
  cbn [step]. split_and!.
  - rewrite (handleEvent_accepts envB eRcpt r); try done.
    cbn [share_ledger lastRumorAt set_globalSeen]. by rewrite Hwm.
  - apply calls_nil. intros s t Hin.
    apply handleEvent_calls in Hin as (r' & Hun' & _ & _ & _ & _ & Hne & _).
    rewrite HunA in Hun'. injection Hun' as <-. done.
  - apply (handleEvent_rumor_recent envB eRcpt r _ 1); [|done| |lia].
    + cbn [share_ledger globalSeen set_globalSeen]. by apply handleEvent_NoDup.
    + cbn [share_ledger globalSeen set_globalSeen].
      by apply handleEvent_rumor_inserted.
Qed.

Lemma shared_ledger_drops_for_recipient_witness :
  calls (step ex_env_alice (share_ledger ex_bus0 ex_bus0) (Deliver ex_for_alice)).2
  = [(ex_pk, Some "hello")]
  ∧ calls (step ex_env ex_bus0 (Deliver ex_own)).2 = []
  ∧ calls (step ex_env_alice
             (share_ledger (step ex_env ex_bus0 (Deliver ex_own)).1 ex_bus0)
             (Deliver ex_for_alice)).2 = [].
Proof.
  apply (shared_ledger_drops_for_recipient ex_env ex_env_alice ex_bus0 ex_bus0
           ex_own ex_for_alice
           {| r_id := Some (pretty (6 * 10 ^ 63)%N); r_kind := 14;
              r_pubkey := ex_pk; r_created_at := Some 1700000060;
              r_content := Some "hello" |});
    try reflexivity; try (by vm_compute).
  - constructor.
  - apply not_elem_of_nil.
  - apply not_elem_of_nil.
  - apply not_elem_of_nil.
Defined.

(** ** The older send *)

(** X20.  The older send makes the same publish calls as the current one
    and ends as it does.  When it gets to its end it calls [onError], on
    every send, once: with the number of publish calls as total and as
    successes and with no failure, however the promises of the publishes
    end, because it too hands the arrays that [pool.publish] returns to
    [Promise.allSettled].  Its second report, of the failures, is never
    made.  When a call of the library throws, it reports nothing. *)
Theorem Legacy_send_always_reports {RumorT Seal Wrap : Type}
  (getPublicKey : Uint8Array → Res string)
  (createRumor : ChatEvent → Uint8Array → Res RumorT)
  (createSeal : RumorT → Uint8Array → string → Res Seal)
  (createWrap : Seal → string → Res Wrap)
  (publish : nat → string → Wrap → Res (list Settled))
  sk toPubkey text relays now :
  let o := Legacy.sendNip17Dm getPublicKey createRumor createSeal createWrap
             publish sk toPubkey text relays now in
  let o' := sendNip17Dm getPublicKey createRumor createSeal createWrap
              publish sk toPubkey text relays now in
  published o = published o'
  ∧ completion o = completion o'
  ∧ (completion o = Returned →
     reported o
     = [CallOnError
          (Some ("Publish results: " +:+ pretty (length (published o))
                 +:+ " total, " +:+ pretty (length (published o))
                 +:+ " success, " +:+ pretty 0%nat +:+ " failed"))
          "publish"])
  ∧ (∀ m, completion o = Thrown m → reported o = []).
Proof.
  intros o o'. unfold o, o', Legacy.sendNip17Dm, sendNip17Dm.
  destruct (giftWraps _ _ _ _ sk toPubkey text now) as [wraps|m]; [|done].
  cbv zeta.
  destruct (thrown (push_all publish 0 (publishCalls wraps relays)))
    as [m|] eqn:Hthrown; [done|].
  cbn [published completion reported].
  split; [done|]. split; [done|]. split; [|done]. intros _.
  destruct (push_all_made publish 0 (publishCalls wraps relays) Hthrown)
    as [Hmade Hlen].
  rewrite push_all_no_failures.
  rewrite Promise_allSettled_values by apply push_all_values.
  rewrite filter_fulfilled_replicate, length_replicate, Hlen, Hmade.
  done.
Qed.

(** ** The single-account plugin *)

(** X21.  The accounts of the plugin with several accounts extend those of
    the plugin with one: an account that has no entry in [accounts] is
    resolved exactly as the older plugin resolves it, and when [accounts] is
    absent or has no key that is not empty, the listed accounts and the
    default account are those of the older plugin. *)
Theorem accounts_extend_single_account {Entry : Type}
    (sort : list string → list string)
    (decode : string → Res Decoded) (getPublicKey : NipData → Res string)
    (cfg : OpenClawConfig Entry) :
  (∀ accountId,
     (∀ c accounts, channels_nostr_nip17 cfg = Some c →
                    cfg_accounts c = Some accounts →
                    default DEFAULT_ACCOUNT_ID accountId ∉ accounts.*1) →
     resolveNip17Account decode getPublicKey cfg accountId
     = SingleAccount.resolveNip17Account decode getPublicKey cfg accountId)
  ∧ ((∀ c accounts, channels_nostr_nip17 cfg = Some c →
                    cfg_accounts c = Some accounts →
                    ∀ k, k ∈ accounts.*1 → k = "") →
     listNip17AccountIds sort cfg = SingleAccount.listNip17AccountIds cfg
     ∧ resolveDefaultNip17AccountId sort cfg
       = SingleAccount.resolveDefaultNip17AccountId cfg).
Proof.
  split.
  - intros accountId Hno.
    unfold resolveNip17Account, SingleAccount.resolveNip17Account,
      getNip17ChannelConfig.
    destruct (channels_nostr_nip17 cfg) as [[base accounts]|] eqn:Hc.
    + assert (match accounts with
              | Some accounts =>
                  account_entry accounts (default DEFAULT_ACCOUNT_ID accountId)
              | None => None
              end = None) as Hentry.
      { destruct accounts as [accounts|]; [|done].
        apply account_entry_None. by apply (Hno _ accounts eq_refl). }
      cbn [cfg_accounts cfg_base]. rewrite Hentry.
      destruct (bool_decide (default DEFAULT_ACCOUNT_ID accountId
                             ≠ DEFAULT_ACCOUNT_ID) || _);
        cbn [mergeAccountConfig mbind option_bind cfg_base];
        by destruct base.
    + by destruct (bool_decide (default DEFAULT_ACCOUNT_ID accountId
                                ≠ DEFAULT_ACCOUNT_ID) || _).
  - intros Hno.
    assert (listNip17AccountIds sort cfg
            = SingleAccount.listNip17AccountIds cfg) as Hlist.
    { unfold listNip17AccountIds, SingleAccount.listNip17AccountIds,
        getNip17ChannelConfig.
      destruct (channels_nostr_nip17 cfg) as [c|] eqn:Hc; [|done].
      destruct (cfg_accounts c) as [accounts|] eqn:Hacc; [|done].
      assert (filter (λ k, k ≠ "") accounts.*1 = []) as ->; [|done].
      specialize (Hno c accounts eq_refl Hacc).
      induction accounts.*1 as [|k keys IH]; [done|].
      rewrite filter_cons_False by (intros Hk; apply Hk, Hno; left).
      apply IH. intros k' Hk'. apply Hno. by right. }
    split; [done|].
    unfold resolveDefaultNip17AccountId, SingleAccount.resolveDefaultNip17AccountId.
    by rewrite Hlist.
Qed.

Lemma accounts_extend_single_account_witness :
  resolveNip17Account Nip19.decode (λ _, Throw "no curve") ex_cfg_single None
  = SingleAccount.resolveNip17Account Nip19.decode (λ _, Throw "no curve")
      ex_cfg_single None
  ∧ listNip17AccountIds ex_sort ex_cfg_single
    = SingleAccount.listNip17AccountIds ex_cfg_single
  ∧ resolveDefaultNip17AccountId ex_sort ex_cfg_single
    = SingleAccount.resolveDefaultNip17AccountId ex_cfg_single.
Proof.
  destruct (accounts_extend_single_account ex_sort Nip19.decode
              (λ _, Throw "no curve") ex_cfg_single) as [H1 H2].
  split.
  - apply H1. by intros c accounts [= <-] [=].
  - apply H2. by intros c accounts [= <-] [=].
Defined.

(** ** The older bus *)

Section legacy_bus_lemmas.
Context (env : Env).

Lemma Legacy_run_cons b i rest :
  LegacyBus.run env b (i :: rest)
  = ((LegacyBus.run env (LegacyBus.step env b i).1 rest).1,
     (LegacyBus.step env b i).2
     ++ (LegacyBus.run env (LegacyBus.step env b i).1 rest).2).
Proof.
  cbn [LegacyBus.run]. destruct (LegacyBus.step env b i) as [b1 out1].
  cbn [fst snd]. by destruct (LegacyBus.run env b1 rest) as [b2 out2].
Qed.

Lemma Set_add_elem key k s : k ∈ s → k ∈ Set_add key s.
Proof.
  unfold Set_add. destruct (Set_has key s); [done|].
  intros H. apply elem_of_app. by left.
Qed.

Lemma Set_add_new key s : key ∈ Set_add key s.
Proof.
  unfold Set_add. destruct (Set_has key s) eqn:H.
  - by apply Set_has_true.
  - apply elem_of_app. right. left.
Qed.

(** What a delivery to the older bus can come to. *)
Lemma Legacy_handleEvent_cases event now b :
  (LegacyBus.seen (LegacyBus.handleEvent env event now b).1 = LegacyBus.seen b
   ∧ LegacyBus.suspended (LegacyBus.handleEvent env event now b).1
     = LegacyBus.suspended b
   ∧ (∀ s t, CallOnMessage s t ∉ (LegacyBus.handleEvent env event now b).2))
  ∨ (∃ rumor,
       unwrapEvent env event (sk env) = Some rumor
       ∧ (ev_id event ∉ LegacyBus.seen b)
       ∧ ev_kind event = 1059 ∧ r_kind rumor = 14
       ∧ r_pubkey rumor ≠ pk env
       ∧ js_lt (r_created_at rumor) (Some (LegacyBus.staleThreshold now))
         = false
       ∧ LegacyBus.seen (LegacyBus.handleEvent env event now b).1
         = Set_add (ev_id event) (LegacyBus.seen b)
       ∧ LegacyBus.suspended (LegacyBus.handleEvent env event now b).1
         = LegacyBus.suspended b ++ [(event, rumor)]
       ∧ (LegacyBus.handleEvent env event now b).2
         = [CallOnMessage (r_pubkey rumor) (r_content rumor)]).
Proof.
  unfold LegacyBus.handleEvent.
  destruct (Set_has (ev_id event) (LegacyBus.seen b)) eqn:Hseen; cbn [orb].
  { left. split_and!; [done..|]. intros s t. apply not_elem_of_nil. }
  destruct (Set_has (ev_id event) (LegacyBus.inflight b)); cbn [orb].
  { left. split_and!; [done..|]. intros s t. apply not_elem_of_nil. }
  case_bool_decide as Hkind.
  { left. split_and!; [done..|]. intros s t. apply not_elem_of_nil. }
  destruct (unwrapEvent env event (sk env)) as [rumor|].
  2:{ left. split_and!; [done..|]. intros s t [=]%list_elem_of_singleton. }
  case_bool_decide as Hrk.
  { left. split_and!; [done..|]. intros s t. apply not_elem_of_nil. }
  case_bool_decide as Hown.
  { left. split_and!; [done..|]. intros s t. apply not_elem_of_nil. }
  destruct (js_lt (r_created_at rumor) (Some (LegacyBus.staleThreshold now)))
    eqn:Hstale.
  { left. split_and!; [done..|]. intros s t. apply not_elem_of_nil. }
  right. exists rumor.
  split_and!; try done; try (by apply Set_has_false); by apply dec_stable.
Qed.

Lemma Legacy_handleEvent_seen event now b :
  ev_id event ∈ LegacyBus.seen b →
  (LegacyBus.handleEvent env event now b).2 = [].
Proof.
  intros H. unfold LegacyBus.handleEvent.
  by rewrite (proj2 (Set_has_true _ _) H).
Qed.

Lemma Legacy_scheduleStatePersist_keeps t id b :
  LegacyBus.seen (LegacyBus.scheduleStatePersist t id b) = LegacyBus.seen b
  ∧ LegacyBus.writes (LegacyBus.scheduleStatePersist t id b)
    = LegacyBus.writes b
  ∧ LegacyBus.file (LegacyBus.scheduleStatePersist t id b) = LegacyBus.file b.
Proof. unfold LegacyBus.scheduleStatePersist. by case_bool_decide. Qed.

Lemma Legacy_step_seen b i k :
  k ∈ LegacyBus.seen b → k ∈ LegacyBus.seen (LegacyBus.step env b i).1.
Proof.
  intros Hk. destruct i as [event now|n ok| |j ok|j ok]; cbn [LegacyBus.step].
  - destruct (Legacy_handleEvent_cases event now b)
      as [(-> & _)|(r & _ & _ & _ & _ & _ & _ & -> & _)];
      [done|by apply Set_add_elem].
  - destruct (LegacyBus.suspended b !! n) as [[event rumor]|]; [|done].
    unfold LegacyBus.handleEvent_resume.
    destruct ok; cbn [fst LegacyBus.finally LegacyBus.seen
                      LegacyBus.set_inflight]; [|done].
    by rewrite (proj1 (Legacy_scheduleStatePersist_keeps _ _ _)).
  - by destruct (LegacyBus.pendingWrite b) as [[|]|].
  - destruct (LegacyBus.writes b !! j) as [[[arg [|json]] context]|];
      try done. by destruct ok.
  - destruct (LegacyBus.writes b !! j) as [[[arg [|json]] context]|];
      try done. by destruct ok.
Qed.

Lemma Legacy_run_seen b inputs k :
  k ∈ LegacyBus.seen b → k ∈ LegacyBus.seen (LegacyBus.run env b inputs).1.
Proof.
  revert b. induction inputs as [|i inputs IH]; intros b Hk; [done|].
  rewrite Legacy_run_cons. cbn [fst]. by apply IH, Legacy_step_seen.
Qed.

Lemma Legacy_step_quiet b i :
  i ≠ LegacyBus.TimerFire → LegacyBus.writes b = [] →
  LegacyBus.writes (LegacyBus.step env b i).1 = []
  ∧ LegacyBus.file (LegacyBus.step env b i).1 = LegacyBus.file b.
Proof.
  intros Hi Hw.
  destruct i as [event now|n ok| |j ok|j ok]; cbn [LegacyBus.step]; [| |done|..].
  - unfold LegacyBus.handleEvent.
    destruct (_ || _); [done|]. case_bool_decide; [done|].
    destruct (unwrapEvent env event (sk env)) as [rumor|]; [|done].
    repeat case_bool_decide; try done; by case_if.
  - destruct (LegacyBus.suspended b !! n) as [[event rumor]|]; [|done].
    unfold LegacyBus.handleEvent_resume.
    destruct ok; cbn [fst LegacyBus.finally LegacyBus.writes LegacyBus.file
                      LegacyBus.set_inflight]; [|done].
    destruct (Legacy_scheduleStatePersist_keeps (ev_created_at event)
                (ev_id event)
                (LegacyBus.set_suspended (delete n (LegacyBus.suspended b)) b))
      as (_ & -> & ->).
    done.
  - by rewrite Hw.
  - by rewrite Hw.
Qed.

End legacy_bus_lemmas.

(** X22.  In the older bus an event that was handed to the callback is
    never taken up again: whatever happens afterwards and however much, a
    delivery of an event with the same identifier has no effect.  (The set
    of seen identifiers is never trimmed.) *)
Theorem Legacy_redelivery_discarded env b event now mid event' now' s t :
  CallOnMessage s t ∈ (LegacyBus.step env b (LegacyBus.Deliver event now)).2 →
  ev_id event' = ev_id event →
  (LegacyBus.step env
     (LegacyBus.run env b (LegacyBus.Deliver event now :: mid)).1
     (LegacyBus.Deliver event' now')).2 = [].
Proof.
  intros Hcall Hid. cbn [LegacyBus.step] in *.
  apply Legacy_handleEvent_seen. rewrite Hid.
  rewrite Legacy_run_cons. cbn [fst LegacyBus.step].
  apply Legacy_run_seen.
  destruct (Legacy_handleEvent_cases env event now b)
    as [(_ & _ & Hno)|(r & _ & _ & _ & _ & _ & _ & -> & _)].
  - by destruct (Hno s t).
  - apply Set_add_new.
Qed.

(** X23.  The older bus drops a rumor that is dated more than three days
    (259200 seconds) before the delivery, and knows no other rule of age and
    no rumor key: two gift wraps of one rumor that is not that old (or has
    no timestamp), written by somebody else, are both handed to the
    callback. *)
Theorem Legacy_three_days_no_rumor_key env b :
  (∀ event rumor now t,
     unwrapEvent env event (sk env) = Some rumor →
     r_created_at rumor = Some t → t < now - 259200 →
     (LegacyBus.step env b (LegacyBus.Deliver event now)).2 = [])
  ∧ (∀ e1 e2 r now1 now2,
       ev_id e1 ≠ ev_id e2 →
       ev_id e1 ∉ LegacyBus.seen b → ev_id e1 ∉ LegacyBus.inflight b →
       ev_id e2 ∉ LegacyBus.seen b → ev_id e2 ∉ LegacyBus.inflight b →
       ev_kind e1 = 1059 → ev_kind e2 = 1059 →
       unwrapEvent env e1 (sk env) = Some r →
       unwrapEvent env e2 (sk env) = Some r →
       r_kind r = 14 → r_pubkey r ≠ pk env →
       (∀ t, r_created_at r = Some t →
             now1 - 259200 ≤ t ∧ now2 - 259200 ≤ t) →
       (LegacyBus.run env b [LegacyBus.Deliver e1 now1;
                             LegacyBus.Deliver e2 now2]).2
       = [CallOnMessage (r_pubkey r) (r_content r);
          CallOnMessage (r_pubkey r) (r_content r)]).
Proof.
  assert (∀ now, LegacyBus.staleThreshold now = now - 259200) as Hthr by done.
  split.
  - intros event rumor now t Hun Ht Hold. cbn [LegacyBus.step].
    unfold LegacyBus.handleEvent. rewrite Hun, Hthr, Ht. unfold js_lt.
    rewrite (bool_decide_eq_true_2 (t < now - 259200)) by done.
    destruct (_ || _); [done|]. repeat case_bool_decide; done.
  - intros e1 e2 r now1 now2 Hne Hs1 Hi1 Hs2 Hi2 Hk1 Hk2 Hu1 Hu2 Hrk Hown Hn.
    assert (∀ now, (∀ t, r_created_at r = Some t → now - 259200 ≤ t) →
                   js_lt (r_created_at r) (Some (now - 259200)) = false)
      as Hfresh.
    { intros now H. unfold js_lt. destruct (r_created_at r) as [t|]; [|done].
      apply bool_decide_eq_false_2. specialize (H t eq_refl). lia. }
    assert (js_lt (r_created_at r) (Some (now1 - 259200)) = false) as Hn1.
    { apply Hfresh. intros t Ht. by destruct (Hn t Ht). }
    assert (js_lt (r_created_at r) (Some (now2 - 259200)) = false) as Hn2.
    { apply Hfresh. intros t Ht. by destruct (Hn t Ht). }
    assert (∀ e now b',
              ev_id e ∉ LegacyBus.seen b' → ev_id e ∉ LegacyBus.inflight b' →
              ev_kind e = 1059 → unwrapEvent env e (sk env) = Some r →
              js_lt (r_created_at r) (Some (now - 259200)) = false →
              LegacyBus.handleEvent env e now b'
              = (LegacyBus.set_suspended
                   (LegacyBus.suspended b' ++ [(e, r)])
                   (LegacyBus.set_seen
                      (Set_add (ev_id e) (LegacyBus.seen b'))
                      (LegacyBus.set_inflight
                         (Set_add (ev_id e) (LegacyBus.inflight b')) b')),
                 [CallOnMessage (r_pubkey r) (r_content r)])) as Haccept.
    { intros e now b' Hs Hi Hk Hu Hnew. unfold LegacyBus.handleEvent.
      rewrite (proj2 (Set_has_false _ _) Hs), (proj2 (Set_has_false _ _) Hi).
      cbn [orb]. rewrite Hu, Hthr.
      rewrite bool_decide_eq_false_2 by (by intros ?).
      rewrite bool_decide_eq_false_2 by (by intros ?).
      rewrite bool_decide_eq_false_2 by done.
      by rewrite Hnew. }
    rewrite !Legacy_run_cons. cbn [fst snd LegacyBus.run LegacyBus.step].
    rewrite (Haccept e1 now1 b) by done. cbn [fst snd].
    rewrite Haccept; [done| | |done..];
      cbn [LegacyBus.seen LegacyBus.inflight LegacyBus.set_suspended
           LegacyBus.set_seen LegacyBus.set_inflight];
      unfold Set_add.
    + rewrite (proj2 (Set_has_false _ _) Hs1).
      intros [?|?%list_elem_of_singleton]%elem_of_app; [done|]. by apply Hne.
    + rewrite (proj2 (Set_has_false _ _) Hi1).
      intros [?|?%list_elem_of_singleton]%elem_of_app; [done|]. by apply Hne.
Qed.

(** X24.  The older bus writes nothing while it waits for five quiet
    seconds: as long as the timer does not fire, no write starts and the
    state file stays as it is, whatever is delivered and processed.  When
    the timer fires, one write starts, of the state as it is then, and the
    timer does not fire a second time. *)
Theorem Legacy_debounced_write env b :
  LegacyBus.writes b = [] →
  (∀ inputs,
     LegacyBus.TimerFire ∉ inputs →
     LegacyBus.writes (LegacyBus.run env b inputs).1 = []
     ∧ LegacyBus.file (LegacyBus.run env b inputs).1 = LegacyBus.file b)
  ∧ (LegacyBus.pendingWrite b = Some true →
     LegacyBus.file
       (LegacyBus.run env b [LegacyBus.TimerFire; LegacyBus.MkdirDone 0 true;
                             LegacyBus.WriteFileDone 0 true]).1
     = Some {| s_lastProcessedAt := LegacyBus.lastProcessedAt b;
               s_gatewayStartedAt := gatewayStartedAt env;
               s_recentEventIds :=
                 deref (LegacyBus.heap b) (LegacyBus.recentEventIds b);
               s_lastRumorAt := None |}
     ∧ LegacyBus.step env (LegacyBus.step env b LegacyBus.TimerFire).1
         LegacyBus.TimerFire
       = ((LegacyBus.step env b LegacyBus.TimerFire).1, [])).
Proof.
  intros Hw. split.
  - intros inputs. revert b Hw.
    induction inputs as [|i inputs IH]; intros b Hw Hno; [done|].
    apply not_elem_of_cons in Hno as [Hi Hno].
    rewrite Legacy_run_cons. cbn [fst].
    destruct (Legacy_step_quiet env b i) as [Hw1 Hf1]; [done..|].
    destruct (IH (LegacyBus.step env b i).1 Hw1 Hno) as [Hw2 Hf2].
    split; [done|]. by rewrite Hf2.
  - intros Hp. split.
    + rewrite !Legacy_run_cons. cbn [fst LegacyBus.run LegacyBus.step].
      rewrite Hp. unfold LegacyBus.start_write.
      cbn [fst LegacyBus.writes LegacyBus.set_writes LegacyBus.set_pendingWrite].
      by rewrite Hw.
    + cbn [LegacyBus.step]. by rewrite Hp.
Qed.

Lemma ex_legacy_bus0_started :
  LegacyBus.startNip17Bus ex_env None true
  = Some {| LegacyBus.since := 1699827200; LegacyBus.bus := ex_legacy_bus0 |}.
Proof. reflexivity. Qed.

Lemma Legacy_redelivery_discarded_witness :
  CallOnMessage ex_alice (Some "hello")
    ∈ (LegacyBus.step ex_env ex_legacy_bus0 (LegacyBus.Deliver ex_e1 ex_now)).2
  ∧ (LegacyBus.step ex_env
       (LegacyBus.run ex_env ex_legacy_bus0
          (LegacyBus.Deliver ex_e1 ex_now
           :: [LegacyBus.Settle 0 false; LegacyBus.TimerFire;
               LegacyBus.Deliver (ex_noise 0) ex_now])).1
       (LegacyBus.Deliver ex_e1 (ex_now + 600))).2 = [].
Proof.
  assert (CallOnMessage ex_alice (Some "hello")
            ∈ (LegacyBus.step ex_env ex_legacy_bus0
                 (LegacyBus.Deliver ex_e1 ex_now)).2) as H
    by (vm_compute; left).
  split; [exact H|].
  exact (Legacy_redelivery_discarded ex_env ex_legacy_bus0 ex_e1 ex_now
           [LegacyBus.Settle 0 false; LegacyBus.TimerFire;
            LegacyBus.Deliver (ex_noise 0) ex_now]
           ex_e1 (ex_now + 600) ex_alice (Some "hello") H eq_refl).
Defined.

Lemma Legacy_three_days_no_rumor_key_witness :
  (LegacyBus.step ex_env ex_legacy_bus0 (LegacyBus.Deliver ex_old ex_now)).2 = []
  ∧ (LegacyBus.run ex_env ex_legacy_bus0
       [LegacyBus.Deliver ex_e1 ex_now; LegacyBus.Deliver ex_e2 ex_now]).2
    = [CallOnMessage ex_alice (Some "hello");
       CallOnMessage ex_alice (Some "hello")].
Proof.
  destruct (Legacy_three_days_no_rumor_key ex_env ex_legacy_bus0) as [H1 H2].
  split.
  - apply (H1 ex_old
             {| r_id := Some (pretty (8 * 10 ^ 63)%N); r_kind := 14;
                r_pubkey := ex_alice; r_created_at := Some 1690000400;
                r_content := Some "hello" |} ex_now 1690000400);
      by vm_compute.
  - apply (H2 ex_e1 ex_e2
             {| r_id := Some ex_rumor_id; r_kind := 14; r_pubkey := ex_alice;
                r_created_at := Some 1700000050; r_content := Some "hello" |}
             ex_now ex_now);
      try reflexivity; try apply not_elem_of_nil; try (by vm_compute).
    intros t [= <-]. by vm_compute.
Defined.

Lemma Legacy_debounced_write_witness :
  LegacyBus.writes
    (LegacyBus.run ex_env ex_legacy_bus0
       [LegacyBus.Deliver ex_e1 ex_now; LegacyBus.Settle 0 true]).1 = []
  ∧ LegacyBus.file
      (LegacyBus.run ex_env
         (LegacyBus.run ex_env ex_legacy_bus0
            [LegacyBus.Deliver ex_e1 ex_now; LegacyBus.Settle 0 true]).1
         [LegacyBus.Deliver ex_e2 ex_now; LegacyBus.Settle 0 true]).1
    = LegacyBus.file ex_legacy_bus0
  ∧ LegacyBus.file
      (LegacyBus.run ex_env
         (LegacyBus.run ex_env ex_legacy_bus0
            [LegacyBus.Deliver ex_e1 ex_now; LegacyBus.Settle 0 true]).1
         [LegacyBus.TimerFire; LegacyBus.MkdirDone 0 true;
          LegacyBus.WriteFileDone 0 true]).1
    = Some {| s_lastProcessedAt := 1700000050;
              s_gatewayStartedAt := 1700000000;
              s_recentEventIds := [ev_id ex_e1];
              s_lastRumorAt := None |}.
Proof.
  assert (LegacyBus.writes
            (LegacyBus.run ex_env ex_legacy_bus0
               [LegacyBus.Deliver ex_e1 ex_now; LegacyBus.Settle 0 true]).1
          = []) as Hw by reflexivity.
  destruct (Legacy_debounced_write ex_env _ Hw) as [H1 H2].
  split; [exact Hw|]. split.
  - apply (H1 [LegacyBus.Deliver ex_e2 ex_now; LegacyBus.Settle 0 true]).
    intros [[=]|[[=]|[]%elem_of_nil]%elem_of_cons]%elem_of_cons.
  - apply H2. reflexivity.
Defined.

(** ** The outbound adapter and the running buses *)

(** X25.  [sendText] and [sendMedia] report success only for a recipient
    that normalises to a key and an account whose bus is running, and they
    report the normalised key.  [sendText] has then handed exactly one
    message to that bus, the text with its tables converted.  [sendMedia]
    has handed over the caption as it is, or nothing at all when there is no
    caption or a blank one.  Without the runtime or without a running bus
    both throw and nothing is sent. *)
Theorem outbound_send_checks {Runtime Handle : Type}
    (decode : string → Res Decoded) (sdk_id : string)
    (convert : Runtime → string → string → string)
    (sendDm : Handle → string → string → Completion)
    (p : Plugin) (to : string) (text accountId : option string) (now : Z) :
  (∀ r, outcome (sendText decode sdk_id convert sendDm p to text accountId now)
        = Ok r →
        ∃ core bus,
          runtime p = Some core
          ∧ activeBuses p !! default sdk_id accountId = Some bus
          ∧ normalizePubkey decode to = Ok (sr_to r)
          ∧ dms (sendText decode sdk_id convert sendDm p to text accountId now)
            = [(bus, sr_to r,
                convert core (default sdk_id accountId) (default "" text))])
  ∧ (∀ r, outcome (sendMedia decode sdk_id sendDm p to text accountId now)
          = Ok r →
          ∃ core bus,
            runtime p = Some core
            ∧ activeBuses p !! default sdk_id accountId = Some bus
            ∧ normalizePubkey decode to = Ok (sr_to r)
            ∧ ((∃ t, text = Some t ∧ trim t ≠ ""
                     ∧ dms (sendMedia decode sdk_id sendDm p to text accountId now)
                       = [(bus, sr_to r, t)])
               ∨ ((text = None ∨ ∃ t, text = Some t ∧ trim t = "")
                  ∧ dms (sendMedia decode sdk_id sendDm p to text accountId now)
                    = [])))
  ∧ (runtime p = None →
     sendText decode sdk_id convert sendDm p to text accountId now
     = {| dms := []; outcome := Throw "NIP-17 runtime not initialized" |}
     ∧ sendMedia decode sdk_id sendDm p to text accountId now
       = {| dms := []; outcome := Throw "NIP-17 runtime not initialized" |})
  ∧ (is_Some (runtime p) →
     activeBuses p !! default sdk_id accountId = None →
     sendText decode sdk_id convert sendDm p to text accountId now
     = {| dms := [];
          outcome := Throw ("NIP-17 bus not running for account "
                            +:+ default sdk_id accountId) |}
     ∧ sendMedia decode sdk_id sendDm p to text accountId now
       = {| dms := [];
            outcome := Throw ("NIP-17 bus not running for account "
                              +:+ default sdk_id accountId) |}).
Proof.
  unfold sendText, sendMedia, getNip17Runtime. split_and!.
  - intros r. destruct (runtime p) as [core|]; [|done].
    destruct (activeBuses p !! default sdk_id accountId) as [bus|]; [|done].
    destruct (normalizePubkey decode to) as [toN|m]; [|done].
    cbn [outcome dms]. destruct (sendDm bus toN _); [|done].
    intros [= <-]. by exists core, bus.
  - intros r. destruct (runtime p) as [core|]; [|done].
    destruct (activeBuses p !! default sdk_id accountId) as [bus|]; [|done].
    destruct (normalizePubkey decode to) as [toN|m]; [|done].
    destruct text as [t|].
    + case_bool_decide as Hblank; cbn [outcome dms].
      * destruct (sendDm bus toN t); [|done]. intros [= <-].
        exists core, bus. split_and!; [done..|]. left. by exists t.
      * intros [= <-]. exists core, bus. split_and!; [done..|]. right.
        split; [|done]. right. exists t. split; [done|].
        destruct (decide (trim t = "")) as [Heq|Hne]; [done|by destruct Hblank].
    + cbn [outcome dms]. intros [= <-].
      exists core, bus. split_and!; [done..|]. right. split; [by left|done].
  - by intros ->.
  - intros [core ->] ->. done.
Qed.

(** X26.  The running buses are kept by the identifier of the account.
    After [startAccount] the bus of the account is the one just started;
    [stop] deletes the entry under the identifier, whichever bus is entered
    there: when an account is started a second time and the first start is
    stopped afterwards, the second bus is no longer found and [sendText]
    throws for the account.  An account that is not configured is not
    started. *)
Theorem running_buses_by_account {Runtime Handle : Type}
    (decode : string → Res Decoded) (sdk_id : string)
    (convert : Runtime → string → string → string)
    (sendDm : Handle → string → string → Completion)
    (p : Plugin) (core : Runtime) (id : string) (bus1 bus2 : Handle) :
  runtime p = Some core →
  ∃ p1 p2,
    startAccount id true (Ok bus1) p = Ok p1
    ∧ activeBuses p1 !! id = Some bus1
    ∧ startAccount id true (Ok bus2) p1 = Ok p2
    ∧ activeBuses p2 !! id = Some bus2
    ∧ activeBuses (stop id p2) !! id = None
    ∧ (∀ to text now,
         sendText decode sdk_id convert sendDm (stop id p2) to text (Some id) now
         = {| dms := [];
              outcome := Throw ("NIP-17 bus not running for account " +:+ id) |})
    ∧ (∀ other, other ≠ id →
         activeBuses (stop id p2) !! other = activeBuses p !! other)
    ∧ (∀ started, startAccount id false started p
                  = Throw "NIP-17 private key not configured").
Proof.
  intros Hrt.
  exists {| runtime := runtime p;
            activeBuses := <[id := bus1]> (activeBuses p) |},
         {| runtime := runtime p;
            activeBuses := <[id := bus2]> (<[id := bus1]> (activeBuses p)) |}.
  unfold startAccount, sendText, getNip17Runtime, stop.
  cbn [runtime activeBuses negb default]. rewrite Hrt. cbn [Res_bind].
  split; [done|]. split; [by rewrite lookup_insert_eq|].
  split; [done|]. split; [by rewrite lookup_insert_eq|].
  split; [by rewrite lookup_delete_eq|].
  split; [intros to text now; by rewrite lookup_delete_eq|].
  split; [|done]. intros other Hne.
  by rewrite lookup_delete_ne, !lookup_insert_ne.
Qed.

Lemma running_buses_by_account_witness :
  ∃ p1 p2 : @Plugin unit nat,
    startAccount "work" true (Ok 1%nat) ex_plugin = Ok p1
    ∧ startAccount "work" true (Ok 2%nat) p1 = Ok p2
    ∧ activeBuses p2 !! "work" = Some 2%nat
    ∧ activeBuses (stop "work" p2) !! "work" = None.
Proof.
  destruct (running_buses_by_account Nip19.decode "default" (λ _ _ t, t)
              (λ _ _ _, Returned) ex_plugin tt "work" 1%nat 2%nat eq_refl)
    as (p1 & p2 & H1 & _ & H2 & H3 & H4 & _).
  by exists p1, p2.
Defined.
